(** * go2rtc-panel: the connection lifecycle of [Go2RTCPanel.tsx]

    A shallow embedding of the React component [Go2RTCPanel]: its state
    cells and refs, the reconnect scheduler [triggerReconnect], the latency
    monitor, the asynchronous [setupWebRTC] with its [try]/[catch], and the
    effect cleanup.  The browser (peer connections, timers, the promise
    results of the WebRTC and fetch calls) is an explicit part of the
    state; what the browser answers is carried by the events. *)

From stdpp Require Import base strings gmap list.
From Stdlib Require Import Floats.SpecFloat.

Local Open Scope string_scope.
Local Open Scope nat_scope.
Local Open Scope list_scope.

(** ** JavaScript strings *)

Module JsString.

(** [s.endsWith(suffix)] *)
Definition endsWith (s suffix : string) : bool :=
  (String.length suffix <=? String.length s)%nat
  && String.eqb
       (String.substring (String.length s - String.length suffix)
                         (String.length suffix) s)
       suffix.

(** [s.slice(0, -1)]: the end index [-1] counts from the end and is
    clamped at 0. *)
Definition slice_0_minus1 (s : string) : string :=
  String.substring 0 (String.length s - 1) s.

(** The truthiness of a value that is a string or [undefined]. *)
Definition truthy (v : option string) : bool :=
  match v with
  | Some s => negb (String.eqb s "")
  | None => false
  end.

(** A value inside a template literal. *)
Definition interpolate (v : option string) : string :=
  match v with
  | Some s => s
  | None => "undefined"
  end.

End JsString.

(** ** JavaScript numbers

    A number is an IEEE 754 binary64 value ([spec_float] at precision 53
    with exponents up to 1024); the arithmetic operators round to nearest,
    ties to even. *)

Module JsNumber.

Definition prec : Z := 53.
Definition emax : Z := 1024.

(** [x - y] *)
Definition sub (x y : spec_float) : spec_float := SFsub prec emax x y.

(** [x / y] *)
Definition div (x y : spec_float) : spec_float := SFdiv prec emax x y.

(** [x > y]; false when either is [NaN]. *)
Definition gt (x y : spec_float) : bool := SFltb y x.

(** [x <= y]; false when either is [NaN]. *)
Definition le (x y : spec_float) : bool := SFleb x y.

(** The number of an integer literal. *)
Definition of_Z (z : Z) : spec_float := binary_normalize prec emax z 0 false.

(** The literal [0]. *)
Definition zero : spec_float := S754_zero false.

(** The literal [0.5], which is 2^52 * 2^-53. *)
Definition half : spec_float := S754_finite false 4503599627370496 (-53).

(** Neither an infinity nor [NaN]. *)
Definition is_finite (x : spec_float) : bool :=
  match x with
  | S754_zero _ | S754_finite _ _ _ => true
  | S754_infinity _ | S754_nan => false
  end.

End JsNumber.

(** ** Configuration

    [Config] objects are JavaScript objects with string values; the object
    spread [{ ...a, ...b }] keeps the keys of both and lets [b] win. *)

Definition spread (a b : gmap string string) : gmap string string := b ∪ a.

Definition DEFAULT_CONFIG : gmap string string :=
  <["url" := "http://localhost:1984"]> (<["stream" := "cam1"]> ∅).

Definition cfg_url (c : gmap string string) : option string := c !! "url".
Definition cfg_stream (c : gmap string string) : option string := c !! "stream".

(** The initializer of [useState<Config>]; [context.initialState] is
    [undefined] when nothing was persisted. *)
Definition initial_config (initialState : option (gmap string string))
  : gmap string string :=
  spread DEFAULT_CONFIG (default ∅ initialState).

(** [settingsActionHandler], for an ["update"] action. *)
Definition settings_update (path : list string) (value : string)
    (prev : gmap string string) : gmap string string :=
  let newConfig := spread prev ∅ in
  if decide (path !! 0%nat = Some "general" ∧ path !! 1%nat = Some "url")
  then <["url" := value]> newConfig
  else if decide (path !! 0%nat = Some "general" ∧ path !! 1%nat = Some "stream")
  then <["stream" := value]> newConfig
  else newConfig.

(** ** Values thrown and promise results *)

Inductive Thrown :=
| ErrorObj (message : string)   (* [err instanceof Error] *)
| OtherValue (text : string).   (* anything else, with its [String(err)] *)

Definition err_text (e : Thrown) : string :=
  match e with
  | ErrorObj m => m
  | OtherValue t => t
  end.

Record Response := { ok : bool; statusText : string }.

(** ** The browser objects the panel holds *)

Record Video := {
  paused : bool;
  readyState : nat;
  buffered : list (spec_float * spec_float);  (* [TimeRanges]: (start, end) *)
  currentTime : spec_float;                   (* seconds *)
  srcObject : option nat          (* the attached [MediaStream], if any *)
}.

Record PeerConnection := {
  closed : bool;
  transceivers : list (string * string);
  localDescription : option string;
  remoteDescription : option string;
  iceConnectionState : string;
  connectionState : string
}.

(** The point at which a running [setupWebRTC] is suspended. *)
Inductive Await :=
| AwaitCreateOffer
| AwaitSetLocalDescription (offer : string)
| AwaitFetch
| AwaitText
| AwaitSetRemoteDescription (answer : string).

(** A suspended [setupWebRTC]: the variables of its closure ([pc] and the
    [config] of the render that started it) and where it waits. *)
Record Task := {
  t_pc : nat;
  t_url : option string;
  t_stream : option string;
  t_await : Await
}.

(** What a promise settles with. *)
Inductive Settled :=
| OfferCreated (sdp : string)
| LocalDescriptionSet
| Fetched (r : Response)
| TextRead (body : string)
| RemoteDescriptionSet
| Rejected (e : Thrown).

(** The browser calls the panel makes, in order. *)
Inductive Call :=
| CNewPeerConnection (pc : nat)
| CClose (pc : nat)
| CAddTransceiver (pc : nat) (kind direction : string)
| CCreateOffer (pc : nat)
| CSetLocalDescription (pc : nat) (sdp : string)
| CFetch (url method : string) (body : option string)
| CText
| CSetRemoteDescription (pc : nat) (type sdp : string)
| CSetTimeout (id delay : nat)
| CClearTimeout (id : nat)
| CConsoleError (e : Thrown)
| CConsoleLog (skipping_from to : spec_float).  (* the Latency Killer message *)

(** ** The state of the panel and of its browser *)

Record World := {
  (* [useState] cells *)
  config : gmap string string;
  error : option string;
  status : string;
  reconnectCount : nat;
  latency : spec_float;
  (* [useRef] cells *)
  videoRef : option Video;
  pcRef : option nat;
  reconnectTimeoutRef : option nat;
  reconnectCountRef : nat;
  (* the component is mounted *)
  mounted : bool;
  (* the browser *)
  now : nat;                           (* milliseconds *)
  pcs : list PeerConnection;           (* every connection created, by id *)
  timers : gmap nat nat;               (* pending one-shot timers: id to due time *)
  timer_seq : nat;                     (* the next timer id *)
  interval : option nat;               (* the latency interval: next due time *)
  tasks : list (option Task);          (* [setupWebRTC] runs; [None] once returned *)
  calls : list Call;                   (* browser calls, latest first *)
  unhandled : list Thrown              (* rejections nobody caught *)
}.

(** Field updates. *)

Definition set_config (v : gmap string string) (w : World) : World :=
  Build_World v (error w) (status w) (reconnectCount w) (latency w)
    (videoRef w) (pcRef w) (reconnectTimeoutRef w) (reconnectCountRef w)
    (mounted w) (now w) (pcs w) (timers w) (timer_seq w) (interval w)
    (tasks w) (calls w) (unhandled w).

Definition set_error (v : option string) (w : World) : World :=
  Build_World (config w) v (status w) (reconnectCount w) (latency w)
    (videoRef w) (pcRef w) (reconnectTimeoutRef w) (reconnectCountRef w)
    (mounted w) (now w) (pcs w) (timers w) (timer_seq w) (interval w)
    (tasks w) (calls w) (unhandled w).

Definition set_status (v : string) (w : World) : World :=
  Build_World (config w) (error w) v (reconnectCount w) (latency w)
    (videoRef w) (pcRef w) (reconnectTimeoutRef w) (reconnectCountRef w)
    (mounted w) (now w) (pcs w) (timers w) (timer_seq w) (interval w)
    (tasks w) (calls w) (unhandled w).

Definition set_reconnectCount (v : nat) (w : World) : World :=
  Build_World (config w) (error w) (status w) v (latency w) (videoRef w)
    (pcRef w) (reconnectTimeoutRef w) (reconnectCountRef w) (mounted w)
    (now w) (pcs w) (timers w) (timer_seq w) (interval w) (tasks w) (calls w)
    (unhandled w).

Definition set_latency (v : spec_float) (w : World) : World :=
  Build_World (config w) (error w) (status w) (reconnectCount w) v
    (videoRef w) (pcRef w) (reconnectTimeoutRef w) (reconnectCountRef w)
    (mounted w) (now w) (pcs w) (timers w) (timer_seq w) (interval w)
    (tasks w) (calls w) (unhandled w).

Definition set_videoRef (v : option Video) (w : World) : World :=
  Build_World (config w) (error w) (status w) (reconnectCount w) (latency w) v
    (pcRef w) (reconnectTimeoutRef w) (reconnectCountRef w) (mounted w)
    (now w) (pcs w) (timers w) (timer_seq w) (interval w) (tasks w) (calls w)
    (unhandled w).

Definition set_pcRef (v : option nat) (w : World) : World :=
  Build_World (config w) (error w) (status w) (reconnectCount w) (latency w)
    (videoRef w) v (reconnectTimeoutRef w) (reconnectCountRef w) (mounted w)
    (now w) (pcs w) (timers w) (timer_seq w) (interval w) (tasks w) (calls w)
    (unhandled w).

Definition set_reconnectTimeoutRef (v : option nat) (w : World) : World :=
  Build_World (config w) (error w) (status w) (reconnectCount w) (latency w)
    (videoRef w) (pcRef w) v (reconnectCountRef w) (mounted w) (now w) (pcs w)
    (timers w) (timer_seq w) (interval w) (tasks w) (calls w) (unhandled w).

Definition set_reconnectCountRef (v : nat) (w : World) : World :=
  Build_World (config w) (error w) (status w) (reconnectCount w) (latency w)
    (videoRef w) (pcRef w) (reconnectTimeoutRef w) v (mounted w) (now w)
    (pcs w) (timers w) (timer_seq w) (interval w) (tasks w) (calls w)
    (unhandled w).

Definition set_mounted (v : bool) (w : World) : World :=
  Build_World (config w) (error w) (status w) (reconnectCount w) (latency w)
    (videoRef w) (pcRef w) (reconnectTimeoutRef w) (reconnectCountRef w) v
    (now w) (pcs w) (timers w) (timer_seq w) (interval w) (tasks w) (calls w)
    (unhandled w).

Definition set_now (v : nat) (w : World) : World :=
  Build_World (config w) (error w) (status w) (reconnectCount w) (latency w)
    (videoRef w) (pcRef w) (reconnectTimeoutRef w) (reconnectCountRef w)
    (mounted w) v (pcs w) (timers w) (timer_seq w) (interval w) (tasks w)
    (calls w) (unhandled w).

Definition set_pcs (v : list PeerConnection) (w : World) : World :=
  Build_World (config w) (error w) (status w) (reconnectCount w) (latency w)
    (videoRef w) (pcRef w) (reconnectTimeoutRef w) (reconnectCountRef w)
    (mounted w) (now w) v (timers w) (timer_seq w) (interval w) (tasks w)
    (calls w) (unhandled w).

Definition set_timers (v : gmap nat nat) (w : World) : World :=
  Build_World (config w) (error w) (status w) (reconnectCount w) (latency w)
    (videoRef w) (pcRef w) (reconnectTimeoutRef w) (reconnectCountRef w)
    (mounted w) (now w) (pcs w) v (timer_seq w) (interval w) (tasks w)
    (calls w) (unhandled w).

Definition set_timer_seq (v : nat) (w : World) : World :=
  Build_World (config w) (error w) (status w) (reconnectCount w) (latency w)
    (videoRef w) (pcRef w) (reconnectTimeoutRef w) (reconnectCountRef w)
    (mounted w) (now w) (pcs w) (timers w) v (interval w) (tasks w) (calls w)
    (unhandled w).

Definition set_interval (v : option nat) (w : World) : World :=
  Build_World (config w) (error w) (status w) (reconnectCount w) (latency w)
    (videoRef w) (pcRef w) (reconnectTimeoutRef w) (reconnectCountRef w)
    (mounted w) (now w) (pcs w) (timers w) (timer_seq w) v (tasks w) (calls w)
    (unhandled w).

Definition set_tasks (v : list (option Task)) (w : World) : World :=
  Build_World (config w) (error w) (status w) (reconnectCount w) (latency w)
    (videoRef w) (pcRef w) (reconnectTimeoutRef w) (reconnectCountRef w)
    (mounted w) (now w) (pcs w) (timers w) (timer_seq w) (interval w) v
    (calls w) (unhandled w).

Definition set_calls (v : list Call) (w : World) : World :=
  Build_World (config w) (error w) (status w) (reconnectCount w) (latency w)
    (videoRef w) (pcRef w) (reconnectTimeoutRef w) (reconnectCountRef w)
    (mounted w) (now w) (pcs w) (timers w) (timer_seq w) (interval w)
    (tasks w) v (unhandled w).

Definition set_unhandled (v : list Thrown) (w : World) : World :=
  Build_World (config w) (error w) (status w) (reconnectCount w) (latency w)
    (videoRef w) (pcRef w) (reconnectTimeoutRef w) (reconnectCountRef w)
    (mounted w) (now w) (pcs w) (timers w) (timer_seq w) (interval w)
    (tasks w) (calls w) v.

Definition set_pc (pc : nat) (f : PeerConnection → PeerConnection) (w : World)
  : World :=
  set_pcs (alter f pc (pcs w)) w.

Definition with_closed (p : PeerConnection) : PeerConnection :=
  {| closed := true; transceivers := transceivers p;
     localDescription := localDescription p;
     remoteDescription := remoteDescription p;
     iceConnectionState := iceConnectionState p;
     connectionState := connectionState p |}.

Definition with_transceiver (kind direction : string) (p : PeerConnection)
  : PeerConnection :=
  {| closed := closed p;
     transceivers := transceivers p ++ [(kind, direction)];
     localDescription := localDescription p;
     remoteDescription := remoteDescription p;
     iceConnectionState := iceConnectionState p;
     connectionState := connectionState p |}.

Definition with_localDescription (sdp : string) (p : PeerConnection)
  : PeerConnection :=
  {| closed := closed p; transceivers := transceivers p;
     localDescription := Some sdp;
     remoteDescription := remoteDescription p;
     iceConnectionState := iceConnectionState p;
     connectionState := connectionState p |}.

Definition with_remoteDescription (sdp : string) (p : PeerConnection)
  : PeerConnection :=
  {| closed := closed p; transceivers := transceivers p;
     localDescription := localDescription p;
     remoteDescription := Some sdp;
     iceConnectionState := iceConnectionState p;
     connectionState := connectionState p |}.

Definition with_iceConnectionState (st : string) (p : PeerConnection)
  : PeerConnection :=
  {| closed := closed p; transceivers := transceivers p;
     localDescription := localDescription p;
     remoteDescription := remoteDescription p;
     iceConnectionState := st;
     connectionState := connectionState p |}.

Definition with_connectionState (st : string) (p : PeerConnection)
  : PeerConnection :=
  {| closed := closed p; transceivers := transceivers p;
     localDescription := localDescription p;
     remoteDescription := remoteDescription p;
     iceConnectionState := iceConnectionState p;
     connectionState := st |}.

Definition with_currentTime (t : spec_float) (v : Video) : Video :=
  {| paused := paused v; readyState := readyState v; buffered := buffered v;
     currentTime := t; srcObject := srcObject v |}.

Definition with_srcObject (s : option nat) (v : Video) : Video :=
  {| paused := paused v; readyState := readyState v; buffered := buffered v;
     currentTime := currentTime v; srcObject := s |}.

Definition with_await (a : Await) (t : Task) : Task :=
  {| t_pc := t_pc t; t_url := t_url t; t_stream := t_stream t; t_await := a |}.

(** ** React state setters

    An update of a state cell of a component that is no longer mounted is
    dropped by React. *)

Definition setStatus (v : string) (w : World) : World :=
  if mounted w then set_status v w else w.

Definition setError (v : option string) (w : World) : World :=
  if mounted w then set_error v w else w.

Definition setReconnectCount (f : nat → nat) (w : World) : World :=
  if mounted w then set_reconnectCount (f (reconnectCount w)) w else w.

Definition setLatency (v : spec_float) (w : World) : World :=
  if mounted w then set_latency v w else w.

Definition setConfig (f : gmap string string → gmap string string) (w : World)
  : World :=
  if mounted w then set_config (f (config w)) w else w.

(** ** Browser primitives *)

Definition browser_call (c : Call) (w : World) : World :=
  set_calls (c :: calls w) w.

Definition fresh_pc : PeerConnection :=
  {| closed := false; transceivers := []; localDescription := None;
     remoteDescription := None; iceConnectionState := "new";
     connectionState := "new" |}.

(** [pc.close()] *)
Definition pc_close (pc : nat) (w : World) : World :=
  browser_call (CClose pc) (set_pc pc with_closed w).

(** [setTimeout(cb, delay)]: a one-shot timer due [delay] ms from now. *)
Definition setTimeout (delay : nat) (w : World) : nat * World :=
  let id := timer_seq w in
  (id,
   browser_call (CSetTimeout id delay)
     (set_timer_seq (S id) (set_timers (<[id := now w + delay]> (timers w)) w))).

(** [clearTimeout(id)] *)
Definition clearTimeout (id : nat) (w : World) : World :=
  browser_call (CClearTimeout id) (set_timers (delete id (timers w)) w).

(** ** The reconnect scheduler *)

(** The body of the timer armed by [triggerReconnect]. *)
Definition retry_callback (w : World) : World :=
  let w := set_reconnectCountRef (reconnectCountRef w + 1) w in
  let w := setReconnectCount (λ c, c + 1) w in
  set_reconnectTimeoutRef None w.

Definition RETRY_DELAY : nat := 2000.

Definition triggerReconnect (w : World) : World :=
  match reconnectTimeoutRef w with
  | Some _ => w
  | None =>
      let w := setStatus "Retrying in 2s..." w in
      let '(id, w) := setTimeout RETRY_DELAY w in
      set_reconnectTimeoutRef (Some id) w
  end.

(** ** The latency monitor *)

Definition LATENCY_PERIOD : nat := 500.

(** [diff > 0.5] *)
Definition exceeds_half (diff : spec_float) : bool :=
  JsNumber.gt diff JsNumber.half.

(** The body of the [setInterval] callback. *)
Definition latency_sample (w : World) : World :=
  match videoRef w with
  | None => w
  | Some video =>
      if paused video || (readyState video <? 3)%nat then w
      else
        match last (buffered video) with
        | None => w
        | Some (_, end_) =>
            let diff := JsNumber.sub end_ (currentTime video) in
            let w := setLatency diff w in
            (* Latency Killer: If latency > 0.5s, skip to end *)
            if exceeds_half diff
            then
              let w := browser_call
                         (CConsoleLog (currentTime video) end_) w in
              set_videoRef (Some (with_currentTime end_ video)) w
            else w
        end
  end.

(** ** Statements that may throw

    A JavaScript statement list is a state transformer that completes
    normally with a value or abruptly with a thrown value. *)

Inductive Completion (A : Type) :=
| Normal (a : A)
| Throw (e : Thrown).
Arguments Normal {A} a.
Arguments Throw {A} e.

Definition Js (A : Type) : Type := World → Completion A * World.

Definition ret {A} (a : A) : Js A := λ w, (Normal a, w).
Definition throw {A} (e : Thrown) : Js A := λ w, (Throw e, w).
Definition bind {A B} (m : Js A) (k : A → Js B) : Js B :=
  λ w, match m w with
       | (Normal a, w') => k a w'
       | (Throw e, w') => (Throw e, w')
       end.
Definition exec (f : World → World) : Js unit := λ w, (Normal tt, f w).
Definition read {A} (f : World → A) : Js A := λ w, (Normal (f w), w).

(** [try { body } catch (err) { handler }] *)
Definition try_catch {A} (body : Js A) (handler : Thrown → Js A) : Js A :=
  λ w, match body w with
       | (Normal a, w') => (Normal a, w')
       | (Throw e, w') => handler e w'
       end.

Notation "x <~ m ;; k" := (bind m (λ x, k))
  (at level 100, m at next level, right associativity).
Notation "m ;;; k" := (bind m (λ _, k))
  (at level 100, right associativity).

(** What the browser does where the code cannot know: whether the
    constructor or an [addTransceiver] call throws. *)
Record Faults := {
  new_fault : option Thrown;
  video_fault : option Thrown;
  audio_fault : option Thrown
}.

Definition no_faults : Faults :=
  {| new_fault := None; video_fault := None; audio_fault := None |}.

(** [new RTCPeerConnection({ iceServers: ... })] *)
Definition new_RTCPeerConnection (fault : option Thrown) : Js nat :=
  λ w, match fault with
       | Some e => (Throw e, w)
       | None =>
           let pc := length (pcs w) in
           (Normal pc,
            browser_call (CNewPeerConnection pc) (set_pcs (pcs w ++ [fresh_pc]) w))
       end.

(** [pc.addTransceiver(kind, { direction })] *)
Definition addTransceiver (pc : nat) (kind direction : string)
    (fault : option Thrown) : Js unit :=
  λ w, match fault with
       | Some e => (Throw e, w)
       | None =>
           (Normal tt,
            browser_call (CAddTransceiver pc kind direction)
              (set_pc pc (with_transceiver kind direction) w))
       end.

(** ** [setupWebRTC] *)

(** How a run of the async function leaves a segment: it returns, or it
    waits at an [await]. *)
Inductive Next :=
| Return
| Suspend (t : Task).

(** The [catch (err)] block. *)
Definition catch_block (err : Thrown) : Js Next :=
  exec (browser_call (CConsoleError err));;;
  exec (setError (Some (err_text err)));;;
  exec (setStatus "Error");;;
  exec triggerReconnect;;;
  ret Return.

(** [updateConnectionStatus], the handler of both state-change events of
    connection [pc]. *)
Definition updateConnectionStatus (pc : nat) (w : World) : World :=
  let iceState := default "new" (iceConnectionState <$> pcs w !! pc) in
  let connState := default "new" (connectionState <$> pcs w !! pc) in
  let w := setStatus ("ICE: " +:+ iceState +:+ " / CONN: " +:+ connState) w in
  if decide (iceState = "failed" ∨ connState = "failed")
  then triggerReconnect w
  else w.

(** [pc.ontrack] *)
Definition ontrack (streams : list nat) (w : World) : World :=
  match videoRef w with
  | Some video => set_videoRef (Some (with_srcObject (head streams) video)) w
  | None => w
  end.

(** The signaling endpoint: [config.url] without one trailing slash. *)
Definition endpoint_of (url : string) : string :=
  if JsString.endsWith url "/" then JsString.slice_0_minus1 url else url.

Definition request_url (endpoint : string) (stream : option string) : string :=
  endpoint +:+ "/api/webrtc?src=" +:+ JsString.interpolate stream.

(** From the call of [setupWebRTC] to its first [await]. *)
Definition setupWebRTC (f : Faults) (url stream : option string) : Js Next :=
  if negb (JsString.truthy url) || negb (JsString.truthy stream)
  then
    exec (setStatus "Waiting for config");;;
    ret Return
  else
    exec (setStatus "Connecting...");;;
    exec (setError None);;;
    (* Clean up previous connection if any *)
    exec (λ w, match pcRef w with
               | Some old => set_pcRef None (pc_close old w)
               | None => w
               end);;;
    try_catch
      (pc <~ new_RTCPeerConnection (new_fault f);;
       exec (set_pcRef (Some pc));;;
       (* Add transceivers for audio and video to receive *)
       addTransceiver pc "video" "recvonly" (video_fault f);;;
       addTransceiver pc "audio" "recvonly" (audio_fault f);;;
       exec (browser_call (CCreateOffer pc));;;
       ret (Suspend {| t_pc := pc; t_url := url; t_stream := stream;
                       t_await := AwaitCreateOffer |}))
      catch_block.

(** The statements of the [try] block from one [await] to the next, once
    the awaited promise has settled with [r]; [None] when [r] is not a
    result of the call the run waits for. *)
Definition segment (t : Task) (r : Settled) : option (Js Next) :=
  let pc := t_pc t in
  match r, t_await t with
  | Rejected e, _ => Some (throw e)
  | OfferCreated offer, AwaitCreateOffer =>
      Some (exec (browser_call (CSetLocalDescription pc offer));;;
            ret (Suspend (with_await (AwaitSetLocalDescription offer) t)))
  | LocalDescriptionSet, AwaitSetLocalDescription _ =>
      Some (endpoint <~ match t_url t with
                        | Some url => ret (endpoint_of url)
                        | None => throw (ErrorObj "TypeError")
                        end;;
            body <~ read (λ w, pcs w !! pc ≫= localDescription);;
            exec (browser_call
                    (CFetch (request_url endpoint (t_stream t)) "POST" body));;;
            ret (Suspend (with_await AwaitFetch t)))
  | Fetched response, AwaitFetch =>
      Some (if negb (ok response)
            then throw (ErrorObj ("Failed to connect to go2rtc: "
                                  +:+ statusText response))
            else
              exec (browser_call CText);;;
              ret (Suspend (with_await AwaitText t)))
  | TextRead answerSdp, AwaitText =>
      Some (exec (browser_call (CSetRemoteDescription pc "answer" answerSdp));;;
            ret (Suspend (with_await (AwaitSetRemoteDescription answerSdp) t)))
  | RemoteDescriptionSet, AwaitSetRemoteDescription _ =>
      Some (exec (setStatus "Connected");;;
            ret Return)
  | _, _ => None
  end.

(** The same inside its [try]/[catch]. *)
Definition setupWebRTC_resume (t : Task) (r : Settled) : option (Js Next) :=
  (λ body, try_catch body catch_block) <$> segment t r.

(** What the browser itself changes when a promise fulfils: the committed
    descriptions of the connection. *)
Definition browser_commit (t : Task) (r : Settled) (w : World) : World :=
  match r, t_await t with
  | LocalDescriptionSet, AwaitSetLocalDescription offer =>
      set_pc (t_pc t) (with_localDescription offer) w
  | RemoteDescriptionSet, AwaitSetRemoteDescription answer =>
      set_pc (t_pc t) (with_remoteDescription answer) w
  | _, _ => w
  end.

(** The call [setupWebRTC()] of the effect: nothing awaits or catches the
    promise it returns. *)
Definition spawn (m : Js Next) (w : World) : World :=
  match m w with
  | (Normal Return, w') => w'
  | (Normal (Suspend t), w') => set_tasks (tasks w' ++ [Some t]) w'
  | (Throw e, w') => set_unhandled (e :: unhandled w') w'
  end.

(** The continuation of run [tid]. *)
Definition continue (tid : nat) (m : Js Next) (w : World) : World :=
  match m w with
  | (Normal Return, w') => set_tasks (<[tid := None]> (tasks w')) w'
  | (Normal (Suspend t), w') => set_tasks (<[tid := Some t]> (tasks w')) w'
  | (Throw e, w') =>
      set_unhandled (e :: unhandled w') (set_tasks (<[tid := None]> (tasks w')) w')
  end.

(** ** The WebRTC effect and its cleanup *)

Definition cleanup (w : World) : World :=
  let w := match reconnectTimeoutRef w with
           | Some id => set_reconnectTimeoutRef None (clearTimeout id w)
           | None => w
           end in
  match pcRef w with
  | Some pc => set_pcRef None (pc_close pc w)
  | None => w
  end.

Definition effect (f : Faults) (w : World) : World :=
  spawn (setupWebRTC f (cfg_url (config w)) (cfg_stream (config w))) w.

(** The dependency array [[config.url, config.stream, reconnectCount]]. *)
Definition deps (w : World) : option string * option string * nat :=
  (cfg_url (config w), cfg_stream (config w), reconnectCount w).

(** The render after a state update: when a dependency changed, React runs
    the cleanup of the previous effect and then the effect. *)
Definition rerender (f : Faults) (old : option string * option string * nat)
    (w : World) : World :=
  if mounted w
  then if decide (deps w = old) then w else effect f (cleanup w)
  else w.

(** ** Mounting *)

Definition blank_video : Video :=
  {| paused := true; readyState := 0; buffered := [];
     currentTime := JsNumber.zero;
     srcObject := None |}.

(** The first render: the initial values of the cells, the [<video>]
    element in [videoRef]. *)
Definition first_render (initialState : option (gmap string string)) : World :=
  {| config := initial_config initialState;
     error := None;
     status := "Disconnected";
     reconnectCount := 0;
     latency := JsNumber.zero;
     videoRef := Some blank_video;
     pcRef := None;
     reconnectTimeoutRef := None;
     reconnectCountRef := 0;
     mounted := true;
     now := 0;
     pcs := [];
     timers := ∅;
     timer_seq := 1;
     interval := None;
     tasks := [];
     calls := [];
     unhandled := [] |}.

(** The latency effect: [setInterval(..., 500)] when the video exists. *)
Definition latency_effect (w : World) : World :=
  match videoRef w with
  | Some _ => set_interval (Some (now w + LATENCY_PERIOD)) w
  | None => w
  end.

(** The panel after its first render and its effects. *)
Definition mount (initialState : option (gmap string string)) (f : Faults)
  : World :=
  effect f (latency_effect (first_render initialState)).

(** ** Events

    Everything runs on one event loop; an event is one callback run to
    completion, together with the render that follows it. *)

Inductive Event :=
| SettingsUpdate (path : list string) (value : string) (f : Faults)
| ClickReconnect (f : Faults)
| Unmount
| TimerFires (id : nat) (f : Faults)
| Elapse (ms : nat)
| Track (pc : nat) (streams : list nat)
| IceConnectionStateChange (pc : nat) (state : string)
| ConnectionStateChange (pc : nat) (state : string)
| Settle (task : nat) (r : Settled)
| Playback (v : Video)
| LatencyTick.

(** [step e w] is [None] when [e] cannot happen in [w]: a timer that is not
    pending or not yet due, an event of an object that does not exist, a
    user action on a panel that is gone. *)
Definition step (e : Event) (w : World) : option World :=
  match e with
  | SettingsUpdate path value f =>
      if mounted w
      then Some (rerender f (deps w) (setConfig (settings_update path value) w))
      else None
  | ClickReconnect f =>
      if mounted w
      then Some (rerender f (deps w) (setReconnectCount (λ c, c + 1) w))
      else None
  | Unmount =>
      if mounted w
      then Some (set_mounted false
                   (set_videoRef None (cleanup (set_interval None w))))
      else None
  | TimerFires id f =>
      match timers w !! id with
      | Some due =>
          if (due <=? now w)%nat
          then Some (rerender f (deps w)
                       (retry_callback (set_timers (delete id (timers w)) w)))
          else None
      | None => None
      end
  | Elapse ms => Some (set_now (now w + ms) w)
  | Track pc streams =>
      match pcs w !! pc with
      | Some _ => Some (ontrack streams w)
      | None => None
      end
  | IceConnectionStateChange pc st =>
      match pcs w !! pc with
      | Some _ =>
          Some (updateConnectionStatus pc
                  (set_pc pc (with_iceConnectionState st) w))
      | None => None
      end
  | ConnectionStateChange pc st =>
      match pcs w !! pc with
      | Some _ =>
          Some (updateConnectionStatus pc
                  (set_pc pc (with_connectionState st) w))
      | None => None
      end
  | Settle tid r =>
      match tasks w !! tid with
      | Some (Some t) =>
          match setupWebRTC_resume t r with
          | Some m => Some (continue tid m (browser_commit t r w))
          | None => None
          end
      | _ => None
      end
  | Playback v =>
      match videoRef w with
      | Some video =>
          Some (set_videoRef (Some (with_srcObject (srcObject video) v)) w)
      | None => None
      end
  | LatencyTick =>
      match interval w with
      | Some due =>
          if (due <=? now w)%nat
          then Some (latency_sample
                       (set_interval (Some (now w + LATENCY_PERIOD)) w))
          else None
      | None => None
      end
  end.

Fixpoint run (evs : list Event) (w : World) : option World :=
  match evs with
  | [] => Some w
  | e :: evs => step e w ≫= run evs
  end.

(** The worlds the panel can be in. *)
Definition reachable (w : World) : Prop :=
  ∃ initialState f evs, run evs (mount initialState f) = Some w.

(** ** Observations and invariants *)

(** The stream the render sink shows. *)
Definition attached (w : World) : option nat := videoRef w ≫= srcObject.

(** The drift the monitor measures: the end of the last buffered range
    minus the playback position. *)
Definition drift (v : Video) : option spec_float :=
  (λ r, JsNumber.sub r.2 (currentTime v)) <$> last (buffered v).

Definition is_setTimeout (c : Call) : bool :=
  match c with CSetTimeout _ _ => true | _ => false end.

Definition is_fetch (c : Call) : bool :=
  match c with CFetch _ _ _ => true | _ => false end.

(** How many retry timers the panel has armed so far. *)
Definition armings (w : World) : nat := length (filter is_setTimeout (calls w)).

(** How many signaling requests the panel has issued so far. *)
Definition requests (w : World) : nat := length (filter is_fetch (calls w)).

(** Every pending timer is the one [reconnectTimeoutRef] holds. *)
Definition timer_inv (w : World) : Prop :=
  ∀ id due, timers w !! id = Some due → reconnectTimeoutRef w = Some id.

(** What no callback of the panel undoes: nothing is left uncaught, time
    and timer ids only grow, a pending timer keeps its due time, a new one
    is due no sooner than the retry delay, [timer_inv] is kept, and a closed
    connection stays closed. *)
Record evolves (w w' : World) : Prop := {
  ev_unhandled : unhandled w' = unhandled w;
  ev_now : (now w ≤ now w')%nat;
  ev_seq : (timer_seq w ≤ timer_seq w')%nat;
  ev_timers : ∀ id due, timers w' !! id = Some due →
      timers w !! id = Some due
      ∨ ((timer_seq w ≤ id < timer_seq w')%nat
         ∧ (now w + RETRY_DELAY ≤ due)%nat);
  ev_inv : timer_inv w → timer_inv w';
  ev_pcs : ∀ pc p, pcs w !! pc = Some p →
      ∃ p', pcs w' !! pc = Some p' ∧ (closed p = true → closed p' = true)
}.

Definition Js_evolves {A} (m : Js A) : Prop :=
  ∀ w c w', m w = (c, w') → evolves w w'.

Definition never_throws {A} (m : Js A) : Prop :=
  ∀ w, ∃ a w', m w = (Normal a, w').

(** The events of a negotiation in which every step succeeds: the promises
    of run [tid] fulfil in order, and the track events of connection [pc]
    arrive while the answer is applied. *)
Definition negotiation (tid pc : nat) (offer answer : string) (r : Response)
    (tracks : list (list nat)) : list Event :=
  [Settle tid (OfferCreated offer);
   Settle tid LocalDescriptionSet;
   Settle tid (Fetched r);
   Settle tid (TextRead answer)]
  ++ (Track pc <$> tracks)
  ++ [Settle tid RemoteDescriptionSet].

(** Run [tid] is stale: the connection it negotiates for was closed and is
    no longer the one the panel holds. *)
Definition stale (tid : nat) (w : World) : Prop :=
  ∃ t p, tasks w !! tid = Some (Some t)
         ∧ pcs w !! t_pc t = Some p ∧ closed p = true
         ∧ pcRef w ≠ Some (t_pc t).

(** What the scheduler and the display show of a world. *)
Definition visible (w : World)
  : string * option string * option nat * gmap nat nat :=
  (status w, error w, reconnectTimeoutRef w, timers w).

(** A latency sample that does nothing. *)
Definition skipped (w : World) : Prop := latency_sample w = w.

(** The panel right after a first effect that started a connection attempt
    with the default configuration. *)
Definition first_attempt_started (w : World) : Prop :=
  status w = "Connecting..."
  ∧ pcRef w = Some 0
  ∧ pcs w !! 0 = Some (with_transceiver "audio" "recvonly"
                         (with_transceiver "video" "recvonly" fresh_pc))
  ∧ tasks w = [Some {| t_pc := 0; t_url := Some "http://localhost:1984";
                       t_stream := Some "cam1"; t_await := AwaitCreateOffer |}]
  ∧ rev (calls w)
    = [CNewPeerConnection 0; CAddTransceiver 0 "video" "recvonly";
       CAddTransceiver 0 "audio" "recvonly"; CCreateOffer 0].

(** The values of [readyState]: data for the current position and a
    little beyond it, and enough data to play through. *)
Definition HAVE_FUTURE_DATA : nat := 3.
Definition HAVE_ENOUGH_DATA : nat := 4.

(** The sampling rule as C7 words it, with two skip conditions: playback is
    paused, or the readiness level is below "enough data to play through";
    any other sample measures the drift. *)
Definition two_skip_rule (w : World) : Prop :=
  ∀ v, videoRef w = Some v →
    if paused v || (readyState v <? HAVE_ENOUGH_DATA)
    then skipped w
    else ∃ r, last (buffered v) = Some r
              ∧ latency (latency_sample w) = JsNumber.sub r.2 (currentTime v).

(** A mounted panel whose video plays with data to play through, while its
    [buffered] ranges are empty; the last sample measured 2 seconds. *)
Definition playing_nothing_buffered : World :=
  set_latency (JsNumber.of_Z 2)
    (set_videoRef
       (Some {| paused := false; readyState := HAVE_ENOUGH_DATA;
                buffered := []; currentTime := JsNumber.of_Z 10;
                srcObject := Some 1 |})
       (first_render None)).

(** A mounted panel whose video plays at position 1 with data up to 3 and
    readiness "future data", below "enough data to play through". *)
Definition playing_with_future_data : World :=
  set_videoRef
    (Some {| paused := false; readyState := HAVE_FUTURE_DATA;
             buffered := [(JsNumber.zero, JsNumber.of_Z 3)];
             currentTime := JsNumber.of_Z 1; srcObject := Some 1 |})
    (first_render None).

(** The doubles of the literals [0.8] and [0.3]. *)
Definition n0_8 : spec_float :=
  JsNumber.div (JsNumber.of_Z 8) (JsNumber.of_Z 10).
Definition n0_3 : spec_float :=
  JsNumber.div (JsNumber.of_Z 3) (JsNumber.of_Z 10).

(** The monitor of a mounted panel: the interval is set and due within
    the period, and the video element exists; after the unmount the
    interval is cleared. *)
Definition monitor_inv (w : World) : Prop :=
  if mounted w
  then (∃ due, interval w = Some due ∧ due ≤ now w + LATENCY_PERIOD)
       ∧ is_Some (videoRef w)
  else interval w = None.

(** What the WebRTC effect, its cleanup, its runs and the reconnect
    scheduler never touch: the configuration, the clock and the latency
    monitor. *)
Record apart (w w' : World) : Prop := {
  ap_config : config w' = config w;
  ap_mounted : mounted w' = mounted w;
  ap_now : now w' = now w;
  ap_interval : interval w' = interval w;
  ap_videoRef : videoRef w' = videoRef w;
  ap_latency : latency w' = latency w
}.

Definition Js_apart {A} (m : Js A) : Prop :=
  ∀ w c w', m w = (c, w') → apart w w'.

(** The world the [catch] block leaves. *)
Definition caught (err : Thrown) (w : World) : World :=
  triggerReconnect
    (setStatus "Error"
       (setError (Some (err_text err)) (browser_call (CConsoleError err) w))).

(** The first thing that throws before the first [await], if any does. *)
Definition first_fault (f : Faults) : option Thrown :=
  match new_fault f with
  | Some e => Some e
  | None =>
      match video_fault f with
      | Some e => Some e
      | None => audio_fault f
      end
  end.

(** Run [tid] has returned. *)
Definition finish (tid : nat) (w : World) : World :=
  set_tasks (<[tid := None]> (tasks w)) w.

(** Run [tid] waits again, now as [t]. *)
Definition suspend (tid : nat) (t : Task) (w : World) : World :=
  set_tasks (<[tid := Some t]> (tasks w)) w.

(** The message of the error thrown for a response that is not [ok]. *)
Definition signaling_error (r : Response) : Thrown :=
  ErrorObj ("Failed to connect to go2rtc: " +:+ statusText r).

(** The world after the statements of [setupWebRTC] that precede its [try]
    block, for a complete configuration. *)
Definition entered (w : World) : World :=
  let w := setError None (setStatus "Connecting..." w) in
  match pcRef w with
  | Some old => set_pcRef None (pc_close old w)
  | None => w
  end.

(** The connection as [setupWebRTC] has set it up when it asks for the
    offer. *)
Definition receiving_pc : PeerConnection :=
  with_transceiver "audio" "recvonly"
    (with_transceiver "video" "recvonly" fresh_pc).

(** The track events [tracks], handled in order. *)
Definition deliver (tracks : list (list nat)) (w : World) : World :=
  foldl (λ w streams, ontrack streams w) w tracks.

(** The world a successful negotiation of run [tid] leaves, from the world
    [w] in which the run waits for its offer. *)
Definition negotiated (tid : nat) (t : Task) (offer answer url : string)
    (tracks : list (list nat)) (w : World) : World :=
  let pc := t_pc t in
  let w := suspend tid (with_await (AwaitSetLocalDescription offer) t)
             (browser_call (CSetLocalDescription pc offer) w) in
  let w := suspend tid (with_await AwaitFetch t)
             (browser_call
                (CFetch (request_url (endpoint_of url) (t_stream t)) "POST"
                        (Some offer))
                (set_pc pc (with_localDescription offer) w)) in
  let w := suspend tid (with_await AwaitText t) (browser_call CText w) in
  let w := suspend tid (with_await (AwaitSetRemoteDescription answer) t)
             (browser_call (CSetRemoteDescription pc "answer" answer) w) in
  let w := deliver tracks w in
  finish tid
    (setStatus "Connected" (set_pc pc (with_remoteDescription answer) w)).

Definition ok_response : Response := {| ok := true; statusText := "OK" |}.

(** The outcome C1 states for a negotiation whose track events were
    [tracks]: the status is ["Connected"] and the sink shows one stream, the
    first stream of the first track event. *)
Definition first_track_shown (tracks : list (list nat)) (w : World) : Prop :=
  status w = "Connected"
  ∧ is_Some (attached w)
  ∧ attached w = head tracks ≫= head.

(** The guard C6 asks for: when a run is stale, the result it still
    receives changes nothing of what the display and the scheduler show. *)
Definition stale_results_ignored : Prop :=
  ∀ w tid r w', reachable w → stale tid w →
    step (Settle tid r) w = Some w' → visible w' = visible w.

(** The stream is changed from [cam1] to [cam2] while the first attempt
    waits for the signaling response; the response and its text arrive
    afterwards. *)
Definition late_answer : list Event :=
  [Settle 0 (OfferCreated "offer");
   Settle 0 LocalDescriptionSet;
   SettingsUpdate ["general"; "stream"] "cam2" no_faults;
   Settle 0 (Fetched ok_response);
   Settle 0 (TextRead "answer")].

(** ** The settings editor and the rendered overlay *)

(** One field of the settings tree: [{ input, value, label }]. *)
Record SettingsField := {
  f_input : string;
  f_value : option string;
  f_label : string
}.

(** A node of the settings tree: [{ label, fields }]. *)
Record SettingsNode := {
  n_label : string;
  n_fields : gmap string SettingsField
}.

(** The [settingsTree] memo. *)
Definition settingsTree (c : gmap string string) : gmap string SettingsNode :=
  {[ "general" :=
       {| n_label := "go2rtc Settings";
          n_fields :=
            <["url" := {| f_input := "string"; f_value := cfg_url c;
                          f_label := "go2rtc URL" |}]>
              (<["stream" := {| f_input := "string"; f_value := cfg_stream c;
                                f_label := "Stream Name" |}]> ∅) |} ]}.

(** The value the editor shows at [node]/[field]. *)
Definition shown_value (tree : gmap string SettingsNode) (node field : string)
  : option string :=
  tree !! node ≫= λ n, n_fields n !! field ≫= f_value.

(** What the returned JSX shows over the video: the status text, the delay
    label (the number that is formatted, and its colour), the error line,
    and the hint to configure the panel. *)
Record Overlay := {
  o_status : string;
  o_delay : spec_float;
  o_delay_color : string;
  o_error : option string;
  o_configure_hint : bool
}.

Definition render (w : World) : Overlay :=
  {| o_status := status w;
     o_delay := latency w;
     o_delay_color := if exceeds_half (latency w) then "#ffaa00" else "#aaffaa";
     o_error := if JsString.truthy (error w)
                then Some ("Error: " +:+ JsString.interpolate (error w))
                else None;
     o_configure_hint := negb (JsString.truthy (cfg_url (config w))) |}.

(** ** More invariants *)

(** Every connection that is not closed is the one [pcRef] holds. *)
Definition pc_inv (w : World) : Prop :=
  ∀ pc p, pcs w !! pc = Some p → closed p = false → pcRef w = Some pc.

Definition all_closed (w : World) : Prop :=
  ∀ pc p, pcs w !! pc = Some p → closed p = true.

(** The connections of [w] that are open. *)
Definition open_pcs (w : World) : list PeerConnection :=
  filter (λ p, closed p = false) (pcs w).

(** A run keeps the variables of its closure: it is still the run of [t],
    at some [await], or it has returned. *)
Definition same_run (t : Task) (slot : option (option Task)) : Prop :=
  slot = Some None ∨ ∃ a, slot = Some (Some (with_await a t)).

Definition runs_kept (w w' : World) : Prop :=
  ∀ tid, match tasks w !! tid with
         | Some (Some t) => same_run t (tasks w' !! tid)
         | Some None => tasks w' !! tid = Some None
         | None => True
         end.

(** [n] attempts in a row whose offer cannot be created: the failure, the
    two seconds of the retry delay, the timer. *)
Fixpoint failing_attempts (n tid id : nat) (e : Thrown) : list Event :=
  match n with
  | 0 => []
  | S n =>
      [Settle tid (Rejected e); Elapse RETRY_DELAY; TimerFires id no_faults]
      ++ failing_attempts n (S tid) (S id) e
  end.

(** ** The previous version of the panel

    The panel before the reconnect scheduler, the Reconnect button and the
    latency monitor were added.  The statements of its [try] block are those
    of [setupWebRTC] (see [segment]); its [catch] block, its cleanup, the
    dependencies of its effect and the state handlers it installs on a
    connection differ.  As in the current version, every connection gets
    the same handlers when it is created, so that which handler an event
    runs is fixed by the version: see [Legacy.step]. *)

Module Legacy.

Definition catch_block (err : Thrown) : Js Next :=
  exec (browser_call (CConsoleError err));;;
  exec (setError (Some (err_text err)));;;
  exec (setStatus "Error");;;
  ret Return.

(** The world the [catch] block leaves. *)
Definition caught (err : Thrown) (w : World) : World :=
  setStatus "Error"
    (setError (Some (err_text err)) (browser_call (CConsoleError err) w)).

Definition setupWebRTC (f : Faults) (url stream : option string) : Js Next :=
  if negb (JsString.truthy url) || negb (JsString.truthy stream)
  then
    exec (setStatus "Waiting for config");;;
    ret Return
  else
    exec (setStatus "Connecting...");;;
    exec (setError None);;;
    exec (λ w, match pcRef w with
               | Some old => set_pcRef None (pc_close old w)
               | None => w
               end);;;
    try_catch
      (pc <~ new_RTCPeerConnection (new_fault f);;
       exec (set_pcRef (Some pc));;;
       addTransceiver pc "video" "recvonly" (video_fault f);;;
       addTransceiver pc "audio" "recvonly" (audio_fault f);;;
       exec (browser_call (CCreateOffer pc));;;
       ret (Suspend {| t_pc := pc; t_url := url; t_stream := stream;
                       t_await := AwaitCreateOffer |}))
      catch_block.

Definition setupWebRTC_resume (t : Task) (r : Settled) : option (Js Next) :=
  (λ body, try_catch body catch_block) <$> segment t r.

Definition cleanup (w : World) : World :=
  match pcRef w with
  | Some pc => set_pcRef None (pc_close pc w)
  | None => w
  end.

Definition effect (f : Faults) (w : World) : World :=
  spawn (setupWebRTC f (cfg_url (config w)) (cfg_stream (config w))) w.

(** The dependency array [[config.url, config.stream]]. *)
Definition deps (w : World) : option string * option string :=
  (cfg_url (config w), cfg_stream (config w)).

Definition rerender (f : Faults) (old : option string * option string)
    (w : World) : World :=
  if mounted w
  then if decide (deps w = old) then w else effect f (cleanup w)
  else w.

(** [pc.oniceconnectionstatechange], the only state handler the previous
    version installs. *)
Definition oniceconnectionstatechange (pc : nat) (w : World) : World :=
  setStatus ("ICE: " +:+ default "new" (iceConnectionState <$> pcs w !! pc)) w.

(** The panel after its first render and its effect. *)
Definition mount (initialState : option (gmap string string)) (f : Faults)
  : World :=
  effect f (first_render initialState).

(** The events of the previous version: it has no Reconnect button, arms
    no timer and samples nothing, and nothing listens to the connection
    state of a connection. *)
Definition step (e : Event) (w : World) : option World :=
  match e with
  | SettingsUpdate path value f =>
      if mounted w
      then Some (rerender f (deps w) (setConfig (settings_update path value) w))
      else None
  | Unmount =>
      if mounted w
      then Some (set_mounted false (set_videoRef None (cleanup w)))
      else None
  | Elapse ms => Some (set_now (now w + ms) w)
  | Track pc streams =>
      match pcs w !! pc with
      | Some _ => Some (ontrack streams w)
      | None => None
      end
  | IceConnectionStateChange pc st =>
      match pcs w !! pc with
      | Some _ =>
          Some (oniceconnectionstatechange pc
                  (set_pc pc (with_iceConnectionState st) w))
      | None => None
      end
  | ConnectionStateChange pc st =>
      match pcs w !! pc with
      | Some _ => Some (set_pc pc (with_connectionState st) w)
      | None => None
      end
  | Settle tid r =>
      match tasks w !! tid with
      | Some (Some t) =>
          match setupWebRTC_resume t r with
          | Some m => Some (continue tid m (browser_commit t r w))
          | None => None
          end
      | _ => None
      end
  | Playback v =>
      match videoRef w with
      | Some video =>
          Some (set_videoRef (Some (with_srcObject (srcObject video) v)) w)
      | None => None
      end
  | ClickReconnect _ | TimerFires _ _ | LatencyTick => None
  end.

Fixpoint run (evs : list Event) (w : World) : option World :=
  match evs with
  | [] => Some w
  | e :: evs => step e w ≫= run evs
  end.

End Legacy.

(** No timer was armed or cancelled between two worlds. *)
Definition no_timer_change (w w' : World) : Prop :=
  timers w' = timers w
  ∧ reconnectTimeoutRef w' = reconnectTimeoutRef w
  ∧ filter is_setTimeout (calls w') = filter is_setTimeout (calls w).

(** The try block of the attempt threw before its first [await]. *)
Definition threw_at_once (f : Faults) (url stream : option string) : bool :=
  JsString.truthy url && JsString.truthy stream
  && bool_decide (is_Some (first_fault f)).

Definition threw {A} (c : Completion A) : bool :=
  match c with
  | Throw _ => true
  | Normal _ => false
  end.

(** ** Claims as they are worded *)

(** The configuration lacks a url or a stream. *)
Definition incomplete (c : gmap string string) : Prop :=
  JsString.truthy (cfg_url c) = false ∨ JsString.truthy (cfg_stream c) = false.

Definition is_settings_update (e : Event) : bool :=
  match e with SettingsUpdate _ _ _ => true | _ => false end.

(** C2 as it is worded: whenever the url or the stream is the empty
    string, the status is the waiting one. *)
Definition waits_while_unconfigured : Prop :=
  ∀ w, reachable w →
    cfg_url (config w) = Some "" ∨ cfg_stream (config w) = Some "" →
    status w = "Waiting for config".

(** The url is cleared while the first attempt waits for the signaling
    response; the request fails afterwards. *)
Definition late_failure : list Event :=
  [Settle 0 (OfferCreated "offer");
   Settle 0 LocalDescriptionSet;
   SettingsUpdate ["general"; "url"] "" no_faults;
   Settle 0 (Rejected (ErrorObj "Failed to fetch"))].

(** C5 as it is worded: every failure that arms the retry timer is
    followed, when the timer fires two seconds later, by one more counted
    attempt that is connecting. *)
Definition retry_always_reconnects : Prop :=
  ∀ w tid e w1 w2 w3, reachable w → reconnectTimeoutRef w = None →
    step (Settle tid (Rejected e)) w = Some w1 →
    step (Elapse RETRY_DELAY) w1 = Some w2 →
    step (TimerFires (timer_seq w) no_faults) w2 = Some w3 →
    reconnectTimeoutRef w3 = None
    ∧ reconnectCount w3 = reconnectCount w + 1
    ∧ status w3 = "Connecting...".

(** The first attempt waits for the signaling response when the url is
    cleared. *)
Definition fetch_in_flight_url_cleared : list Event :=
  [Settle 0 (OfferCreated "offer");
   Settle 0 LocalDescriptionSet;
   SettingsUpdate ["general"; "url"] "" no_faults].

(** The first attempt waits for the signaling response when the panel is
    unmounted. *)
Definition fetch_in_flight_unmounted : list Event :=
  [Settle 0 (OfferCreated "offer");
   Settle 0 LocalDescriptionSet;
   Unmount].

(** * Properties *)

(** ** Strings *)

Section string_facts.

Lemma substring_0_length (a b : string) :
  String.substring 0 (String.length a) (a +:+ b) = a.
Proof. induction a as [|c a IH]; simpl; [by destruct b | by rewrite IH]. Qed.

Lemma substring_skip (a b : string) (n : nat) :
  String.substring (String.length a) n (a +:+ b) = String.substring 0 n b.
Proof. induction a as [|c a IH]; simpl; [done | apply IH]. Qed.

Lemma length_app (a b : string) :
  String.length (a +:+ b) = String.length a + String.length b.
Proof. induction a as [|c a IH]; simpl; [done | by rewrite IH]. Qed.

Lemma string_snoc (s : string) :
  s ≠ "" → ∃ s' c, s = s' +:+ String c "".
Proof.
  induction s as [|c s IH]; [done | intros _].
  destruct s as [|c' s].
  - by exists "", c.
  - destruct IH as (s' & d & ->); [done |]. by exists (String c s'), d.
Qed.

Lemma endsWith_snoc (s' : string) (c suffix : Ascii.ascii) :
  JsString.endsWith (s' +:+ String c "") (String suffix "")
  = Ascii.eqb c suffix.
Proof.
  unfold JsString.endsWith. rewrite length_app. simpl String.length.
  replace (String.length s' + 1 - 1) with (String.length s') by lia.
  rewrite substring_skip.
  replace (1 <=? String.length s' + 1) with true
    by (symmetry; apply Nat.leb_le; lia).
  simpl. by destruct (Ascii.eqb c suffix).
Qed.

Lemma endsWith_slash_iff (s : string) :
  JsString.endsWith s "/" = true ↔ ∃ s', s = s' +:+ "/".
Proof.
  split.
  - intros H. destruct (decide (s = "")) as [->|Hs]; [done |].
    destruct (string_snoc s Hs) as (s' & c & ->).
    rewrite endsWith_snoc in H. apply Ascii.eqb_eq in H as ->. by exists s'.
  - intros [s' ->]. rewrite endsWith_snoc. apply Ascii.eqb_refl.
Qed.

Lemma slice_snoc (s' : string) (c : Ascii.ascii) :
  JsString.slice_0_minus1 (s' +:+ String c "") = s'.
Proof.
  unfold JsString.slice_0_minus1. rewrite length_app. simpl.
  replace (String.length s' + 1 - 1) with (String.length s') by lia.
  apply substring_0_length.
Qed.

(** One trailing slash is removed, and only one. *)
Lemma endpoint_of_slash (base : string) : endpoint_of (base +:+ "/") = base.
Proof.
  unfold endpoint_of. rewrite endsWith_snoc. simpl. apply slice_snoc.
Qed.

Lemma endpoint_of_other (url : string) :
  (∀ base, url ≠ base +:+ "/") → endpoint_of url = url.
Proof.
  intros H. unfold endpoint_of.
  destruct (JsString.endsWith url "/") eqn:E; [| done].
  apply endsWith_slash_iff in E as [base ->]. by destruct (H base).
Qed.

End string_facts.

(** ** Configuration *)

Lemma initial_config_lookup (persisted : gmap string string) (k : string) :
  initial_config (Some persisted) !! k
  = match persisted !! k with
    | Some v => Some v
    | None => DEFAULT_CONFIG !! k
    end.
Proof.
  unfold initial_config, spread. simpl. rewrite lookup_union.
  destruct (persisted !! k), (DEFAULT_CONFIG !! k); done.
Qed.

Lemma initial_config_empty : initial_config (Some ∅) = DEFAULT_CONFIG.
Proof. unfold initial_config, spread. simpl. apply (left_id_L ∅ (∪)). Qed.

Lemma mount_default_attempts (f : Faults) :
  status (mount None f) ≠ "Waiting for config"
  ∧ (new_fault f = None → pcRef (mount None f) = Some 0
                          ∧ CNewPeerConnection 0 ∈ calls (mount None f)).
Proof.
  destruct f as [[e1|] [e2|] [e3|]]; vm_compute; split; try done;
    intros _; split; try done; set_solver.
Qed.

(** ** The latency monitor *)

Lemma number_sub_diag (e : spec_float) :
  JsNumber.is_finite e = true → JsNumber.sub e e = JsNumber.zero.
Proof.
  destruct e as [[]| | |s m e]; try done. intros _.
  unfold JsNumber.sub, SFsub. rewrite Z.min_id. unfold shl_align.
  by rewrite !Z.sub_diag.
Qed.

Lemma gt_half_positive (d : spec_float) :
  JsNumber.gt d JsNumber.half = true → JsNumber.le JsNumber.zero d = true.
Proof. by destruct d as [s|[]| |[] m e]. Qed.

Lemma exceeds_half_zero : exceeds_half JsNumber.zero = false.
Proof. reflexivity. Qed.

Lemma latency_sample_skips (w : World) (v : Video) :
  videoRef w = Some v →
  paused v = true ∨ readyState v < 3 ∨ buffered v = [] →
  latency_sample w = w.
Proof.
  intros Hv H. unfold latency_sample. rewrite Hv.
  destruct H as [->|[H| ->]]; [done | |].
  - apply Nat.ltb_lt in H. rewrite H. by rewrite orb_true_r.
  - by destruct (paused v || (readyState v <? 3)).
Qed.

Lemma latency_sample_measures (w : World) (v : Video) (s e : spec_float) :
  mounted w = true → videoRef w = Some v →
  paused v = false → 3 ≤ readyState v → last (buffered v) = Some (s, e) →
  latency_sample w
  = (if exceeds_half (JsNumber.sub e (currentTime v))
     then λ w, set_videoRef (Some (with_currentTime e v))
                 (browser_call (CConsoleLog (currentTime v) e) w)
     else id) (set_latency (JsNumber.sub e (currentTime v)) w).
Proof.
  intros Hm Hv Hp Hr Hl. unfold latency_sample, setLatency.
  rewrite Hv, Hp, Hl, Hm.
  replace (readyState v <? 3) with false
    by (symmetry; apply Nat.ltb_ge; lia).
  simpl. by destruct (exceeds_half (JsNumber.sub e (currentTime v))).
Qed.

Lemma latency_sample_frame (w : World) :
  interval (latency_sample w) = interval w
  ∧ now (latency_sample w) = now w
  ∧ mounted (latency_sample w) = mounted w
  ∧ config (latency_sample w) = config w
  ∧ pcs (latency_sample w) = pcs w
  ∧ tasks (latency_sample w) = tasks w
  ∧ (is_Some (videoRef w) → is_Some (videoRef (latency_sample w))).
Proof.
  unfold latency_sample, setLatency.
  destruct (videoRef w) as [v|] eqn:Hv; [| by rewrite Hv].
  destruct (paused v || (readyState v <? 3)); [by rewrite Hv |].
  destruct (last (buffered v)) as [[s e]|]; [| by rewrite Hv].
  destruct (exceeds_half _), (mounted w) eqn:Hm; simpl; rewrite ?Hv, ?Hm;
    by repeat split.
Qed.

(** The drift is the rounded difference of the two doubles.  With the
    buffer ending at 0.8 and the position at 0.3 the subtraction gives 0.5
    exactly, which does not exceed 0.5: the sample shows it and does not
    correct. *)
Lemma sample_at_rounded_half :
  let v := {| paused := false; readyState := HAVE_ENOUGH_DATA;
              buffered := [(JsNumber.zero, n0_8)]; currentTime := n0_3;
              srcObject := Some 1 |} in
  let w := set_videoRef (Some v) (first_render None) in
  JsNumber.sub n0_8 n0_3 = JsNumber.half
  ∧ latency (latency_sample w) = JsNumber.half
  ∧ videoRef (latency_sample w) = Some v.
Proof. by vm_compute. Qed.

(** ** What every callback preserves *)

Section evolution.

Lemma evolves_refl (w : World) : evolves w w.
Proof.
  split; try done; [by left | intros pc p H; by exists p].
Qed.

Lemma evolves_trans (w1 w2 w3 : World) :
  evolves w1 w2 → evolves w2 w3 → evolves w1 w3.
Proof.
  intros [U1 N1 S1 T1 I1 P1] [U2 N2 S2 T2 I2 P2]. split.
  - congruence.
  - lia.
  - lia.
  - intros id due H. destruct (T2 id due H) as [H2|[H2 H2']].
    + destruct (T1 id due H2) as [H1|[H1 H1']]; [by left |].
      right. unfold RETRY_DELAY in *. lia.
    + right. unfold RETRY_DELAY in *. lia.
  - auto.
  - intros pc p H. destruct (P1 pc p H) as (p' & H' & C').
    destruct (P2 pc p' H') as (p'' & H'' & C''). exists p''. auto.
Qed.

(** A callback that leaves the timers, the clock and the connections
    alone. *)
Lemma evolves_same (w w' : World) :
  unhandled w' = unhandled w → now w' = now w →
  timer_seq w' = timer_seq w → timers w' = timers w →
  reconnectTimeoutRef w' = reconnectTimeoutRef w → pcs w' = pcs w →
  evolves w w'.
Proof.
  intros U N S T R P. split.
  - done.
  - lia.
  - lia.
  - intros id due H. left. by rewrite <- T.
  - unfold timer_inv. by rewrite T, R.
  - intros pc p H. exists p. by rewrite P.
Qed.

Lemma evolves_set_pc (pc : nat) (f : PeerConnection → PeerConnection)
    (w : World) :
  (∀ p, closed p = true → closed (f p) = true) →
  evolves w (set_pc pc f w).
Proof.
  intros Hf. split; try done; simpl.
  - by left.
  - intros pc' p H. destruct (decide (pc = pc')) as [->|Hne].
    + exists (f p). rewrite list_lookup_alter_eq, H. auto.
    + exists p. by rewrite list_lookup_alter_ne.
Qed.

Lemma evolves_new_pc (w : World) :
  evolves w (set_pcs (pcs w ++ [fresh_pc]) w).
Proof.
  split; try done; simpl.
  - by left.
  - intros pc p H. exists p. split; [| done].
    by apply lookup_app_l_Some.
Qed.

Lemma timer_inv_idle (w : World) (id : nat) :
  timer_inv w → reconnectTimeoutRef w = None → timers w !! id = None.
Proof.
  intros I R. destruct (timers w !! id) as [due|] eqn:E; [| done].
  specialize (I id due E). congruence.
Qed.

Lemma timer_inv_only (w : World) (id id' : nat) :
  timer_inv w → reconnectTimeoutRef w = Some id → id' ≠ id →
  timers w !! id' = None.
Proof.
  intros I R Hne. destruct (timers w !! id') as [due|] eqn:E; [| done].
  specialize (I id' due E). congruence.
Qed.

Lemma evolves_setStatus (v : string) (w : World) : evolves w (setStatus v w).
Proof. unfold setStatus. destruct (mounted w); by apply evolves_same. Qed.

Lemma evolves_setError (v : option string) (w : World) :
  evolves w (setError v w).
Proof. unfold setError. destruct (mounted w); by apply evolves_same. Qed.

Lemma evolves_setReconnectCount (f : nat → nat) (w : World) :
  evolves w (setReconnectCount f w).
Proof.
  unfold setReconnectCount. destruct (mounted w); by apply evolves_same.
Qed.

Lemma evolves_setConfig (f : gmap string string → gmap string string)
    (w : World) :
  evolves w (setConfig f w).
Proof. unfold setConfig. destruct (mounted w); by apply evolves_same. Qed.

Lemma evolves_browser_call (c : Call) (w : World) :
  evolves w (browser_call c w).
Proof. by apply evolves_same. Qed.

Lemma evolves_pc_close (pc : nat) (w : World) : evolves w (pc_close pc w).
Proof.
  eapply evolves_trans; [by apply (evolves_set_pc pc with_closed) |].
  apply evolves_browser_call.
Qed.

Lemma evolves_triggerReconnect (w : World) : evolves w (triggerReconnect w).
Proof.
  unfold triggerReconnect.
  destruct (reconnectTimeoutRef w) as [id|] eqn:R; [apply evolves_refl |].
  unfold setStatus. destruct (mounted w); simpl.
  all: split; simpl; try done; try lia.
  all: try (intros id due H; destruct (decide (timer_seq w = id)) as [<-|Hne];
            [ rewrite lookup_insert_eq in H; injection H as <-; right; lia
            | rewrite lookup_insert_ne in H by done; by left ]).
  all: try (intros pc p H; by exists p).
  all: intros I id due H; simpl in *;
       destruct (decide (timer_seq w = id)) as [<-|Hne]; [done |];
       rewrite lookup_insert_ne in H by done;
       by rewrite (timer_inv_idle w id I R) in H.
Qed.

Lemma evolves_cleanup (w : World) : evolves w (cleanup w).
Proof.
  unfold cleanup. eapply evolves_trans with
    (w2 := match reconnectTimeoutRef w with
           | Some id => set_reconnectTimeoutRef None (clearTimeout id w)
           | None => w
           end).
  - destruct (reconnectTimeoutRef w) as [id|] eqn:R; [| apply evolves_refl].
    split; simpl; try done.
    + intros id' due H. left.
      destruct (decide (id = id')) as [<-|Hne].
      * by rewrite lookup_delete_eq in H.
      * by rewrite lookup_delete_ne in H.
    + intros I id' due H. simpl in *.
      destruct (decide (id = id')) as [<-|Hne].
      * by rewrite lookup_delete_eq in H.
      * rewrite lookup_delete_ne in H by done.
        by rewrite (timer_inv_only w id id' I R) in H.
    + intros pc p H. by exists p.
  - match goal with |- evolves ?w1 _ => generalize w1 end. intros w1.
    destruct (pcRef w1) as [pc|]; [| apply evolves_refl].
    eapply evolves_trans; [apply evolves_pc_close |]. by apply evolves_same.
Qed.

Lemma evolves_fire (w : World) (id due : nat) :
  timers w !! id = Some due →
  evolves w (retry_callback (set_timers (delete id (timers w)) w)).
Proof.
  intros Hid. unfold retry_callback, setReconnectCount. simpl.
  destruct (mounted w); split; simpl; try done.
  all: try (intros id' due' H; left;
            destruct (decide (id = id')) as [<-|Hne];
            [ by rewrite lookup_delete_eq in H
            | by rewrite lookup_delete_ne in H ]).
  all: try (intros pc p H; by exists p).
  all: intros I id' due' H; simpl in *;
       destruct (decide (id = id')) as [<-|Hne];
       [ by rewrite lookup_delete_eq in H
       | rewrite lookup_delete_ne in H by done;
         by rewrite (timer_inv_only w id id' I (I id due Hid)) in H ].
Qed.

Lemma evolves_elapse (ms : nat) (w : World) :
  evolves w (set_now (now w + ms) w).
Proof.
  split; simpl; try done; [lia | by left | intros pc p H; by exists p].
Qed.

End evolution.

(** ** Statement lists *)

Section statements.

Context {A B : Type}.

Lemma Js_evolves_ret (a : A) : Js_evolves (ret a).
Proof. intros w c w' [= <- <-]. apply evolves_refl. Qed.

Lemma Js_evolves_throw (e : Thrown) : Js_evolves (throw (A := A) e).
Proof. intros w c w' [= <- <-]. apply evolves_refl. Qed.

Lemma Js_evolves_read (f : World → A) : Js_evolves (read f).
Proof. intros w c w' [= <- <-]. apply evolves_refl. Qed.

Lemma Js_evolves_bind (m : Js A) (k : A → Js B) :
  Js_evolves m → (∀ a, Js_evolves (k a)) → Js_evolves (bind m k).
Proof.
  intros Hm Hk w c w' H. unfold bind in H.
  destruct (m w) as [[a|e] w1] eqn:E.
  - eapply evolves_trans; [by eapply Hm | by eapply Hk].
  - injection H as <- <-. by eapply Hm.
Qed.

Lemma Js_evolves_try_catch (body : Js A) (handler : Thrown → Js A) :
  Js_evolves body → (∀ e, Js_evolves (handler e)) →
  Js_evolves (try_catch body handler).
Proof.
  intros Hm Hk w c w' H. unfold try_catch in H.
  destruct (body w) as [[a|e] w1] eqn:E.
  - injection H as <- <-. by eapply Hm.
  - eapply evolves_trans; [by eapply Hm | by eapply Hk].
Qed.

Lemma never_throws_bind (m : Js A) (k : A → Js B) :
  never_throws m → (∀ a, never_throws (k a)) → never_throws (bind m k).
Proof.
  intros Hm Hk w. destruct (Hm w) as (a & w1 & E).
  unfold bind. rewrite E. apply Hk.
Qed.

Lemma never_throws_try_catch (body : Js A) (handler : Thrown → Js A) :
  (∀ e, never_throws (handler e)) → never_throws (try_catch body handler).
Proof.
  intros Hk w. unfold try_catch.
  destruct (body w) as [[a|e] w1]; [by exists a, w1 | apply Hk].
Qed.

End statements.

Lemma Js_evolves_exec (f : World → World) :
  (∀ w, evolves w (f w)) → Js_evolves (exec f).
Proof. intros Hf w c w' [= <- <-]. apply Hf. Qed.

Lemma never_throws_exec (f : World → World) : never_throws (exec f).
Proof. intros w. by exists tt, (f w). Qed.

Lemma never_throws_ret {A} (a : A) : never_throws (ret a).
Proof. intros w. by exists a, w. Qed.

Create HintDb evolve.

#[local] Hint Resolve evolves_refl evolves_setStatus evolves_setError
  evolves_setReconnectCount evolves_setConfig evolves_browser_call
  evolves_pc_close evolves_triggerReconnect evolves_cleanup evolves_elapse
  evolves_new_pc : evolve.
#[local] Hint Resolve Js_evolves_ret Js_evolves_throw Js_evolves_read
  Js_evolves_exec : evolve.

(** Breaks a statement list into its statements. *)
Ltac js_evolves :=
  repeat first
    [ apply Js_evolves_bind; [| intros ?]
    | apply Js_evolves_try_catch; [| intros ?]
    | progress auto with evolve ].

Lemma Js_evolves_new_RTCPeerConnection (fault : option Thrown) :
  Js_evolves (new_RTCPeerConnection fault).
Proof.
  intros w c w' H. unfold new_RTCPeerConnection in H.
  destruct fault; injection H as <- <-; [apply evolves_refl |].
  eapply evolves_trans; [apply evolves_new_pc | apply evolves_browser_call].
Qed.

Lemma Js_evolves_addTransceiver (pc : nat) (kind direction : string)
    (fault : option Thrown) :
  Js_evolves (addTransceiver pc kind direction fault).
Proof.
  intros w c w' H. unfold addTransceiver in H.
  destruct fault; injection H as <- <-; [apply evolves_refl |].
  eapply evolves_trans; [| apply evolves_browser_call].
  by apply evolves_set_pc.
Qed.

#[local] Hint Resolve Js_evolves_new_RTCPeerConnection
  Js_evolves_addTransceiver : evolve.

Lemma Js_evolves_catch_block (err : Thrown) : Js_evolves (catch_block err).
Proof. unfold catch_block. js_evolves. Qed.

Lemma never_throws_catch_block (err : Thrown) : never_throws (catch_block err).
Proof.
  unfold catch_block.
  repeat (apply never_throws_bind; [apply never_throws_exec | intros _]).
  apply never_throws_ret.
Qed.

#[local] Hint Resolve Js_evolves_catch_block : evolve.

Lemma Js_evolves_setupWebRTC (f : Faults) (url stream : option string) :
  Js_evolves (setupWebRTC f url stream).
Proof.
  unfold setupWebRTC.
  destruct (negb (JsString.truthy url) || negb (JsString.truthy stream)).
  - js_evolves.
  - js_evolves; apply Js_evolves_exec; intros w.
    + destruct (pcRef w); [| apply evolves_refl].
      eapply evolves_trans; [apply evolves_pc_close | by apply evolves_same].
    + by apply evolves_same.
Qed.

Lemma never_throws_setupWebRTC (f : Faults) (url stream : option string) :
  never_throws (setupWebRTC f url stream).
Proof.
  unfold setupWebRTC.
  destruct (negb (JsString.truthy url) || negb (JsString.truthy stream)).
  - apply never_throws_bind; [apply never_throws_exec | intros _].
    apply never_throws_ret.
  - repeat (apply never_throws_bind; [apply never_throws_exec | intros _]).
    apply never_throws_try_catch, never_throws_catch_block.
Qed.

Lemma Js_evolves_segment (t : Task) (r : Settled) (m : Js Next) :
  segment t r = Some m → Js_evolves m.
Proof.
  unfold segment. intros H.
  destruct r, (t_await t); simplify_eq; js_evolves.
  - destruct (t_url t); auto with evolve.
  - destruct (negb (ok r)); js_evolves.
Qed.

Lemma Js_evolves_resume (t : Task) (r : Settled) (m : Js Next) :
  setupWebRTC_resume t r = Some m → Js_evolves m.
Proof.
  unfold setupWebRTC_resume. intros H.
  destruct (segment t r) as [body|] eqn:E; simplify_eq/=.
  apply Js_evolves_try_catch; [by eapply Js_evolves_segment | ].
  apply Js_evolves_catch_block.
Qed.

Lemma never_throws_resume (t : Task) (r : Settled) (m : Js Next) :
  setupWebRTC_resume t r = Some m → never_throws m.
Proof.
  unfold setupWebRTC_resume. intros H.
  destruct (segment t r) as [body|] eqn:E; simplify_eq/=.
  apply never_throws_try_catch, never_throws_catch_block.
Qed.

(** ** Events *)

Lemma evolves_spawn (m : Js Next) (w : World) :
  Js_evolves m → never_throws m → evolves w (spawn m w).
Proof.
  intros He Hn. unfold spawn. destruct (Hn w) as (n & w1 & E). rewrite E.
  specialize (He w _ _ E).
  destruct n; [done |].
  eapply evolves_trans; [exact He | by apply evolves_same].
Qed.

Lemma evolves_continue (tid : nat) (m : Js Next) (w : World) :
  Js_evolves m → never_throws m → evolves w (continue tid m w).
Proof.
  intros He Hn. unfold continue. destruct (Hn w) as (n & w1 & E). rewrite E.
  specialize (He w _ _ E).
  destruct n; (eapply evolves_trans; [exact He | by apply evolves_same]).
Qed.

Lemma evolves_effect (f : Faults) (w : World) : evolves w (effect f w).
Proof.
  apply evolves_spawn;
    [apply Js_evolves_setupWebRTC | apply never_throws_setupWebRTC].
Qed.

Lemma evolves_rerender (f : Faults) (old : option string * option string * nat)
    (w : World) :
  evolves w (rerender f old w).
Proof.
  unfold rerender. destruct (mounted w); [| apply evolves_refl].
  destruct (decide (deps w = old)); [apply evolves_refl |].
  eapply evolves_trans; [apply evolves_cleanup | apply evolves_effect].
Qed.

Lemma evolves_updateConnectionStatus (pc : nat) (w : World) :
  evolves w (updateConnectionStatus pc w).
Proof.
  unfold updateConnectionStatus.
  destruct (decide _); [| apply evolves_setStatus].
  eapply evolves_trans; [apply evolves_setStatus | apply evolves_triggerReconnect].
Qed.

Lemma evolves_browser_commit (t : Task) (r : Settled) (w : World) :
  evolves w (browser_commit t r w).
Proof.
  unfold browser_commit.
  destruct r, (t_await t); try apply evolves_refl; by apply evolves_set_pc.
Qed.

Lemma evolves_latency_sample (w : World) : evolves w (latency_sample w).
Proof.
  unfold latency_sample, setLatency.
  destruct (videoRef w) as [v|]; [| apply evolves_refl].
  destruct (paused v || (readyState v <? 3)); [apply evolves_refl |].
  destruct (last (buffered v)) as [[s e]|]; [| apply evolves_refl].
  destruct (exceeds_half _), (mounted w); by apply evolves_same.
Qed.

(** Every event keeps what [evolves] lists. *)
Lemma step_evolves (e : Event) (w w' : World) :
  step e w = Some w' → evolves w w'.
Proof.
  destruct e; simpl; intros H.
  - destruct (mounted w); simplify_eq.
    eapply evolves_trans; [apply evolves_setConfig | apply evolves_rerender].
  - destruct (mounted w); simplify_eq.
    eapply evolves_trans; [apply evolves_setReconnectCount | apply evolves_rerender].
  - destruct (mounted w); simplify_eq.
    eapply evolves_trans with (set_interval None w); [by apply evolves_same |].
    eapply evolves_trans; [apply evolves_cleanup | by apply evolves_same].
  - destruct (timers w !! id) as [due|] eqn:E; [| done].
    destruct (due <=? now w); simplify_eq.
    eapply evolves_trans; [by eapply evolves_fire | apply evolves_rerender].
  - simplify_eq. apply evolves_elapse.
  - destruct (pcs w !! pc); simplify_eq. unfold ontrack.
    destruct (videoRef w); [by apply evolves_same | apply evolves_refl].
  - destruct (pcs w !! pc); simplify_eq.
    eapply evolves_trans; [| apply evolves_updateConnectionStatus].
    by apply evolves_set_pc.
  - destruct (pcs w !! pc); simplify_eq.
    eapply evolves_trans; [| apply evolves_updateConnectionStatus].
    by apply evolves_set_pc.
  - destruct (tasks w !! task) as [[t|]|]; try done.
    destruct (setupWebRTC_resume t r) as [m|] eqn:E; simplify_eq.
    eapply evolves_trans; [apply evolves_browser_commit |].
    apply evolves_continue;
      [by eapply Js_evolves_resume | by eapply never_throws_resume].
  - destruct (videoRef w); simplify_eq. by apply evolves_same.
  - destruct (interval w) as [due|]; [| done].
    destruct (due <=? now w); simplify_eq.
    eapply evolves_trans; [| apply evolves_latency_sample].
    by apply evolves_same.
Qed.

Lemma run_evolves (evs : list Event) (w w' : World) :
  run evs w = Some w' → evolves w w'.
Proof.
  revert w. induction evs as [|e evs IH]; simpl; intros w H.
  - simplify_eq. apply evolves_refl.
  - destruct (step e w) as [w1|] eqn:E; [| done]. simpl in H.
    eapply evolves_trans; [by eapply step_evolves | by apply IH].
Qed.

Lemma run_app (evs1 evs2 : list Event) (w : World) :
  run (evs1 ++ evs2) w = run evs1 w ≫= run evs2.
Proof.
  revert w. induction evs1 as [|e evs1 IH]; simpl; intros w; [done |].
  destruct (step e w); simpl; [apply IH | done].
Qed.

Lemma mount_evolves (initialState : option (gmap string string)) (f : Faults) :
  evolves (first_render initialState) (mount initialState f).
Proof.
  unfold mount. eapply evolves_trans; [| apply evolves_effect].
  by apply evolves_same.
Qed.

Lemma first_render_timer_inv (initialState : option (gmap string string)) :
  timer_inv (first_render initialState).
Proof. intros id due H. simpl in H. by rewrite lookup_empty in H. Qed.

(** In every world the panel reaches, the only pending timer is the one
    [reconnectTimeoutRef] holds, nothing was left uncaught, and every
    pending timer has an id below the next one. *)
Lemma reachable_inv (w : World) :
  reachable w →
  timer_inv w ∧ unhandled w = []
  ∧ (∀ id due, timers w !! id = Some due → id < timer_seq w).
Proof.
  intros (init & f & evs & H).
  pose proof (mount_evolves init f) as E0.
  pose proof (run_evolves _ _ _ H) as E1.
  pose proof (evolves_trans _ _ _ E0 E1) as [U _ _ T I _].
  split; [apply I, first_render_timer_inv |]. split; [by rewrite U |].
  intros id due Hid. destruct (T id due Hid) as [H0|[H0 _]]; [| lia].
  simpl in H0. by rewrite lookup_empty in H0.
Qed.

Lemma timer_inv_size (w : World) : timer_inv w → size (timers w) ≤ 1.
Proof.
  intros I. destruct (reconnectTimeoutRef w) as [id|] eqn:R.
  - assert (timers w ⊆ {[id := default 0 (timers w !! id)]}) as Hsub.
    { apply map_subseteq_spec. intros id' due H.
      pose proof (I id' due H) as R'. rewrite R in R'. simplify_eq.
      rewrite H. simpl. apply lookup_singleton_eq. }
    apply map_subseteq_size in Hsub. by rewrite map_size_singleton in Hsub.
  - assert (timers w = ∅) as ->; [| rewrite map_size_empty; lia].
    apply map_eq. intros id. rewrite lookup_empty. by apply timer_inv_idle.
Qed.

(** ** What the connection code leaves alone *)

Section separation.

Lemma apart_refl (w : World) : apart w w.
Proof. by split. Qed.

Lemma apart_trans (w1 w2 w3 : World) : apart w1 w2 → apart w2 w3 → apart w1 w3.
Proof. intros [] []. split; congruence. Qed.

Lemma apart_setStatus (v : string) (w : World) : apart w (setStatus v w).
Proof. unfold setStatus. by destruct (mounted w). Qed.

Lemma apart_setError (v : option string) (w : World) : apart w (setError v w).
Proof. unfold setError. by destruct (mounted w). Qed.

Lemma apart_setReconnectCount (f : nat → nat) (w : World) :
  apart w (setReconnectCount f w).
Proof. unfold setReconnectCount. by destruct (mounted w). Qed.

Lemma apart_browser_call (c : Call) (w : World) : apart w (browser_call c w).
Proof. done. Qed.

Lemma apart_set_pc (pc : nat) (f : PeerConnection → PeerConnection)
    (w : World) :
  apart w (set_pc pc f w).
Proof. done. Qed.

Lemma apart_pc_close (pc : nat) (w : World) : apart w (pc_close pc w).
Proof. done. Qed.

Lemma apart_triggerReconnect (w : World) : apart w (triggerReconnect w).
Proof.
  unfold triggerReconnect, setStatus.
  by destruct (reconnectTimeoutRef w), (mounted w).
Qed.

Lemma apart_cleanup (w : World) : apart w (cleanup w).
Proof.
  unfold cleanup.
  destruct (reconnectTimeoutRef w) as [id|]; simpl;
    by destruct (pcRef w).
Qed.

Lemma apart_retry_callback (w : World) (id : nat) :
  apart w (retry_callback (set_timers (delete id (timers w)) w)).
Proof.
  unfold retry_callback, setReconnectCount. simpl. by destruct (mounted w).
Qed.

Context {A B : Type}.

Lemma Js_apart_ret (a : A) : Js_apart (ret a).
Proof. intros w c w' [= <- <-]. apply apart_refl. Qed.

Lemma Js_apart_throw (e : Thrown) : Js_apart (throw (A := A) e).
Proof. intros w c w' [= <- <-]. apply apart_refl. Qed.

Lemma Js_apart_read (f : World → A) : Js_apart (read f).
Proof. intros w c w' [= <- <-]. apply apart_refl. Qed.

Lemma Js_apart_bind (m : Js A) (k : A → Js B) :
  Js_apart m → (∀ a, Js_apart (k a)) → Js_apart (bind m k).
Proof.
  intros Hm Hk w c w' H. unfold bind in H.
  destruct (m w) as [[a|e] w1] eqn:E.
  - eapply apart_trans; [by eapply Hm | by eapply Hk].
  - injection H as <- <-. by eapply Hm.
Qed.

Lemma Js_apart_try_catch (body : Js A) (handler : Thrown → Js A) :
  Js_apart body → (∀ e, Js_apart (handler e)) →
  Js_apart (try_catch body handler).
Proof.
  intros Hm Hk w c w' H. unfold try_catch in H.
  destruct (body w) as [[a|e] w1] eqn:E.
  - injection H as <- <-. by eapply Hm.
  - eapply apart_trans; [by eapply Hm | by eapply Hk].
Qed.

End separation.

Lemma Js_apart_exec (f : World → World) :
  (∀ w, apart w (f w)) → Js_apart (exec f).
Proof. intros Hf w c w' [= <- <-]. apply Hf. Qed.

Create HintDb separate.

#[local] Hint Resolve apart_refl apart_setStatus apart_setError
  apart_setReconnectCount apart_browser_call apart_pc_close apart_set_pc
  apart_triggerReconnect apart_cleanup : separate.
#[local] Hint Resolve Js_apart_ret Js_apart_throw Js_apart_read
  Js_apart_exec : separate.

(** Breaks a statement list into its statements. *)
Ltac js_apart :=
  repeat first
    [ apply Js_apart_bind; [| intros ?]
    | apply Js_apart_try_catch; [| intros ?]
    | progress auto with separate ].

Lemma Js_apart_new_RTCPeerConnection (fault : option Thrown) :
  Js_apart (new_RTCPeerConnection fault).
Proof.
  intros w c w' H. unfold new_RTCPeerConnection in H.
  by destruct fault; injection H as <- <-.
Qed.

Lemma Js_apart_addTransceiver (pc : nat) (kind direction : string)
    (fault : option Thrown) :
  Js_apart (addTransceiver pc kind direction fault).
Proof.
  intros w c w' H. unfold addTransceiver in H.
  by destruct fault; injection H as <- <-.
Qed.

#[local] Hint Resolve Js_apart_new_RTCPeerConnection
  Js_apart_addTransceiver : separate.

Lemma Js_apart_catch_block (err : Thrown) : Js_apart (catch_block err).
Proof. unfold catch_block. js_apart. Qed.

#[local] Hint Resolve Js_apart_catch_block : separate.

Lemma Js_apart_setupWebRTC (f : Faults) (url stream : option string) :
  Js_apart (setupWebRTC f url stream).
Proof.
  unfold setupWebRTC.
  destruct (negb (JsString.truthy url) || negb (JsString.truthy stream)).
  - js_apart.
  - js_apart; apply Js_apart_exec; intros w; [by destruct (pcRef w) | done].
Qed.

Lemma Js_apart_segment (t : Task) (r : Settled) (m : Js Next) :
  segment t r = Some m → Js_apart m.
Proof.
  unfold segment. intros H.
  destruct r, (t_await t); simplify_eq; js_apart.
  - destruct (t_url t); auto with separate.
  - destruct (negb (ok r)); js_apart.
Qed.

Lemma Js_apart_resume (t : Task) (r : Settled) (m : Js Next) :
  setupWebRTC_resume t r = Some m → Js_apart m.
Proof.
  unfold setupWebRTC_resume. intros H.
  destruct (segment t r) as [body|] eqn:E; simplify_eq/=.
  apply Js_apart_try_catch; [by eapply Js_apart_segment |].
  apply Js_apart_catch_block.
Qed.

Lemma apart_spawn (m : Js Next) (w : World) :
  Js_apart m → apart w (spawn m w).
Proof.
  intros H. unfold spawn. destruct (m w) as [[[|t]|e] w1] eqn:E.
  all: specialize (H w _ _ E); try done.
  all: eapply apart_trans; [exact H | done].
Qed.

Lemma apart_continue (tid : nat) (m : Js Next) (w : World) :
  Js_apart m → apart w (continue tid m w).
Proof.
  intros H. unfold continue. destruct (m w) as [[[|t]|e] w1] eqn:E.
  all: specialize (H w _ _ E); (eapply apart_trans; [exact H | done]).
Qed.

Lemma apart_effect (f : Faults) (w : World) : apart w (effect f w).
Proof. apply apart_spawn, Js_apart_setupWebRTC. Qed.

Lemma apart_rerender (f : Faults) (old : option string * option string * nat)
    (w : World) :
  apart w (rerender f old w).
Proof.
  unfold rerender. destruct (mounted w); [| apply apart_refl].
  destruct (decide (deps w = old)); [apply apart_refl |].
  eapply apart_trans; [apply apart_cleanup | apply apart_effect].
Qed.

Lemma apart_updateConnectionStatus (pc : nat) (w : World) :
  apart w (updateConnectionStatus pc w).
Proof.
  unfold updateConnectionStatus.
  destruct (decide _); [| apply apart_setStatus].
  eapply apart_trans; [apply apart_setStatus | apply apart_triggerReconnect].
Qed.

Lemma apart_browser_commit (t : Task) (r : Settled) (w : World) :
  apart w (browser_commit t r w).
Proof. unfold browser_commit. by destruct r, (t_await t). Qed.

(** The events of the connection code leave the configuration, the clock
    and the monitor alone. *)
Lemma step_apart (e : Event) (w w' : World) :
  step e w = Some w' →
  match e with
  | ClickReconnect _ | TimerFires _ _ | IceConnectionStateChange _ _
  | ConnectionStateChange _ _ | Settle _ _ => apart w w'
  | _ => True
  end.
Proof.
  destruct e; simpl; intros H; try done.
  - destruct (mounted w); simplify_eq.
    eapply apart_trans; [apply apart_setReconnectCount | apply apart_rerender].
  - destruct (timers w !! id) as [due|]; [| done].
    destruct (due <=? now w); simplify_eq.
    eapply apart_trans; [apply apart_retry_callback | apply apart_rerender].
  - destruct (pcs w !! pc); simplify_eq.
    eapply apart_trans; [| apply apart_updateConnectionStatus]. done.
  - destruct (pcs w !! pc); simplify_eq.
    eapply apart_trans; [| apply apart_updateConnectionStatus]. done.
  - destruct (tasks w !! task) as [[t|]|]; try done.
    destruct (setupWebRTC_resume t r) as [m|] eqn:E; simplify_eq.
    eapply apart_trans; [apply apart_browser_commit |].
    apply apart_continue. by eapply Js_apart_resume.
Qed.

(** Only a settings update changes the configuration. *)
Lemma step_config (e : Event) (w w' : World) :
  step e w = Some w' →
  (∀ path v f, e ≠ SettingsUpdate path v f) → config w' = config w.
Proof.
  intros H Hne. pose proof (step_apart e w w' H) as Ha.
  destruct e; simpl in H; try (by destruct Ha).
  - by destruct (Hne path value f).
  - destruct (mounted w); simplify_eq.
    by destruct (apart_cleanup (set_interval None w)).
  - by simplify_eq.
  - destruct (pcs w !! pc); simplify_eq. unfold ontrack.
    by destruct (videoRef w).
  - by destruct (videoRef w); simplify_eq.
  - destruct (interval w) as [due|]; [| done].
    destruct (due <=? now w); simplify_eq.
    by destruct (latency_sample_frame
                   (set_interval (Some (now w + LATENCY_PERIOD)) w))
      as (_ & _ & _ & -> & _).
Qed.

Lemma monitor_inv_frame (w w' : World) :
  mounted w' = mounted w → interval w' = interval w → now w ≤ now w' →
  (is_Some (videoRef w) → is_Some (videoRef w')) →
  monitor_inv w → monitor_inv w'.
Proof.
  unfold monitor_inv. intros -> -> Hn Hv.
  destruct (mounted w); [| done].
  intros [(due & Hd & Hle) Hs]. split; [| auto]. exists due. split; [done | lia].
Qed.

Lemma monitor_inv_apart (w w' : World) :
  apart w w' → monitor_inv w → monitor_inv w'.
Proof.
  intros [_ M N I V _]. apply monitor_inv_frame; try done; [lia |].
  by rewrite V.
Qed.

Lemma mount_fields (initialState : option (gmap string string)) (f : Faults) :
  config (mount initialState f) = initial_config initialState
  ∧ mounted (mount initialState f) = true
  ∧ now (mount initialState f) = 0
  ∧ interval (mount initialState f) = Some LATENCY_PERIOD
  ∧ videoRef (mount initialState f) = Some blank_video
  ∧ latency (mount initialState f) = JsNumber.zero.
Proof.
  unfold mount.
  by destruct (apart_effect f (latency_effect (first_render initialState)))
    as [-> -> -> -> -> ->].
Qed.

Lemma step_monitor_inv (e : Event) (w w' : World) :
  step e w = Some w' → monitor_inv w → monitor_inv w'.
Proof.
  intros H. pose proof (step_apart e w w' H) as Ha.
  destruct e; simpl in H; try (by apply monitor_inv_apart).
  - destruct (mounted w) eqn:Hm; simplify_eq. intros I.
    eapply monitor_inv_apart; [apply apart_rerender |].
    revert I. apply monitor_inv_frame; unfold setConfig; by rewrite Hm.
  - destruct (mounted w) eqn:Hm; simplify_eq. intros _.
    unfold monitor_inv. simpl.
    by destruct (apart_cleanup (set_interval None w)) as [_ _ _ -> _ _].
  - simplify_eq. apply monitor_inv_frame; simpl; try done. lia.
  - destruct (pcs w !! pc); simplify_eq. unfold ontrack.
    destruct (videoRef w) eqn:Hv; [| done].
    apply monitor_inv_frame; simpl; try done; by intros _; eexists.
  - destruct (videoRef w) eqn:Hv; simplify_eq.
    apply monitor_inv_frame; simpl; try done; by intros _; eexists.
  - destruct (interval w) as [due|] eqn:Hi; [| done].
    destruct (due <=? now w); simplify_eq.
    destruct (latency_sample_frame
                (set_interval (Some (now w + LATENCY_PERIOD)) w))
      as (I & N & M & _ & _ & _ & V).
    unfold monitor_inv. rewrite I, N, M. simpl.
    destruct (mounted w); [| by rewrite Hi].
    intros [_ Hs]. split; [by eexists | by apply V].
Qed.

Lemma reachable_monitor_inv (w : World) : reachable w → monitor_inv w.
Proof.
  intros (init & f & evs & H).
  assert (monitor_inv (mount init f)) as I0.
  { destruct (mount_fields init f) as (_ & M & N & I & V & _).
    unfold monitor_inv. rewrite M, I, N, V. split; [| by eexists].
    exists LATENCY_PERIOD. split; [done | lia]. }
  revert I0 H. generalize (mount init f). clear init f.
  induction evs as [|e evs IH]; simpl; intros w0 I0 H; [by simplify_eq |].
  destruct (step e w0) as [w1|] eqn:E; [| done]. simpl in H.
  apply (IH w1); [by eapply step_monitor_inv | done].
Qed.

(** C7 (amended).  A sample is skipped when playback is paused, when
    [readyState] is below 3 ("future data"), or when no range is buffered.
    Otherwise the drift is the end of the last buffered range minus the
    playback position, as a double, and becomes the displayed latency; when
    it exceeds 0.5 the playback position is set to that end and nothing else
    of the video changes, so that the drift measured right after is 0 (for
    a finite end), no more than before; when it does not exceed 0.5 the
    video is left alone.  The interval is set when the panel mounts, first
    due after 500 ms; while the panel is mounted it stays set, each sample
    setting it 500 ms ahead, so that no two samples are less than 500 ms
    apart; after the unmount there is no sample. *)
Theorem latency_sample_rule (w : World) (v : Video) :
  mounted w = true → videoRef w = Some v →
  (paused v = true ∨ readyState v < HAVE_FUTURE_DATA ∨ buffered v = [] →
   latency_sample w = w)
  ∧ (∀ s e, paused v = false → HAVE_FUTURE_DATA ≤ readyState v →
            last (buffered v) = Some (s, e) →
       latency (latency_sample w) = JsNumber.sub e (currentTime v)
       ∧ drift v = Some (JsNumber.sub e (currentTime v))
       ∧ (JsNumber.gt (JsNumber.sub e (currentTime v)) JsNumber.half = true →
          videoRef (latency_sample w) = Some (with_currentTime e v)
          ∧ calls (latency_sample w)
            = CConsoleLog (currentTime v) e :: calls w
          ∧ paused (with_currentTime e v) = false
          ∧ drift (with_currentTime e v) = Some (JsNumber.sub e e)
          ∧ (JsNumber.is_finite e = true →
             drift (with_currentTime e v) = Some JsNumber.zero
             ∧ JsNumber.le JsNumber.zero (JsNumber.sub e (currentTime v))
               = true))
       ∧ (JsNumber.gt (JsNumber.sub e (currentTime v)) JsNumber.half = false →
          videoRef (latency_sample w) = Some v
          ∧ calls (latency_sample w) = calls w))
  ∧ LATENCY_PERIOD = 500
  ∧ (∀ init f, interval (mount init f) = Some 500
               ∧ step LatencyTick (mount init f) = None)
  ∧ (∀ w0, reachable w0 →
       if mounted w0
       then ∃ due, interval w0 = Some due ∧ due ≤ now w0 + 500
       else step LatencyTick w0 = None)
  ∧ (∀ w0 due, interval w0 = Some due →
       step LatencyTick w0
       = if due <=? now w0
         then Some (latency_sample (set_interval (Some (now w0 + 500)) w0))
         else None)
  ∧ (∀ w0 w1, step LatencyTick w0 = Some w1 →
       interval w1 = Some (now w0 + 500) ∧ now w1 = now w0
       ∧ step LatencyTick w1 = None).
Proof.
  intros Hm Hv. unfold HAVE_FUTURE_DATA.
  split; [apply latency_sample_skips; done |].
  split; [| split; [done |]].
  - intros s e Hp Hr Hl.
    rewrite (latency_sample_measures w v s e) by done.
    unfold exceeds_half.
    split; [by destruct (JsNumber.gt _ _) |].
    split; [by unfold drift; rewrite Hl |].
    split.
    + intros Hd. rewrite Hd. simpl.
      assert (drift (with_currentTime e v) = Some (JsNumber.sub e e)) as Hdr.
      { unfold drift. cbn [with_currentTime buffered currentTime].
        by rewrite Hl. }
      do 4 (split; [done |]). intros Hf.
      rewrite Hdr, (number_sub_diag e Hf). split; [done |].
      by apply gt_half_positive.
    + intros Hd. by rewrite Hd.
  - split; [| split; [| split]].
    + intros init f. destruct (mount_fields init f) as (_ & _ & N & I & _).
      split; [exact I |]. simpl. by rewrite I, N.
    + intros w0 Hw0. pose proof (reachable_monitor_inv w0 Hw0) as I.
      unfold monitor_inv in I. destruct (mounted w0).
      * by destruct I as [I _].
      * simpl. by rewrite I.
    + intros w0 due Hd. simpl. by rewrite Hd.
    + intros w0 w1 H. simpl in H.
      destruct (interval w0) as [due|]; [| done].
      destruct (due <=? now w0); simplify_eq.
      destruct (latency_sample_frame
                  (set_interval (Some (now w0 + LATENCY_PERIOD)) w0))
        as (I & N & _).
      split; [by rewrite I |]. split; [by rewrite N |].
      simpl. rewrite I, N. simpl.
      replace (now w0 + LATENCY_PERIOD <=? now w0) with false; [done |].
      symmetry. apply Nat.leb_gt. unfold LATENCY_PERIOD. lia.
Qed.

(** The claim C7 as it is stated fails in two ways.  Where the video plays
    and nothing is buffered, the sample is neither of the two skip cases,
    and still no drift is computed (the displayed latency keeps its old
    value).  Where the video plays with readiness 3, below "enough data to
    play through", the claim has the sample skipped, and the code samples:
    the displayed latency becomes 2. *)
Lemma two_skip_rule_fails_without_buffer :
  (¬ two_skip_rule playing_nothing_buffered
   ∧ latency_sample playing_nothing_buffered = playing_nothing_buffered)
  ∧ (¬ two_skip_rule playing_with_future_data
     ∧ latency playing_with_future_data = JsNumber.zero
     ∧ latency (latency_sample playing_with_future_data) = JsNumber.of_Z 2).
Proof.
  split; split.
  - intros H. specialize (H _ eq_refl). simpl in H.
    destruct H as (r & Hr & _). discriminate.
  - reflexivity.
  - intros H. specialize (H _ eq_refl). simpl in H.
    apply (f_equal latency) in H. vm_compute in H. discriminate.
  - split; by vm_compute.
Qed.

(** C7 at a video 2 seconds behind the end of its buffer. *)
Lemma latency_sample_rule_witness :
  let v := {| paused := false; readyState := HAVE_ENOUGH_DATA;
              buffered := [(JsNumber.zero, JsNumber.of_Z 3)];
              currentTime := JsNumber.of_Z 1; srcObject := Some 1 |} in
  let w := set_videoRef (Some v) (first_render None) in
  videoRef (latency_sample w) = Some (with_currentTime (JsNumber.of_Z 3) v).
Proof.
  intros v w.
  destruct (latency_sample_rule w v eq_refl eq_refl) as (_ & H & _).
  destruct (H JsNumber.zero (JsNumber.of_Z 3) eq_refl
              ltac:(cbv; lia) eq_refl)
    as (_ & _ & Hfix & _).
  by apply Hfix.
Defined.

(** ** The reconnect scheduler *)

Lemma triggerReconnect_armed (w : World) :
  is_Some (reconnectTimeoutRef w) → triggerReconnect w = w.
Proof. intros [id R]. unfold triggerReconnect. by rewrite R. Qed.

Lemma triggerReconnect_idle (w : World) :
  reconnectTimeoutRef w = None →
  triggerReconnect w
  = set_reconnectTimeoutRef (Some (timer_seq w))
      (browser_call (CSetTimeout (timer_seq w) RETRY_DELAY)
         (set_timer_seq (S (timer_seq w))
            (set_timers (<[timer_seq w := now w + RETRY_DELAY]> (timers w))
               (setStatus "Retrying in 2s..." w)))).
Proof.
  intros R. unfold triggerReconnect, setStatus. rewrite R.
  by destruct (mounted w).
Qed.

Lemma triggerReconnect_twice (w : World) :
  triggerReconnect (triggerReconnect w) = triggerReconnect w.
Proof.
  destruct (reconnectTimeoutRef w) as [id|] eqn:R.
  - assert (triggerReconnect w = w) as E by (apply triggerReconnect_armed; by rewrite R).
    by rewrite !E.
  - apply triggerReconnect_armed. by rewrite triggerReconnect_idle.
Qed.

Lemma setStatus_frame (v : string) (w : World) :
  timers (setStatus v w) = timers w
  ∧ reconnectTimeoutRef (setStatus v w) = reconnectTimeoutRef w
  ∧ calls (setStatus v w) = calls w
  ∧ now (setStatus v w) = now w
  ∧ timer_seq (setStatus v w) = timer_seq w
  ∧ pcs (setStatus v w) = pcs w.
Proof. unfold setStatus. by destruct (mounted w). Qed.

Lemma updateConnectionStatus_failed (pc : nat) (p : PeerConnection) (w : World) :
  pcs w !! pc = Some p →
  iceConnectionState p = "failed" ∨ connectionState p = "failed" →
  updateConnectionStatus pc w
  = triggerReconnect
      (setStatus ("ICE: " +:+ iceConnectionState p +:+ " / CONN: "
                  +:+ connectionState p) w).
Proof.
  intros Hp Hf. unfold updateConnectionStatus. rewrite Hp. simpl.
  by rewrite decide_True.
Qed.

Lemma triggerReconnect_idle_fields (w : World) :
  reconnectTimeoutRef w = None →
  reconnectTimeoutRef (triggerReconnect w) = Some (timer_seq w)
  ∧ timers (triggerReconnect w)
    = <[timer_seq w := now w + RETRY_DELAY]> (timers w)
  ∧ calls (triggerReconnect w)
    = CSetTimeout (timer_seq w) RETRY_DELAY :: calls w
  ∧ pcs (triggerReconnect w) = pcs w
  ∧ timer_seq (triggerReconnect w) = S (timer_seq w)
  ∧ now (triggerReconnect w) = now w.
Proof.
  intros R. unfold triggerReconnect, setStatus. rewrite R.
  by destruct (mounted w).
Qed.

(** Both state-change callbacks report the failure; only the first arms. *)
Lemma two_failure_callbacks (w w' : World) (pc : nat) :
  timer_inv w → reconnectTimeoutRef w = None →
  run [IceConnectionStateChange pc "failed";
       ConnectionStateChange pc "failed"] w = Some w' →
  timers w' = {[timer_seq w := now w + RETRY_DELAY]}
  ∧ reconnectTimeoutRef w' = Some (timer_seq w)
  ∧ armings w' = S (armings w).
Proof.
  intros I R. simpl. destruct (pcs w !! pc) as [p|] eqn:Hp; [| done]. simpl.
  erewrite (updateConnectionStatus_failed pc (with_iceConnectionState "failed" p)
              (set_pc pc _ w));
    [| by simpl; rewrite list_lookup_alter_eq, Hp | by left].
  set (s1 := "ICE: " +:+ _).
  set (w0 := setStatus s1 _).
  destruct (setStatus_frame s1 (set_pc pc (with_iceConnectionState "failed") w))
    as (E1 & E2 & E3 & E4 & E5 & E6).
  fold w0 in E1, E2, E3, E4, E5, E6. simpl in E1, E2, E3, E4, E5, E6.
  destruct (triggerReconnect_idle_fields w0) as (R1 & T1 & C1 & P1 & _);
    [by rewrite E2 |].
  rewrite E1, E4, E5 in T1. rewrite E5 in R1. rewrite E3, E5 in C1.
  rewrite E6 in P1.
  set (w1 := triggerReconnect w0) in *. clearbody w1. clear E1 E2 E3 E4 E5 E6.
  clearbody w0.
  rewrite P1, list_lookup_alter_eq, Hp. simpl.
  erewrite (updateConnectionStatus_failed pc
              (with_connectionState "failed" (with_iceConnectionState "failed" p))
              (set_pc pc _ w1));
    [| by simpl; rewrite P1, !list_lookup_alter_eq, Hp | by right].
  set (s2 := "ICE: " +:+ _).
  destruct (setStatus_frame s2 (set_pc pc (with_connectionState "failed") w1))
    as (F1 & F2 & F3 & _).
  simpl in F1, F2, F3.
  intros [= <-]. rewrite triggerReconnect_armed by (by rewrite F2, R1).
  unfold armings in *. rewrite F1, F2, F3, T1, R1, C1. simpl.
  split; [| split; reflexivity].
  apply map_eq. intros id. destruct (decide (timer_seq w = id)) as [<-|Hne].
  - by rewrite lookup_insert_eq, lookup_singleton_eq.
  - rewrite lookup_insert_ne, lookup_singleton_ne by done.
    by apply timer_inv_idle.
Qed.

Lemma reachable_mount (initialState : option (gmap string string)) (f : Faults) :
  reachable (mount initialState f).
Proof. by exists initialState, f, []. Qed.

Lemma reachable_run (evs : list Event) (w w' : World) :
  reachable w → run evs w = Some w' → reachable w'.
Proof.
  intros (init & f & evs0 & H0) H. exists init, f, (evs0 ++ evs)%list.
  rewrite run_app, H0. exact H.
Qed.

(** C4.  In every world the panel reaches, whatever the events were, at
    most one retry timer is pending, and it is the one the scheduler holds.
    A [triggerReconnect] call while a timer is armed returns the world
    unchanged, so repeating the call changes nothing more.  When no retry is
    pending and both state-change callbacks report the same failure, one
    timer is pending afterwards and one [setTimeout] call was made. *)
Theorem at_most_one_retry_timer :
  (∀ w, reachable w →
     size (timers w) ≤ 1
     ∧ ∀ id due, timers w !! id = Some due → reconnectTimeoutRef w = Some id)
  ∧ (∀ w, is_Some (reconnectTimeoutRef w) → triggerReconnect w = w)
  ∧ (∀ w, triggerReconnect (triggerReconnect w) = triggerReconnect w)
  ∧ (∀ w w' pc, reachable w → reconnectTimeoutRef w = None →
       run [IceConnectionStateChange pc "failed";
            ConnectionStateChange pc "failed"] w = Some w' →
       size (timers w') = 1
       ∧ is_Some (reconnectTimeoutRef w')
       ∧ armings w' = S (armings w)).
Proof.
  split; [| split; [| split]].
  - intros w Hw. destruct (reachable_inv w Hw) as (I & _).
    split; [by apply timer_inv_size | exact I].
  - apply triggerReconnect_armed.
  - apply triggerReconnect_twice.
  - intros w w' pc Hw R H. destruct (reachable_inv w Hw) as (I & _).
    destruct (two_failure_callbacks w w' pc I R H) as (T & R' & A).
    rewrite T, map_size_singleton, R'. eauto.
Qed.

(** C4 at a failure of the first connection of a freshly mounted panel. *)
Lemma at_most_one_retry_timer_witness :
  match run [IceConnectionStateChange 0 "failed";
             ConnectionStateChange 0 "failed"] (mount None no_faults) with
  | Some w' => size (timers w') = 1 ∧ armings w' = 1
  | None => False
  end.
Proof.
  destruct (run _ _) as [w'|] eqn:E; [| vm_compute in E; discriminate].
  destruct at_most_one_retry_timer as (_ & _ & _ & H).
  assert (reconnectTimeoutRef (mount None no_faults) = None) as R
    by (vm_compute; reflexivity).
  assert (armings (mount None no_faults) = 0) as A
    by (vm_compute; reflexivity).
  destruct (H (mount None no_faults) w' 0 (reachable_mount None no_faults) R E)
    as (S1 & _ & A1).
  split; [exact S1 | by rewrite A1, A].
Defined.

(** ** The steps of [setupWebRTC] *)

Lemma catch_block_caught (err : Thrown) (w : World) :
  catch_block err w = (Normal Return, caught err w).
Proof. reflexivity. Qed.

Section settle.

Context (w : World) (tid : nat) (t : Task).
Hypothesis Ht : tasks w !! tid = Some (Some t).

Lemma settle_rejected (e : Thrown) :
  step (Settle tid (Rejected e)) w = Some (finish tid (caught e w)).
Proof.
  simpl. rewrite Ht. unfold setupWebRTC_resume, segment, browser_commit. simpl.
  reflexivity.
Qed.

Lemma settle_offer (offer : string) :
  t_await t = AwaitCreateOffer →
  step (Settle tid (OfferCreated offer)) w
  = Some (suspend tid (with_await (AwaitSetLocalDescription offer) t)
            (browser_call (CSetLocalDescription (t_pc t) offer) w)).
Proof.
  intros Ha. simpl. rewrite Ht.
  unfold setupWebRTC_resume, segment, browser_commit. rewrite Ha. reflexivity.
Qed.

Lemma settle_local (offer url : string) :
  t_await t = AwaitSetLocalDescription offer → t_url t = Some url →
  step (Settle tid LocalDescriptionSet) w
  = let w1 := set_pc (t_pc t) (with_localDescription offer) w in
    Some (suspend tid (with_await AwaitFetch t)
            (browser_call
               (CFetch (request_url (endpoint_of url) (t_stream t)) "POST"
                       (pcs w1 !! t_pc t ≫= localDescription))
               w1)).
Proof.
  intros Ha Hu. simpl. rewrite Ht.
  unfold setupWebRTC_resume, segment, browser_commit. rewrite Ha, Hu.
  reflexivity.
Qed.

Lemma settle_fetch_ok (r : Response) :
  t_await t = AwaitFetch → ok r = true →
  step (Settle tid (Fetched r)) w
  = Some (suspend tid (with_await AwaitText t) (browser_call CText w)).
Proof.
  intros Ha Hr. simpl. rewrite Ht.
  unfold setupWebRTC_resume, segment, browser_commit. rewrite Ha, Hr.
  reflexivity.
Qed.

Lemma settle_fetch_failed (r : Response) :
  t_await t = AwaitFetch → ok r = false →
  step (Settle tid (Fetched r)) w
  = Some (finish tid (caught (signaling_error r) w)).
Proof.
  intros Ha Hr. simpl. rewrite Ht.
  unfold setupWebRTC_resume, segment, browser_commit. rewrite Ha, Hr.
  reflexivity.
Qed.

Lemma settle_text (answer : string) :
  t_await t = AwaitText →
  step (Settle tid (TextRead answer)) w
  = Some (suspend tid (with_await (AwaitSetRemoteDescription answer) t)
            (browser_call (CSetRemoteDescription (t_pc t) "answer" answer) w)).
Proof.
  intros Ha. simpl. rewrite Ht.
  unfold setupWebRTC_resume, segment, browser_commit. rewrite Ha. reflexivity.
Qed.

Lemma settle_remote (answer : string) :
  t_await t = AwaitSetRemoteDescription answer →
  step (Settle tid RemoteDescriptionSet) w
  = Some (finish tid
            (setStatus "Connected"
               (set_pc (t_pc t) (with_remoteDescription answer) w))).
Proof.
  intros Ha. simpl. rewrite Ht.
  unfold setupWebRTC_resume, segment, browser_commit. rewrite Ha. reflexivity.
Qed.

End settle.

Lemma truthy_Some (v : string) : v ≠ "" → JsString.truthy (Some v) = true.
Proof.
  intros H. simpl. apply negb_true_iff. by apply String.eqb_neq.
Qed.

Lemma alter_snoc {A} (f : A → A) (l : list A) (x : A) :
  alter f (length l) (l ++ [x])%list = (l ++ [f x])%list.
Proof.
  replace (length l) with (length l + 0) at 1 by lia.
  by rewrite alter_app_r.
Qed.

Lemma lookup_snoc {A} (l : list A) (x : A) :
  (l ++ [x])%list !! length l = Some x.
Proof. by rewrite lookup_app_r, Nat.sub_diag by lia. Qed.

Lemma insert_snoc {A} (l : list A) (x y : A) :
  <[length l := y]> (l ++ [x])%list = (l ++ [y])%list.
Proof.
  replace (length l) with (length l + 0) at 1 by lia.
  by rewrite insert_app_r.
Qed.

Lemma entered_fields (w : World) :
  mounted w = true →
  status (entered w) = "Connecting..." ∧ error (entered w) = None
  ∧ pcRef (entered w) = None ∧ length (pcs (entered w)) = length (pcs w)
  ∧ tasks (entered w) = tasks w ∧ videoRef (entered w) = videoRef w
  ∧ mounted (entered w) = true
  ∧ timers (entered w) = timers w
  ∧ reconnectTimeoutRef (entered w) = reconnectTimeoutRef w
  ∧ calls (entered w) = match pcRef w with
                        | Some old => CClose old :: calls w
                        | None => calls w
                        end
  ∧ config (entered w) = config w.
Proof.
  intros Hm. unfold entered, setError, setStatus. rewrite Hm. simpl.
  rewrite Hm. simpl. destruct (pcRef w) eqn:E; simpl; repeat split; try done.
  by rewrite length_alter.
Qed.

(** The effect with a configuration that lacks a field. *)
Lemma effect_waiting (f : Faults) (w : World) :
  JsString.truthy (cfg_url (config w)) = false
  ∨ JsString.truthy (cfg_stream (config w)) = false →
  effect f w = setStatus "Waiting for config" w.
Proof.
  intros H. unfold effect, spawn, setupWebRTC.
  replace (negb (JsString.truthy (cfg_url (config w)))
           || negb (JsString.truthy (cfg_stream (config w)))) with true.
  - reflexivity.
  - symmetry. destruct H as [-> | ->]; [done | apply orb_true_r].
Qed.

(** The effect with a complete configuration, when nothing throws before
    the first [await]. *)
Lemma effect_no_faults (w : World) :
  JsString.truthy (cfg_url (config w)) = true →
  JsString.truthy (cfg_stream (config w)) = true →
  effect no_faults w
  = let w1 := entered w in
    let pc := length (pcs w1) in
    set_tasks
      (tasks w1 ++ [Some {| t_pc := pc; t_url := cfg_url (config w);
                            t_stream := cfg_stream (config w);
                            t_await := AwaitCreateOffer |}])
      (set_calls
         ([CCreateOffer pc; CAddTransceiver pc "audio" "recvonly";
           CAddTransceiver pc "video" "recvonly"; CNewPeerConnection pc]
          ++ calls w1)
         (set_pcRef (Some pc) (set_pcs (pcs w1 ++ [receiving_pc]) w1))).
Proof.
  intros Hu Hs. unfold effect, spawn, setupWebRTC. rewrite Hu, Hs. simpl.
  unfold bind, exec, try_catch, new_RTCPeerConnection, addTransceiver. simpl.
  fold (entered w). unfold set_pc. simpl.
  rewrite !alter_snoc. reflexivity.
Qed.

(** The effect with a complete configuration, when something throws before
    the first [await]. *)
Lemma effect_fault (f : Faults) (e : Thrown) (w : World) :
  JsString.truthy (cfg_url (config w)) = true →
  JsString.truthy (cfg_stream (config w)) = true →
  first_fault f = Some e →
  ∃ w1, effect f w = caught e w1
        ∧ mounted w1 = mounted w ∧ unhandled w1 = unhandled w
        ∧ tasks w1 = tasks w.
Proof.
  intros Hu Hs Hf.
  assert (mounted (entered w) = mounted w
          ∧ unhandled (entered w) = unhandled w
          ∧ tasks (entered w) = tasks w) as (Em & Eu & Et).
  { unfold entered, setError, setStatus.
    destruct (mounted w) eqn:Hm; simpl; rewrite ?Hm; simpl;
      by destruct (pcRef w). }
  unfold effect, spawn, setupWebRTC. rewrite Hu, Hs.
  cbn [negb orb]. unfold bind at 1 2 3. cbn [exec]. fold (entered w).
  revert Em Eu Et. generalize (entered w). intros w2 <- <- <-.
  unfold first_fault in Hf. unfold try_catch, bind, new_RTCPeerConnection.
  destruct (new_fault f) as [e1|].
  { injection Hf as ->. exists w2. by rewrite catch_block_caught. }
  unfold exec, addTransceiver.
  destruct (video_fault f) as [e2|].
  { injection Hf as ->. eexists. rewrite catch_block_caught.
    split; [reflexivity | by cbn]. }
  destruct (audio_fault f) as [e3|]; [| done].
  injection Hf as ->. eexists. rewrite catch_block_caught.
  split; [reflexivity | by cbn].
Qed.

(** ** Failures of a connection attempt *)

Lemma caught_fields (e : Thrown) (w : World) :
  mounted w = true →
  error (caught e w) = Some (err_text e)
  ∧ is_Some (reconnectTimeoutRef (caught e w))
  ∧ status (caught e w)
    = match reconnectTimeoutRef w with
      | Some _ => "Error"
      | None => "Retrying in 2s..."
      end
  ∧ unhandled (caught e w) = unhandled w
  ∧ tasks (caught e w) = tasks w.
Proof.
  intros Hm. unfold caught, triggerReconnect, setStatus, setError. simpl.
  rewrite Hm. simpl. rewrite Hm. simpl.
  destruct (reconnectTimeoutRef w) eqn:R; simpl; rewrite ?Hm, ?R; simpl;
    eauto 10.
Qed.




(** ** A negotiation that succeeds *)

Lemma deliver_fields (tracks : list (list nat)) (w : World) :
  tasks (deliver tracks w) = tasks w ∧ pcs (deliver tracks w) = pcs w
  ∧ mounted (deliver tracks w) = mounted w
  ∧ calls (deliver tracks w) = calls w
  ∧ status (deliver tracks w) = status w ∧ error (deliver tracks w) = error w
  ∧ pcRef (deliver tracks w) = pcRef w
  ∧ timers (deliver tracks w) = timers w
  ∧ reconnectTimeoutRef (deliver tracks w) = reconnectTimeoutRef w
  ∧ attached (deliver tracks w)
    = match last tracks with
      | Some streams => videoRef w ≫= λ _, head streams
      | None => attached w
      end.
Proof.
  revert w. induction tracks as [|streams tracks IH]; intros w; [done |].
  unfold deliver in *. simpl. specialize (IH (ontrack streams w)).
  destruct IH as (-> & -> & -> & -> & -> & -> & -> & -> & -> & ->).
  unfold ontrack, attached.
  destruct (videoRef w) as [v|] eqn:Hv; simpl; rewrite ?Hv;
    (repeat split; try done); rewrite last_cons; by destruct (last tracks).
Qed.

Lemma run_tracks (pc : nat) (tracks : list (list nat)) (w : World) :
  is_Some (pcs w !! pc) →
  run (Track pc <$> tracks) w = Some (deliver tracks w).
Proof.
  revert w. induction tracks as [|streams tracks IH]; intros w [p Hp]; [done |].
  simpl. rewrite Hp. simpl. apply IH.
  unfold ontrack. destruct (videoRef w); simpl; by rewrite Hp.
Qed.

Lemma suspend_lookup (tid : nat) (t : Task) (w : World) :
  tid < length (tasks w) → tasks (suspend tid t w) !! tid = Some (Some t).
Proof. intros H. simpl. by apply list_lookup_insert_eq. Qed.

Lemma run_negotiation (w : World) (tid : nat) (t : Task)
    (offer answer url : string) (r : Response) (tracks : list (list nat)) :
  tasks w !! tid = Some (Some t) → t_await t = AwaitCreateOffer →
  t_url t = Some url → is_Some (pcs w !! t_pc t) → ok r = true →
  run (negotiation tid (t_pc t) offer answer r tracks) w
  = Some (negotiated tid t offer answer url tracks w).
Proof.
  intros Ht Ha Hu [p Hp] Hr. unfold negotiation, negotiated. cbn zeta.
  assert (tid < length (tasks w)) as Hlen by by eapply lookup_lt_Some.
  set (t1 := with_await (AwaitSetLocalDescription offer) t).
  set (w1 := suspend tid t1 _).
  assert (step (Settle tid (OfferCreated offer)) w = Some w1) as S1
    by by apply settle_offer.
  assert (tasks w1 !! tid = Some (Some t1)) as L1 by by apply suspend_lookup.
  assert (length (tasks w1) = length (tasks w)) as N1
    by (simpl; by rewrite length_insert).
  assert (pcs w1 = pcs w) as P1 by done.
  clearbody w1.
  set (t2 := with_await AwaitFetch t).
  set (w2 := suspend tid t2 _).
  assert (step (Settle tid LocalDescriptionSet) w1 = Some w2) as S2.
  { rewrite (settle_local w1 tid t1 L1 offer url eq_refl Hu). cbn zeta.
    subst w2. simpl. by rewrite P1, list_lookup_alter_eq, Hp. }
  assert (tasks w2 !! tid = Some (Some t2)) as L2
    by (apply suspend_lookup; simpl; lia).
  assert (length (tasks w2) = length (tasks w)) as N2
    by (simpl; by rewrite length_insert).
  assert (is_Some (pcs w2 !! t_pc t)) as P2
    by (subst w2; simpl; rewrite P1, list_lookup_alter_eq, Hp; by eexists).
  clearbody w2.
  set (t3 := with_await AwaitText t).
  set (w3 := suspend tid t3 _).
  assert (step (Settle tid (Fetched r)) w2 = Some w3) as S3
    by by rewrite (settle_fetch_ok w2 tid t2 L2 r eq_refl Hr).
  assert (tasks w3 !! tid = Some (Some t3)) as L3
    by (apply suspend_lookup; simpl; lia).
  assert (length (tasks w3) = length (tasks w)) as N3
    by (simpl; by rewrite length_insert).
  assert (is_Some (pcs w3 !! t_pc t)) as P3 by done.
  clearbody w3.
  set (t4 := with_await (AwaitSetRemoteDescription answer) t).
  set (w4 := suspend tid t4 _).
  assert (step (Settle tid (TextRead answer)) w3 = Some w4) as S4
    by by rewrite (settle_text w3 tid t3 L3 answer eq_refl).
  assert (tasks w4 !! tid = Some (Some t4)) as L4
    by (apply suspend_lookup; simpl; lia).
  assert (is_Some (pcs w4 !! t_pc t)) as P4 by done.
  clearbody w4.
  destruct (deliver_fields tracks w4) as (T5 & _).
  rewrite run_app. cbn [run]. rewrite S1. cbn [mbind option_bind].
  rewrite S2. cbn [mbind option_bind]. rewrite S3. cbn [mbind option_bind].
  rewrite S4. cbn [mbind option_bind].
  rewrite run_app, run_tracks by done. cbn [mbind option_bind run].
  rewrite (settle_remote (deliver tracks w4) tid t4) with (answer := answer);
    [done | by rewrite T5 | done].
Qed.

Lemma negotiated_fields (tid : nat) (t : Task) (offer answer url : string)
    (tracks : list (list nat)) (w : World) (p : PeerConnection) :
  mounted w = true → pcs w !! t_pc t = Some p → tid < length (tasks w) →
  let w' := negotiated tid t offer answer url tracks w in
  status w' = "Connected" ∧ error w' = error w ∧ pcRef w' = pcRef w
  ∧ attached w' = match last tracks with
                  | Some streams => videoRef w ≫= λ _, head streams
                  | None => attached w
                  end
  ∧ calls w' = [CSetRemoteDescription (t_pc t) "answer" answer; CText;
                CFetch (request_url (endpoint_of url) (t_stream t)) "POST"
                       (Some offer);
                CSetLocalDescription (t_pc t) offer] ++ calls w
  ∧ pcs w' !! t_pc t
    = Some (with_remoteDescription answer (with_localDescription offer p))
  ∧ tasks w' !! tid = Some None
  ∧ timers w' = timers w ∧ reconnectTimeoutRef w' = reconnectTimeoutRef w.
Proof.
  intros Hm Hp Hlen. unfold negotiated. cbn zeta.
  set (w4 := suspend tid (with_await (AwaitSetRemoteDescription answer) t) _).
  destruct (deliver_fields tracks w4) as (T & P & M & C & S & E & R & Ti & Re & A).
  unfold finish, setStatus. cbn [mounted set_pc set_pcs].
  rewrite M. change (mounted w4) with (mounted w). rewrite Hm.
  cbn -[deliver with_remoteDescription with_localDescription].
  rewrite T, P, C, E, R, Ti, Re.
  unfold attached in *. cbn -[deliver]. rewrite A.
  repeat split; try reflexivity.
  - subst w4. cbn. by rewrite !list_lookup_alter_eq, Hp.
  - apply list_lookup_insert_eq. subst w4. cbn. by rewrite !length_insert.
Qed.

(** A whole attempt in which nothing fails: the effect, then the
    negotiation of the run it started. *)
Lemma attempt_succeeds (w : World) (url stream offer answer : string)
    (r : Response) (tracks : list (list nat)) :
  mounted w = true →
  cfg_url (config w) = Some url → cfg_stream (config w) = Some stream →
  url ≠ "" → stream ≠ "" → ok r = true →
  let tid := length (tasks w) in
  let pc := length (pcs w) in
  ∃ w', run (negotiation tid pc offer answer r tracks) (effect no_faults w)
        = Some w'
    ∧ status w' = "Connected" ∧ error w' = None ∧ pcRef w' = Some pc
    ∧ attached w' = match last tracks with
                    | Some streams => videoRef w ≫= λ _, head streams
                    | None => attached w
                    end
    ∧ calls w'
      = [CSetRemoteDescription pc "answer" answer; CText;
         CFetch (endpoint_of url +:+ "/api/webrtc?src=" +:+ stream) "POST"
                (Some offer);
         CSetLocalDescription pc offer;
         CCreateOffer pc; CAddTransceiver pc "audio" "recvonly";
         CAddTransceiver pc "video" "recvonly"; CNewPeerConnection pc]
        ++ calls (entered w)
    ∧ pcs w' !! pc
      = Some (with_remoteDescription answer
                (with_localDescription offer receiving_pc))
    ∧ tasks w' !! tid = Some None
    ∧ timers w' = timers w
    ∧ reconnectTimeoutRef w' = reconnectTimeoutRef w.
Proof.
  intros Hm Hu Hs Hu0 Hs0 Hr tid pc.
  rewrite effect_no_faults
    by (rewrite ?Hu, ?Hs; by apply truthy_Some).
  cbn zeta. rewrite Hu, Hs.
  destruct (entered_fields w Hm)
    as (_ & E1 & _ & P1 & T1 & V1 & M1 & Ti1 & R1 & _).
  subst tid pc. rewrite <- P1, <- T1, <- Ti1, <- R1.
  replace (attached w) with (attached (entered w))
    by (unfold attached; by rewrite V1).
  rewrite <- V1.
  remember (entered w) as w1 eqn:Hw1. clear Hw1 P1 T1 Ti1 R1 V1.
  set (pc := length (pcs w1)).
  set (t0 := {| t_pc := pc; t_url := Some url; t_stream := Some stream;
                t_await := AwaitCreateOffer |}).
  set (w0 := set_tasks _ _).
  assert (tasks w0 !! length (tasks w1) = Some (Some t0)) as L0
    by apply lookup_snoc.
  assert (pcs w0 !! t_pc t0 = Some receiving_pc) as P0 by apply lookup_snoc.
  assert (mounted w0 = true) as M0 by exact M1.
  eexists. split.
  - apply (run_negotiation w0 (length (tasks w1)) t0 offer answer url r tracks);
      [done | done | done | by eexists | done].
  - destruct (negotiated_fields (length (tasks w1)) t0 offer answer url tracks
                w0 receiving_pc M0 P0)
      as (S & E & R & A & C & P & T & Ti & Re).
    { by eapply lookup_lt_Some. }
    change (t_pc t0) with pc in P.
    rewrite S, E, R, A, C, P, T, Ti, Re. done.
Qed.

(** The claim C1 as it is stated fails for a negotiation whose two track
    events carry different streams: the sink shows the stream of the second
    event, not the first stream of the first one. *)
Lemma last_track_event_wins :
  match run (negotiation 0 0 "offer" "answer" ok_response [[7]; [8]])
            (mount None no_faults) with
  | Some w' => attached w' = Some 8 ∧ ¬ first_track_shown [[7]; [8]] w'
  | None => False
  end.
Proof.
  vm_compute. split; [reflexivity |]. intros (_ & _ & H). discriminate.
Qed.

(** C1 (amended).  When a mounted panel with a complete configuration
    starts an attempt and the offer, the local description, the signaling
    response (with an [ok] status), its text and the remote description all
    succeed, the run ends with status ["Connected"], no error, the new
    connection held with both descriptions committed, and no retry
    scheduled.  The render sink shows the first stream of the last track
    event delivered: every track event replaces what is attached, and with
    no track event the sink keeps what it had. *)
Theorem successful_negotiation (w : World) (url stream offer answer : string)
    (r : Response) (tracks : list (list nat)) :
  mounted w = true →
  cfg_url (config w) = Some url → cfg_stream (config w) = Some stream →
  url ≠ "" → stream ≠ "" → ok r = true →
  ∃ w', run (negotiation (length (tasks w)) (length (pcs w))
                         offer answer r tracks)
            (effect no_faults w) = Some w'
    ∧ status w' = "Connected" ∧ error w' = None
    ∧ attached w' = match last tracks with
                    | Some streams => videoRef w ≫= λ _, head streams
                    | None => attached w
                    end
    ∧ pcRef w' = Some (length (pcs w))
    ∧ pcs w' !! length (pcs w)
      = Some (with_remoteDescription answer
                (with_localDescription offer receiving_pc))
    ∧ tasks w' !! length (tasks w) = Some None
    ∧ timers w' = timers w
    ∧ reconnectTimeoutRef w' = reconnectTimeoutRef w.
Proof.
  intros Hm Hu Hs Hu0 Hs0 Hr.
  destruct (attempt_succeeds w url stream offer answer r tracks
              Hm Hu Hs Hu0 Hs0 Hr)
    as (w' & Hrun & S & E & R & A & _ & P & T & Ti & Re).
  exists w'. eauto 10.
Qed.

(** C1 (amended) at the first attempt of a panel with the default
    configuration, with two track events. *)
Lemma successful_negotiation_witness :
  ∃ w', run (negotiation 0 0 "offer" "answer" ok_response [[7]; [8]])
            (effect no_faults (latency_effect (first_render None))) = Some w'
        ∧ status w' = "Connected" ∧ attached w' = Some 8.
Proof.
  destruct (successful_negotiation (latency_effect (first_render None))
              "http://localhost:1984" "cam1" "offer" "answer" ok_response
              [[7]; [8]] eq_refl eq_refl eq_refl
              ltac:(discriminate) ltac:(discriminate) eq_refl)
    as (w' & Hrun & S & _ & A & _).
  exists w'. split; [exact Hrun |]. split; [exact S | exact A].
Defined.

(** ** The signaling request *)

Lemma requests_entered (w : World) :
  mounted w = true → requests (entered w) = requests w.
Proof.
  intros Hm.
  destruct (entered_fields w Hm)
    as (_ & _ & _ & _ & _ & _ & _ & _ & _ & C & _).
  unfold requests. rewrite C. by destruct (pcRef w).
Qed.

Lemma response_check (t : Task) (r : Response) :
  t_await t = AwaitFetch →
  ∃ m, segment t (Fetched r) = Some m
       ∧ ∀ w, m w = if ok r
                    then (Normal (Suspend (with_await AwaitText t)),
                          browser_call CText w)
                    else (Throw (signaling_error r), w).
Proof.
  intros Ha. unfold segment. rewrite Ha. eexists. split; [reflexivity |].
  intros w. by destruct (ok r).
Qed.

(** C8.  The signaling exchange of [setupWebRTC].  The endpoint is the
    configured url without one trailing ["/"] (only one is removed, and a
    url without a trailing slash is kept).  Once the local description is
    set, one [fetch] is issued: a POST to
    [endpoint/api/webrtc?src=stream] whose body is the local description of
    the connection.  The response makes the run throw exactly when it is not
    [ok], and the error thrown then carries the status text; an [ok]
    response has its text read, and that text is given to
    [setRemoteDescription] as the answer.  A whole successful attempt issues
    exactly one request. *)
Theorem signaling_request :
  (∀ base, endpoint_of (base +:+ "/") = base)
  ∧ endpoint_of "http://host//" = "http://host/"
  ∧ (∀ url, (∀ base, url ≠ base +:+ "/") → endpoint_of url = url)
  ∧ (∀ w tid t offer url p,
       tasks w !! tid = Some (Some t) →
       t_await t = AwaitSetLocalDescription offer → t_url t = Some url →
       pcs w !! t_pc t = Some p →
       ∃ w', step (Settle tid LocalDescriptionSet) w = Some w'
         ∧ calls w'
           = CFetch (endpoint_of url +:+ "/api/webrtc?src="
                     +:+ JsString.interpolate (t_stream t))
                    "POST" (Some offer) :: calls w
         ∧ pcs w' !! t_pc t ≫= localDescription = Some offer
         ∧ requests w' = S (requests w)
         ∧ tasks w' !! tid = Some (Some (with_await AwaitFetch t)))
  ∧ (∀ t r, t_await t = AwaitFetch →
       ∃ m, segment t (Fetched r) = Some m
         ∧ (∀ w, (∃ e w', m w = (Throw e, w')) ↔ ok r = false)
         ∧ (∀ w, ok r = false → m w = (Throw (signaling_error r), w))
         ∧ (∀ w, ok r = true →
              m w = (Normal (Suspend (with_await AwaitText t)),
                     browser_call CText w)))
  ∧ (∀ r, signaling_error r
          = ErrorObj ("Failed to connect to go2rtc: " +:+ statusText r))
  ∧ (∀ w tid t answer,
       tasks w !! tid = Some (Some t) → t_await t = AwaitText →
       step (Settle tid (TextRead answer)) w
       = Some (suspend tid (with_await (AwaitSetRemoteDescription answer) t)
                 (browser_call
                    (CSetRemoteDescription (t_pc t) "answer" answer) w)))
  ∧ (∀ w url stream offer answer r tracks,
       mounted w = true →
       cfg_url (config w) = Some url → cfg_stream (config w) = Some stream →
       url ≠ "" → stream ≠ "" → ok r = true →
       ∃ w', run (negotiation (length (tasks w)) (length (pcs w))
                              offer answer r tracks)
                 (effect no_faults w) = Some w'
         ∧ requests w' = S (requests w)
         ∧ CFetch (endpoint_of url +:+ "/api/webrtc?src=" +:+ stream) "POST"
                  (Some offer) ∈ calls w'
         ∧ pcs w' !! length (pcs w) ≫= remoteDescription = Some answer).
Proof.
  split; [apply endpoint_of_slash |].
  split; [apply (endpoint_of_slash "http://host/") |].
  split; [apply endpoint_of_other |].
  split; [| split; [| split; [done | split]]].
  - intros w tid t offer url p Ht Ha Hu Hp. eexists.
    rewrite (settle_local w tid t Ht offer url Ha Hu). cbn zeta.
    split; [reflexivity |]. simpl.
    rewrite list_lookup_alter_eq, Hp. simpl. repeat split.
    apply list_lookup_insert_eq. by eapply lookup_lt_Some.
  - intros t r Ha. destruct (response_check t r Ha) as (m & Hm & Hw).
    exists m. split; [done |]. split; [| split].
    + intros w. rewrite Hw. destruct (ok r); split.
      * by intros (e & w' & ?).
      * done.
      * done.
      * by exists (signaling_error r), w.
    + intros w Hr. by rewrite Hw, Hr.
    + intros w Hr. by rewrite Hw, Hr.
  - intros w tid t answer Ht Ha. by apply settle_text.
  - intros w url stream offer answer r tracks Hm Hu Hs Hu0 Hs0 Hr.
    destruct (attempt_succeeds w url stream offer answer r tracks
                Hm Hu Hs Hu0 Hs0 Hr)
      as (w' & Hrun & _ & _ & _ & _ & C & P & _).
    exists w'. split; [exact Hrun |]. split; [| split].
    + unfold requests in *. rewrite C. simpl.
      f_equal. apply (requests_entered w Hm).
    + rewrite C. set_solver.
    + by rewrite P.
Qed.

(** C8 at the first attempt of a panel with the default configuration. *)
Lemma signaling_request_witness :
  ∃ w', run (negotiation 0 0 "offer" "answer" ok_response [])
            (effect no_faults (latency_effect (first_render None))) = Some w'
        ∧ requests w' = 1
        ∧ CFetch "http://localhost:1984/api/webrtc?src=cam1" "POST"
                 (Some "offer") ∈ calls w'.
Proof.
  destruct signaling_request as (_ & _ & _ & _ & _ & _ & _ & H).
  destruct (H (latency_effect (first_render None))
              "http://localhost:1984" "cam1" "offer" "answer" ok_response []
              eq_refl eq_refl eq_refl
              ltac:(discriminate) ltac:(discriminate) eq_refl)
    as (w' & Hrun & R & F & _).
  exists w'. split; [exact Hrun |]. split; [exact R | exact F].
Defined.

(** ** Teardown *)

Lemma cleanup_idle (w : World) :
  pcRef w = None → reconnectTimeoutRef w = None → cleanup w = w.
Proof. intros P R. unfold cleanup. by rewrite R, P. Qed.

Lemma cleanup_refs (w : World) :
  reconnectTimeoutRef (cleanup w) = None ∧ pcRef (cleanup w) = None.
Proof.
  unfold cleanup.
  destruct (reconnectTimeoutRef w) eqn:R, (pcRef w) eqn:P; simpl;
    rewrite ?P, ?R; simpl; by rewrite ?P, ?R.
Qed.

Lemma cleanup_fields (w : World) :
  config (cleanup w) = config w ∧ mounted (cleanup w) = mounted w
  ∧ reconnectCount (cleanup w) = reconnectCount w
  ∧ unhandled (cleanup w) = unhandled w ∧ now (cleanup w) = now w
  ∧ status (cleanup w) = status w ∧ error (cleanup w) = error w
  ∧ tasks (cleanup w) = tasks w
  ∧ length (pcs (cleanup w)) = length (pcs w).
Proof.
  unfold cleanup.
  destruct (reconnectTimeoutRef w) eqn:R, (pcRef w) eqn:P; simpl;
    rewrite ?P, ?R; simpl; rewrite ?length_alter; done.
Qed.

Lemma cleanup_closes (w : World) (pc : nat) (p : PeerConnection) :
  pcRef w = Some pc → pcs w !! pc = Some p →
  pcs (cleanup w) !! pc = Some (with_closed p) ∧ CClose pc ∈ calls (cleanup w).
Proof.
  intros P Hp. unfold cleanup.
  destruct (reconnectTimeoutRef w) eqn:R; simpl; rewrite P; simpl;
    rewrite list_lookup_alter_eq, Hp; split; try done; set_solver.
Qed.

Lemma cleanup_cancels (w : World) (id : nat) :
  reconnectTimeoutRef w = Some id →
  timers (cleanup w) !! id = None ∧ CClearTimeout id ∈ calls (cleanup w).
Proof.
  intros R. unfold cleanup. rewrite R.
  destruct (pcRef w) eqn:P; simpl; rewrite P; simpl;
    rewrite lookup_delete_eq; split; try done; set_solver.
Qed.

Lemma timer_inv_none (w : World) :
  timer_inv w → reconnectTimeoutRef w = None → timers w = ∅.
Proof.
  intros I R. apply map_eq. intros id. rewrite lookup_empty.
  by apply timer_inv_idle.
Qed.

Lemma cleanup_no_timer (w : World) : timer_inv w → timers (cleanup w) = ∅.
Proof.
  intros I. apply timer_inv_none; [| apply cleanup_refs].
  by apply (ev_inv _ _ (evolves_cleanup w)).
Qed.

(** C9.  The cleanup of the effect can be repeated: running it twice
    leaves the world of running it once, and on a panel that holds neither a
    connection nor a timer it changes nothing.  It has no failing step (it is
    a total function that leaves nothing uncaught).  Afterwards both
    references are cleared, the connection it held is closed, the timer it
    held is cancelled, and in any world the panel reaches no timer is
    pending; the same holds after [Unmount]. *)
Theorem teardown_idempotent :
  (∀ w, cleanup (cleanup w) = cleanup w)
  ∧ (∀ w, pcRef w = None → reconnectTimeoutRef w = None → cleanup w = w)
  ∧ (∀ init, cleanup (first_render init) = first_render init)
  ∧ (∀ w, reconnectTimeoutRef (cleanup w) = None ∧ pcRef (cleanup w) = None
          ∧ unhandled (cleanup w) = unhandled w)
  ∧ (∀ w pc p, pcRef w = Some pc → pcs w !! pc = Some p →
       pcs (cleanup w) !! pc = Some (with_closed p)
       ∧ closed (with_closed p) = true
       ∧ CClose pc ∈ calls (cleanup w))
  ∧ (∀ w id, reconnectTimeoutRef w = Some id →
       timers (cleanup w) !! id = None ∧ CClearTimeout id ∈ calls (cleanup w))
  ∧ (∀ w, reachable w → timers (cleanup w) = ∅)
  ∧ (∀ w w', reachable w → step Unmount w = Some w' →
       timers w' = ∅ ∧ reconnectTimeoutRef w' = None ∧ pcRef w' = None
       ∧ unhandled w' = []).
Proof.
  split; [intros w; apply cleanup_idle; apply cleanup_refs |].
  split; [apply cleanup_idle |].
  split; [done |].
  split; [intros w; split; [apply cleanup_refs | split;
            [apply cleanup_refs | apply cleanup_fields]] |].
  split; [intros w pc p P Hp;
          destruct (cleanup_closes w pc p P Hp); by repeat split |].
  split; [apply cleanup_cancels |].
  split.
  - intros w Hw. apply cleanup_no_timer. by apply reachable_inv.
  - intros w w' Hw H. simpl in H. destruct (mounted w); [| done].
    injection H as <-. simpl.
    destruct (reachable_inv w Hw) as (I & U & _).
    split; [by apply (cleanup_no_timer (set_interval None w)) |].
    split; [apply cleanup_refs |]. split; [apply cleanup_refs |].
    by rewrite (proj1 (proj2 (proj2 (proj2 (cleanup_fields _))))).
Qed.

(** C9 on a panel that holds its first connection and a retry timer. *)
Lemma teardown_idempotent_witness :
  match run [ConnectionStateChange 0 "failed"] (mount None no_faults) with
  | Some w => timers (cleanup w) = ∅ ∧ timers w ≠ ∅
              ∧ pcs (cleanup w) !! 0 ≫= (λ p, Some (closed p)) = Some true
  | None => False
  end.
Proof.
  destruct (run _ _) as [w|] eqn:E; [| vm_compute in E; discriminate].
  destruct teardown_idempotent as (_ & _ & _ & _ & _ & _ & Ht & _).
  split; [| split].
  - apply Ht. eapply reachable_run; [apply reachable_mount | exact E].
  - vm_compute in E. injection E as <-. by vm_compute.
  - vm_compute in E. injection E as <-. by vm_compute.
Defined.

(** ** The retry timer *)

Lemma retry_callback_fields (w : World) (id : nat) :
  mounted w = true →
  let w1 := retry_callback (set_timers (delete id (timers w)) w) in
  reconnectTimeoutRef w1 = None
  ∧ reconnectCount w1 = reconnectCount w + 1
  ∧ reconnectCountRef w1 = reconnectCountRef w + 1
  ∧ timers w1 = delete id (timers w)
  ∧ config w1 = config w ∧ mounted w1 = true ∧ now w1 = now w
  ∧ timer_seq w1 = timer_seq w
  ∧ deps w1 ≠ deps w.
Proof.
  intros Hm. unfold retry_callback, setReconnectCount, deps. simpl.
  rewrite Hm. simpl. repeat split; try done.
  intros [= H]. lia.
Qed.

Lemma rerender_same (f : Faults) (w : World) : rerender f (deps w) w = w.
Proof.
  unfold rerender. destruct (mounted w); [| done]. by rewrite decide_True.
Qed.

Lemma rerender_changed (f : Faults) (old : option string * option string * nat)
    (w : World) :
  mounted w = true → deps w ≠ old → rerender f old w = effect f (cleanup w).
Proof. intros Hm Hd. unfold rerender. by rewrite Hm, decide_False. Qed.

Lemma effect_connecting (w : World) :
  mounted w = true →
  JsString.truthy (cfg_url (config w)) = true →
  JsString.truthy (cfg_stream (config w)) = true →
  status (effect no_faults w) = "Connecting..."
  ∧ pcRef (effect no_faults w) = Some (length (pcs w))
  ∧ tasks (effect no_faults w)
    = tasks w ++ [Some {| t_pc := length (pcs w);
                          t_url := cfg_url (config w);
                          t_stream := cfg_stream (config w);
                          t_await := AwaitCreateOffer |}]
  ∧ now (effect no_faults w) = now w
  ∧ reconnectCount (effect no_faults w) = reconnectCount w
  ∧ reconnectTimeoutRef (effect no_faults w) = reconnectTimeoutRef w
  ∧ timers (effect no_faults w) = timers w.
Proof.
  intros Hm Hu Hs. rewrite effect_no_faults by done. cbn zeta.
  destruct (entered_fields w Hm) as (S & _ & _ & P & T & _ & _ & Ti & R & _).
  simpl. rewrite S, P, T, Ti, R. repeat split; try done.
  all: unfold entered, setError, setStatus; rewrite Hm; simpl; rewrite Hm; simpl;
    by destruct (pcRef w).
Qed.

(** ** The initial configuration *)

(** C10.  The configuration of the panel when it mounts is the persisted
    partial configuration spread over [DEFAULT_CONFIG]: a key the persisted
    state has keeps its value, any other key has its default.  With nothing
    persisted, or an empty object, the configuration is the default one,
    both fields are non-empty, and the first effect does not wait for
    configuration: it starts a connection attempt (status
    ["Connecting..."], a peer connection created and held, its offer
    requested).  The first attempt is for the url and the stream of that
    initial configuration. *)
Theorem initial_config_defaults_then_connect :
  (∀ init f, config (mount init f) = initial_config init)
  ∧ (∀ (persisted : gmap string string) (f : Faults) (k : string),
       config (mount (Some persisted) f) !! k
       = match persisted !! k with
         | Some v => Some v
         | None => DEFAULT_CONFIG !! k
         end)
  ∧ (∀ f, config (mount None f) = DEFAULT_CONFIG
          ∧ config (mount (Some ∅) f) = DEFAULT_CONFIG)
  ∧ cfg_url DEFAULT_CONFIG = Some "http://localhost:1984"
  ∧ cfg_stream DEFAULT_CONFIG = Some "cam1"
  ∧ JsString.truthy (cfg_url DEFAULT_CONFIG) = true
  ∧ JsString.truthy (cfg_stream DEFAULT_CONFIG) = true
  ∧ (∀ f, status (mount None f) ≠ "Waiting for config"
          ∧ status (mount (Some ∅) f) ≠ "Waiting for config")
  ∧ first_attempt_started (mount None no_faults)
  ∧ first_attempt_started (mount (Some ∅) no_faults)
  ∧ (∀ init, JsString.truthy (cfg_url (initial_config init)) = true →
       JsString.truthy (cfg_stream (initial_config init)) = true →
       status (mount init no_faults) = "Connecting..."
       ∧ pcRef (mount init no_faults) = Some 0
       ∧ tasks (mount init no_faults)
         = [Some {| t_pc := 0; t_url := cfg_url (initial_config init);
                    t_stream := cfg_stream (initial_config init);
                    t_await := AwaitCreateOffer |}]).
Proof.
  assert (∀ init f, config (mount init f) = initial_config init) as Hc
    by (intros init f; apply mount_fields).
  split; [exact Hc |].
  split; [intros p f k; rewrite Hc; apply initial_config_lookup |].
  split; [intros f; rewrite !Hc; split; [done | apply initial_config_empty] |].
  do 4 (split; [reflexivity |]).
  split; [| split; [| split]].
  - intros f. split; [apply mount_default_attempts |].
    unfold mount, first_render. rewrite initial_config_empty.
    apply (mount_default_attempts f).
  - by vm_compute.
  - unfold mount, first_render. rewrite initial_config_empty. by vm_compute.
  - intros init Hu Hs. unfold mount.
    destruct (effect_connecting (latency_effect (first_render init)))
      as (St & P & T & _); [done | done | done |].
    by rewrite St, P, T.
Qed.

(** C10 for a persisted url: the stream takes its default, and the first
    attempt is for the persisted url. *)
Lemma initial_config_defaults_then_connect_witness :
  let persisted : gmap string string := {[ "url" := "http://rover:1984" ]} in
  cfg_url (config (mount (Some persisted) no_faults))
  = Some "http://rover:1984"
  ∧ cfg_stream (config (mount (Some persisted) no_faults)) = Some "cam1"
  ∧ tasks (mount (Some persisted) no_faults)
    = [Some {| t_pc := 0; t_url := Some "http://rover:1984";
               t_stream := Some "cam1"; t_await := AwaitCreateOffer |}].
Proof.
  intros persisted.
  destruct initial_config_defaults_then_connect
    as (_ & Hk & _ & _ & _ & _ & _ & _ & _ & _ & Ha).
  split; [unfold cfg_url; by rewrite (Hk persisted no_faults "url") |].
  split; [unfold cfg_stream; by rewrite (Hk persisted no_faults "stream") |].
  destruct (Ha (Some persisted)) as (_ & _ & T); [by vm_compute.. |].
  rewrite T. by vm_compute.
Defined.

(** ** The expiry of the retry timer *)

Lemma cleanup_effects (w : World) :
  calls (cleanup w)
  = match pcRef w with Some pc => [CClose pc] | None => [] end
    ++ match reconnectTimeoutRef w with
       | Some id => [CClearTimeout id]
       | None => []
       end
    ++ calls w
  ∧ pcs (cleanup w) = match pcRef w with
                      | Some pc => alter with_closed pc (pcs w)
                      | None => pcs w
                      end
  ∧ timers (cleanup w) = match reconnectTimeoutRef w with
                         | Some id => delete id (timers w)
                         | None => timers w
                         end
  ∧ timer_seq (cleanup w) = timer_seq w
  ∧ videoRef (cleanup w) = videoRef w.
Proof.
  unfold cleanup.
  destruct (reconnectTimeoutRef w) eqn:R, (pcRef w) eqn:P; simpl;
    rewrite ?P, ?R; simpl; done.
Qed.

Lemma incomplete_empty (c : gmap string string) :
  cfg_url c = Some "" ∨ cfg_stream c = Some "" → incomplete c.
Proof. intros [H|H]; [left | right]; by rewrite H. Qed.

Lemma rerender_incomplete (f : Faults)
    (old : option string * option string * nat) (w : World) :
  incomplete (config w) →
  length (pcs (rerender f old w)) = length (pcs w)
  ∧ tasks (rerender f old w) = tasks w
  ∧ (mounted w = true → deps w ≠ old →
     rerender f old w = set_status "Waiting for config" (cleanup w)
     ∧ status (rerender f old w) = "Waiting for config"
     ∧ pcRef (rerender f old w) = None
     ∧ reconnectTimeoutRef (rerender f old w) = None).
Proof.
  intros Hc.
  destruct (cleanup_fields w) as (C & M & _ & _ & _ & _ & _ & T & L).
  destruct (cleanup_refs w) as (R & P).
  assert (effect f (cleanup w) = setStatus "Waiting for config" (cleanup w))
    as He by (apply effect_waiting; by rewrite C).
  unfold rerender. destruct (mounted w) eqn:Hm.
  - destruct (decide (deps w = old)) as [Hd|Hd].
    + split; [done |]. split; [done |]. by intros _ Hd'.
    + rewrite He. unfold setStatus. rewrite M. simpl.
      by rewrite L, T, R, P.
  - split; [done |]. split; [done |]. by intros Hm'.
Qed.

(** A timer that has fired stays gone: its id is never issued again. *)
Lemma timer_gone (w w' : World) (id : nat) (evs : list Event) :
  timers w !! id = None → id < timer_seq w → run evs w = Some w' →
  timers w' !! id = None.
Proof.
  intros Hn Hlt Hrun. destruct (run_evolves evs w w' Hrun) as [_ _ _ T _ _].
  destruct (timers w' !! id) as [due|] eqn:E; [| done].
  destruct (T id due E) as [H|[H _]]; [congruence | lia].
Qed.

(** The claim C5 as it is stated fails for a failure of a run that is no
    longer wanted.  When the url was cleared while the request was in
    flight, the failure arms the timer, and its expiry counts one more
    attempt but connects nothing: the panel waits for configuration.  When
    the panel was unmounted, the failure arms the timer as well, and its
    expiry clears the flag without counting: the state update is dropped. *)
Lemma retry_without_reconnect :
  ¬ retry_always_reconnects
  ∧ match run fetch_in_flight_url_cleared (mount None no_faults) with
    | Some w =>
        reconnectTimeoutRef w = None
        ∧ match run [Settle 0 (Rejected (ErrorObj "Failed to fetch"));
                     Elapse RETRY_DELAY; TimerFires 1 no_faults] w with
          | Some w3 =>
              status w3 = "Waiting for config" ∧ reconnectCount w3 = 1
              ∧ pcRef w3 = None ∧ length (pcs w3) = 1
          | None => False
          end
    | None => False
    end
  ∧ match run (fetch_in_flight_unmounted
               ++ [Settle 0 (Rejected (ErrorObj "Failed to fetch"));
                   Elapse RETRY_DELAY; TimerFires 1 no_faults])
              (mount None no_faults) with
    | Some w3 =>
        mounted w3 = false ∧ reconnectCount w3 = 0
        ∧ reconnectCountRef w3 = 1 ∧ reconnectTimeoutRef w3 = None
    | None => False
    end.
Proof.
  destruct (run fetch_in_flight_url_cleared (mount None no_faults))
    as [w|] eqn:E; [| vm_compute in E; discriminate].
  assert (reachable w) as Hw
    by (eapply reachable_run; [apply reachable_mount | exact E]).
  vm_compute in E. injection E as E.
  assert (reconnectTimeoutRef w = None) as R by (by subst w).
  split; [| split].
  - intros H.
    destruct (step (Settle 0 (Rejected (ErrorObj "Failed to fetch"))) w)
      as [w1|] eqn:E1; [| subst w; vm_compute in E1; discriminate].
    destruct (step (Elapse RETRY_DELAY) w1) as [w2|] eqn:E2; [| done].
    destruct (step (TimerFires (timer_seq w) no_faults) w2) as [w3|] eqn:E3.
    + destruct (H w 0 _ w1 w2 w3 Hw R E1 E2 E3) as (_ & _ & St).
      subst w. vm_compute in E1. injection E1 as <-.
      vm_compute in E2. injection E2 as <-.
      vm_compute in E3. injection E3 as <-.
      vm_compute in St. discriminate.
    + subst w. vm_compute in E1. injection E1 as <-.
      vm_compute in E2. injection E2 as <-.
      vm_compute in E3. discriminate.
  - split; [exact R |]. subst w. by vm_compute.
  - by vm_compute.
Qed.

(** C5 (amended).  The retry timer.  [triggerReconnect], when no retry is
    pending, arms a timer that is due 2000 ms after the current time.
    Through any events that follow, this timer cannot fire before that
    time.  When it fires, on a mounted panel, its callback clears
    [reconnectTimeoutRef], adds one to [reconnectCount] (and to
    [reconnectCountRef]) and changes nothing else the effect depends on;
    this change of [reconnectCount] is what makes the render run the cleanup
    and the effect again (a render with unchanged dependencies runs
    nothing), which with a complete configuration sets the status to
    ["Connecting..."] at the time of the expiry.  The timer is removed when
    it fires and cannot fire again.  With an incomplete configuration the
    expiry counts the attempt and the panel waits for configuration; on a
    panel that is no longer mounted the expiry clears the flag and counts
    nothing; a timer that the cleanup cancelled never fires. *)
Theorem retry_after_two_seconds :
  RETRY_DELAY = 2000
  ∧ (∀ w, reconnectTimeoutRef w = None →
       reconnectTimeoutRef (triggerReconnect w) = Some (timer_seq w)
       ∧ timers (triggerReconnect w) !! timer_seq w = Some (now w + 2000))
  ∧ (∀ w evs w1 f w2, reconnectTimeoutRef w = None →
       run evs (triggerReconnect w) = Some w1 →
       step (TimerFires (timer_seq w) f) w1 = Some w2 →
       now w + 2000 ≤ now w1)
  ∧ (∀ w id due f, timers w !! id = Some due → now w < due →
       step (TimerFires id f) w = None)
  ∧ (∀ w id due f, mounted w = true → timers w !! id = Some due →
       due ≤ now w →
       let w1 := retry_callback (set_timers (delete id (timers w)) w) in
       step (TimerFires id f) w = Some (effect f (cleanup w1))
       ∧ reconnectTimeoutRef w1 = None
       ∧ reconnectCount w1 = reconnectCount w + 1
       ∧ reconnectCountRef w1 = reconnectCountRef w + 1
       ∧ config w1 = config w
       ∧ deps w1 ≠ deps w)
  ∧ (∀ w f, rerender f (deps w) w = w)
  ∧ (∀ w id due, mounted w = true → timers w !! id = Some due →
       due ≤ now w →
       JsString.truthy (cfg_url (config w)) = true →
       JsString.truthy (cfg_stream (config w)) = true →
       ∃ w', step (TimerFires id no_faults) w = Some w'
         ∧ status w' = "Connecting..."
         ∧ now w' = now w
         ∧ reconnectCount w' = reconnectCount w + 1
         ∧ reconnectTimeoutRef w' = None
         ∧ pcRef w' = Some (length (pcs w)))
  ∧ (∀ w id f w' evs w'' f', reachable w →
       step (TimerFires id f) w = Some w' → run evs w' = Some w'' →
       step (TimerFires id f') w'' = None)
  ∧ (∀ w id due f, mounted w = true → timers w !! id = Some due →
       due ≤ now w → incomplete (config w) →
       ∃ w', step (TimerFires id f) w = Some w'
         ∧ status w' = "Waiting for config"
         ∧ reconnectCount w' = reconnectCount w + 1
         ∧ reconnectTimeoutRef w' = None ∧ pcRef w' = None
         ∧ length (pcs w') = length (pcs w) ∧ tasks w' = tasks w)
  ∧ (∀ w id due f, mounted w = false → timers w !! id = Some due →
       due ≤ now w →
       ∃ w', step (TimerFires id f) w = Some w'
         ∧ reconnectTimeoutRef w' = None
         ∧ reconnectCount w' = reconnectCount w
         ∧ reconnectCountRef w' = reconnectCountRef w + 1
         ∧ status w' = status w ∧ pcRef w' = pcRef w
         ∧ pcs w' = pcs w ∧ tasks w' = tasks w ∧ calls w' = calls w)
  ∧ (∀ w id due evs w' f, reachable w → timers w !! id = Some due →
       run evs (cleanup w) = Some w' → step (TimerFires id f) w' = None).
Proof.
  split; [done |].
  split; [| split; [| split; [| split; [| split; [| split; [| split;
    [| split; [| split]]]]]]]].
  - intros w R. destruct (triggerReconnect_idle_fields w R) as (R' & T & _).
    split; [done |]. by rewrite T, lookup_insert_eq.
  - intros w evs w1 f w2 R Hrun Hfire.
    destruct (triggerReconnect_idle_fields w R) as (_ & T & _ & _ & S & _).
    simpl in Hfire.
    destruct (timers w1 !! timer_seq w) as [due|] eqn:E; [| done].
    destruct (due <=? now w1) eqn:Hdue; [| done]. apply Nat.leb_le in Hdue.
    destruct (run_evolves evs _ w1 Hrun) as [_ _ _ T1 _ _].
    destruct (T1 _ _ E) as [H|[H _]]; [| lia].
    rewrite T, lookup_insert_eq in H. unfold RETRY_DELAY in H.
    injection H as <-. lia.
  - intros w id due f Hid Hlt. simpl. rewrite Hid.
    by replace (due <=? now w) with false
      by (symmetry; apply Nat.leb_gt; lia).
  - intros w id due f Hm Hid Hle.
    destruct (retry_callback_fields w id Hm) as (R & C & CR & _ & Cf & M & _ & _ & D).
    cbn zeta. simpl step. rewrite Hid.
    replace (due <=? now w) with true by (symmetry; by apply Nat.leb_le).
    by rewrite rerender_changed.
  - intros w f. apply rerender_same.
  - intros w id due Hm Hid Hle Hu Hs.
    destruct (retry_callback_fields w id Hm)
      as (R & C & CR & _ & Cf & M & N & _ & D).
    set (w1 := retry_callback _) in *.
    destruct (cleanup_fields w1) as (Cf' & M' & C' & _ & N' & _ & _ & _ & L').
    destruct (cleanup_refs w1) as (R' & _).
    destruct (effect_connecting (cleanup w1)) as (S & P & _ & N'' & C'' & R'' & _).
    { by rewrite M'. } { by rewrite Cf', Cf. } { by rewrite Cf', Cf. }
    exists (effect no_faults (cleanup w1)). split.
    + simpl step. rewrite Hid.
      replace (due <=? now w) with true by (symmetry; by apply Nat.leb_le).
      by rewrite rerender_changed.
    + rewrite S, N'', C'', R'', P, N', C', R', L', N, C.
      repeat split; try done. subst w1. unfold retry_callback, setReconnectCount.
      simpl. by rewrite Hm.
  - intros w id f w' evs w'' f' Hw Hfire Hrun.
    destruct (reachable_inv w Hw) as (_ & _ & Hfresh).
    simpl in Hfire. destruct (timers w !! id) as [due|] eqn:Hid; [| done].
    destruct (due <=? now w); [| done]. injection Hfire as <-.
    specialize (Hfresh id due Hid).
    set (w1 := retry_callback _) in *.
    assert (timers w1 !! id = None ∧ timer_seq w1 = timer_seq w) as (Hn & Hs).
    { subst w1. unfold retry_callback, setReconnectCount. simpl.
      destruct (mounted w); simpl; by rewrite lookup_delete_eq. }
    destruct (evolves_rerender f (deps w) w1) as [_ _ Sq T _ _].
    assert (timers w'' !! id = None) as Hgone.
    { apply (timer_gone (rerender f (deps w) w1) w'' id evs); [| lia | done].
      destruct (timers (rerender f (deps w) w1) !! id) as [d|] eqn:E; [| done].
      destruct (T id d E) as [H|[H _]]; [congruence | lia]. }
    simpl. by rewrite Hgone.
  - intros w id due f Hm Hid Hle Hc.
    destruct (retry_callback_fields w id Hm)
      as (R & C & _ & _ & Cf & M & _ & _ & D).
    set (w1 := retry_callback _) in *.
    assert (pcs w1 = pcs w ∧ tasks w1 = tasks w) as (P1 & T1).
    { subst w1. unfold retry_callback, setReconnectCount. simpl.
      by rewrite Hm. }
    destruct (rerender_incomplete f (deps w) w1) as (L & T & H);
      [by rewrite Cf |].
    destruct (H M D) as (_ & St & P & R').
    destruct (cleanup_fields w1) as (_ & M' & C' & _).
    exists (rerender f (deps w) w1). split.
    { simpl step. rewrite Hid.
      by replace (due <=? now w) with true by (symmetry; by apply Nat.leb_le). }
    rewrite St, P, R', L, T, P1, T1. repeat split; try done.
    rewrite rerender_changed by done.
    rewrite effect_waiting by (by rewrite (proj1 (cleanup_fields w1)), Cf).
    unfold setStatus. rewrite M', M. simpl. by rewrite C', C.
  - intros w id due f Hm Hid Hle.
    eexists. split.
    { simpl step. rewrite Hid.
      replace (due <=? now w) with true by (symmetry; by apply Nat.leb_le).
      reflexivity. }
    unfold rerender, retry_callback, setReconnectCount. simpl.
    rewrite Hm. simpl. by rewrite Hm.
  - intros w id due evs w' f Hw Hid Hrun.
    destruct (reachable_inv w Hw) as (I & _ & Hfresh).
    assert (timers w' !! id = None) as Hgone.
    { apply (timer_gone (cleanup w) w' id evs); [| | done].
      - by rewrite (cleanup_no_timer w I).
      - destruct (cleanup_effects w) as (_ & _ & _ & -> & _).
        by eapply Hfresh. }
    simpl. by rewrite Hgone.
Qed.

(** C5 after an offer that failed at time 0: the timer fires at 2000. *)
Lemma retry_after_two_seconds_witness :
  match run [Settle 0 (Rejected (ErrorObj "no offer")); Elapse 2000]
            (mount None no_faults) with
  | Some w => ∃ w', step (TimerFires 1 no_faults) w = Some w'
                    ∧ status w' = "Connecting..."
                    ∧ reconnectCount w' = 1
  | None => False
  end.
Proof.
  destruct (run _ _) as [w|] eqn:E; vm_compute in E; [| discriminate].
  injection E as <-.
  destruct retry_after_two_seconds as (_ & _ & _ & _ & _ & _ & H & _).
  match goal with
  | |- ∃ w', step _ ?w = _ ∧ _ =>
      destruct (H w 1 2000 eq_refl eq_refl ltac:(simpl; lia) eq_refl eq_refl)
        as (w' & Hs & St & _ & C & _)
  end.
  exists w'. split; [exact Hs |]. split; [exact St | exact C].
Defined.

(** ** Results that arrive after teardown *)

Lemma caught_frame (e : Thrown) (w : World) :
  pcRef (caught e w) = pcRef w ∧ pcs (caught e w) = pcs w
  ∧ tasks (caught e w) = tasks w.
Proof.
  unfold caught, triggerReconnect, setStatus, setError. simpl.
  destruct (mounted w) eqn:Hm; simpl; rewrite ?Hm; simpl;
    destruct (reconnectTimeoutRef w); simpl; rewrite ?Hm; done.
Qed.

Lemma alter_keeps_closed (f : PeerConnection → PeerConnection) (i : nat)
    (l : list PeerConnection) :
  (∀ p, closed (f p) = closed p) →
  ∀ pc p, l !! pc = Some p →
    ∃ p', alter f i l !! pc = Some p' ∧ closed p' = closed p.
Proof.
  intros Hf pc p Hp. destruct (decide (i = pc)) as [->|Hne].
  - exists (f p). by rewrite list_lookup_alter_eq, Hp.
  - exists p. by rewrite list_lookup_alter_ne.
Qed.

(** The continuation of a run creates no connection, opens or closes none,
    does not write [pcRef] and starts no run. *)
Lemma settle_frame (w w' : World) (tid : nat) (r : Settled) :
  step (Settle tid r) w = Some w' →
  pcRef w' = pcRef w ∧ length (pcs w') = length (pcs w)
  ∧ length (tasks w') = length (tasks w)
  ∧ ∀ pc p, pcs w !! pc = Some p →
      ∃ p', pcs w' !! pc = Some p' ∧ closed p' = closed p.
Proof.
  intros H.
  destruct (tasks w !! tid) as [[t|]|] eqn:Ht;
    [| by simpl in H; rewrite Ht in H ..].
  assert (∀ pc p, pcs w !! pc = Some p →
            ∃ p', pcs w !! pc = Some p' ∧ closed p' = closed p) as Hid
    by (intros pc p Hp; by exists p).
  assert (∀ e, w' = finish tid (caught e w) →
            pcRef w' = pcRef w ∧ length (pcs w') = length (pcs w)
            ∧ length (tasks w') = length (tasks w)
            ∧ ∀ pc p, pcs w !! pc = Some p →
                ∃ p', pcs w' !! pc = Some p' ∧ closed p' = closed p) as Hcaught.
  { intros e ->. destruct (caught_frame e w) as (P' & L' & T').
    simpl. by rewrite length_insert, P', L', T'. }
  destruct r as [offer| |r|answer| |e].
  - destruct (t_await t) eqn:Ha;
      try (by simpl in H; rewrite Ht in H;
           unfold setupWebRTC_resume, segment in H; rewrite Ha in H).
    rewrite (settle_offer w tid t Ht offer Ha) in H. injection H as <-.
    simpl. by rewrite length_insert.
  - destruct (t_await t) eqn:Ha;
      try (by simpl in H; rewrite Ht in H;
           unfold setupWebRTC_resume, segment in H; rewrite Ha in H).
    destruct (t_url t) as [url|] eqn:Hu.
    + rewrite (settle_local w tid t Ht _ url Ha Hu) in H. injection H as <-.
      simpl. rewrite length_insert, length_alter.
      repeat split; try done. by apply alter_keeps_closed.
    + simpl in H. rewrite Ht in H.
      unfold setupWebRTC_resume, segment, browser_commit in H.
      rewrite Ha, Hu in H. injection H as <-.
      destruct (caught_frame (ErrorObj "TypeError")
                  (set_pc (t_pc t) (with_localDescription offer) w))
        as (P' & L' & T').
      change (continue _ _ _)
        with (finish tid (caught (ErrorObj "TypeError")
                (set_pc (t_pc t) (with_localDescription offer) w))).
      simpl. rewrite length_insert, P', L', T'. simpl.
      rewrite length_alter. repeat split; try done.
      by apply alter_keeps_closed.
  - destruct (t_await t) eqn:Ha;
      try (by simpl in H; rewrite Ht in H;
           unfold setupWebRTC_resume, segment in H; rewrite Ha in H).
    destruct (ok r) eqn:Hr.
    + rewrite (settle_fetch_ok w tid t Ht r Ha Hr) in H. injection H as <-.
      simpl. by rewrite length_insert.
    + rewrite (settle_fetch_failed w tid t Ht r Ha Hr) in H.
      injection H as <-. by eapply Hcaught.
  - destruct (t_await t) eqn:Ha;
      try (by simpl in H; rewrite Ht in H;
           unfold setupWebRTC_resume, segment in H; rewrite Ha in H).
    rewrite (settle_text w tid t Ht answer Ha) in H. injection H as <-.
    simpl. by rewrite length_insert.
  - destruct (t_await t) eqn:Ha;
      try (by simpl in H; rewrite Ht in H;
           unfold setupWebRTC_resume, segment in H; rewrite Ha in H).
    rewrite (settle_remote w tid t Ht _ Ha) in H. injection H as <-.
    unfold setStatus. simpl. destruct (mounted w); simpl;
      rewrite length_insert, length_alter;
      (repeat split; try done); by apply alter_keeps_closed.
  - rewrite (settle_rejected w tid t Ht e) in H. injection H as <-.
    by eapply Hcaught.
Qed.

(** The claim C6 as it is stated fails.  The stream is changed while the
    first attempt waits for the signaling response: the cleanup closes
    connection 0 and the new attempt (connection 1) shows
    ["Connecting..."].  The old run is not cancelled; when its
    [setRemoteDescription] on the closed connection rejects, the [catch]
    block of the old run records the error, and arms a retry timer while the
    new attempt is still connecting; had it fulfilled, the old run would
    have set the status to ["Connected"]. *)
Lemma stale_result_drives_the_panel :
  ¬ stale_results_ignored
  ∧ match run late_answer (mount None no_faults) with
    | Some w =>
        stale 0 w ∧ status w = "Connecting..." ∧ pcRef w = Some 1
        ∧ reconnectTimeoutRef w = None
        ∧ (∃ w', step (Settle 0 (Rejected (ErrorObj "InvalidStateError"))) w
                 = Some w'
                 ∧ status w' = "Retrying in 2s..."
                 ∧ error w' = Some "InvalidStateError"
                 ∧ reconnectTimeoutRef w' = Some 1
                 ∧ timers w' !! 1 = Some 2000)
        ∧ (∃ w', step (Settle 0 RemoteDescriptionSet) w = Some w'
                 ∧ status w' = "Connected")
    | None => False
    end.
Proof.
  destruct (run late_answer (mount None no_faults)) as [w|] eqn:E;
    [| vm_compute in E; discriminate].
  assert (reachable w) as Hw
    by (eapply reachable_run; [apply reachable_mount | exact E]).
  vm_compute in E. injection E as E.
  assert (stale 0 w) as Hs.
  { subst w. eexists _, _. split; [reflexivity |]. split; [reflexivity |].
    split; [reflexivity | discriminate]. }
  split.
  - intros H.
    destruct (step (Settle 0 (Rejected (ErrorObj "InvalidStateError"))) w)
      as [w'|] eqn:E'; [| subst w; vm_compute in E'; discriminate].
    specialize (H w 0 _ w' Hw Hs E').
    subst w. vm_compute in E'. injection E' as <-.
    vm_compute in H. discriminate.
  - split; [exact Hs |]. subst w.
    split; [reflexivity |]. split; [reflexivity |]. split; [reflexivity |].
    split; eexists; (split; [reflexivity |]); by vm_compute.
Qed.

(** C6 (amended).  The continuation of a run is executed whether or not
    the run is stale.  It does not re-establish a session: it does not write
    [pcRef], creates no connection, starts no run and leaves the closed flag
    of every connection as it is.  But on a mounted panel it acts on the
    display and the scheduler like any other result: a rejection, or a
    response that is not [ok], records its message as the error, sets the
    status to ["Error"] and calls [triggerReconnect], after which a retry is
    pending; a fulfilled [setRemoteDescription] sets the status to
    ["Connected"]. *)
Theorem stale_result_effects :
  (∀ w w' tid r, step (Settle tid r) w = Some w' →
     pcRef w' = pcRef w ∧ length (pcs w') = length (pcs w)
     ∧ length (tasks w') = length (tasks w)
     ∧ ∀ pc p, pcs w !! pc = Some p →
         ∃ p', pcs w' !! pc = Some p' ∧ closed p' = closed p)
  ∧ (∀ w tid t e, mounted w = true → tasks w !! tid = Some (Some t) →
       step (Settle tid (Rejected e)) w = Some (finish tid (caught e w))
       ∧ error (finish tid (caught e w)) = Some (err_text e)
       ∧ is_Some (reconnectTimeoutRef (finish tid (caught e w)))
       ∧ status (finish tid (caught e w))
         = match reconnectTimeoutRef w with
           | Some _ => "Error"
           | None => "Retrying in 2s..."
           end)
  ∧ (∀ w tid t r, mounted w = true → tasks w !! tid = Some (Some t) →
       t_await t = AwaitFetch → ok r = false →
       step (Settle tid (Fetched r)) w
       = Some (finish tid (caught (signaling_error r) w))
       ∧ error (finish tid (caught (signaling_error r) w))
         = Some ("Failed to connect to go2rtc: " +:+ statusText r)
       ∧ is_Some (reconnectTimeoutRef
                    (finish tid (caught (signaling_error r) w))))
  ∧ (∀ w tid t answer, mounted w = true → tasks w !! tid = Some (Some t) →
       t_await t = AwaitSetRemoteDescription answer →
       ∃ w', step (Settle tid RemoteDescriptionSet) w = Some w'
             ∧ status w' = "Connected").
Proof.
  split; [intros w w' tid r; apply settle_frame |].
  split; [| split].
  - intros w tid t e Hm Ht. split; [by eapply settle_rejected |].
    destruct (caught_fields e w Hm) as (E & R & S & _). by simpl.
  - intros w tid t r Hm Ht Ha Hr. split; [by eapply settle_fetch_failed |].
    destruct (caught_fields (signaling_error r) w Hm) as (E & R & _).
    by simpl.
  - intros w tid t answer Hm Ht Ha. eexists.
    split; [by eapply settle_remote |].
    unfold setStatus. simpl. by rewrite Hm.
Qed.

(** C6 (amended) at the late answer of the first attempt, after the stream
    was changed. *)
Lemma stale_result_effects_witness :
  match run late_answer (mount None no_faults) with
  | Some w =>
      ∃ w', step (Settle 0 (Rejected (ErrorObj "InvalidStateError"))) w
            = Some w'
            ∧ pcRef w' = Some 1 ∧ error w' = Some "InvalidStateError"
  | None => False
  end.
Proof.
  destruct (run late_answer (mount None no_faults)) as [w|] eqn:E;
    vm_compute in E; [| discriminate].
  injection E as <-.
  destruct stale_result_effects as (Hframe & Hrej & _).
  match goal with
  | |- ∃ w', step _ ?w = _ ∧ _ =>
      destruct (Hrej w 0 _ (ErrorObj "InvalidStateError") eq_refl eq_refl)
        as (Hstep & He & _);
      destruct (Hframe w _ 0 _ Hstep) as (Hp & _)
  end.
  eexists. split; [exact Hstep |]. split; [exact Hp | exact He].
Defined.

(** ** The settings editor *)

Lemma spread_empty (c : gmap string string) : spread c ∅ = c.
Proof. unfold spread. apply (left_id_L ∅ (∪)). Qed.

Lemma settings_update_url (path : list string) (v : string)
    (c : gmap string string) :
  path !! 0 = Some "general" → path !! 1 = Some "url" →
  settings_update path v c = <["url" := v]> c.
Proof.
  intros H0 H1. unfold settings_update. rewrite spread_empty.
  by rewrite decide_True.
Qed.

Lemma settings_update_stream (path : list string) (v : string)
    (c : gmap string string) :
  path !! 0 = Some "general" → path !! 1 = Some "stream" →
  settings_update path v c = <["stream" := v]> c.
Proof.
  intros H0 H1. unfold settings_update. rewrite spread_empty.
  rewrite decide_False by (intros [_ H]; congruence).
  by rewrite decide_True.
Qed.

Lemma settings_update_other (path : list string) (v : string)
    (c : gmap string string) :
  path !! 0 ≠ Some "general"
  ∨ (path !! 1 ≠ Some "url" ∧ path !! 1 ≠ Some "stream") →
  settings_update path v c = c.
Proof.
  intros H. unfold settings_update. rewrite spread_empty.
  rewrite !decide_False; [done | |]; intros [H0 H1]; destruct H as [H|[Hu Hs]];
    congruence.
Qed.

(** The handler and the tree agree: an update of the field the tree shows at
    [general/url] or [general/stream] makes the tree show the new value
    there and keeps the value of the other field and every other key of the
    configuration; components of the path after the second are ignored; an
    update at any other path leaves the configuration as it is. *)
Theorem settings_edit_round_trip :
  (∀ path v c, path !! 0 = Some "general" → path !! 1 = Some "url" →
     shown_value (settingsTree (settings_update path v c)) "general" "url"
     = Some v
     ∧ shown_value (settingsTree (settings_update path v c)) "general" "stream"
       = shown_value (settingsTree c) "general" "stream"
     ∧ ∀ k, k ≠ "url" → settings_update path v c !! k = c !! k)
  ∧ (∀ path v c, path !! 0 = Some "general" → path !! 1 = Some "stream" →
       shown_value (settingsTree (settings_update path v c)) "general" "stream"
       = Some v
       ∧ shown_value (settingsTree (settings_update path v c)) "general" "url"
         = shown_value (settingsTree c) "general" "url"
       ∧ ∀ k, k ≠ "stream" → settings_update path v c !! k = c !! k)
  ∧ (∀ path v c,
       path !! 0 ≠ Some "general"
       ∨ (path !! 1 ≠ Some "url" ∧ path !! 1 ≠ Some "stream") →
       settings_update path v c = c)
  ∧ (∀ c, shown_value (settingsTree c) "general" "url" = cfg_url c
          ∧ shown_value (settingsTree c) "general" "stream" = cfg_stream c).
Proof.
  assert (∀ c, shown_value (settingsTree c) "general" "url" = cfg_url c
               ∧ shown_value (settingsTree c) "general" "stream" = cfg_stream c)
    as Hshown.
  { intros c. unfold shown_value, settingsTree.
    rewrite lookup_singleton_eq. simpl.
    rewrite lookup_insert_eq, lookup_insert_ne, lookup_insert_eq by done.
    done. }
  split; [| split; [| split; [apply settings_update_other | exact Hshown]]].
  - intros path v c H0 H1. rewrite settings_update_url by done.
    rewrite !(proj1 (Hshown _)), !(proj2 (Hshown _)).
    unfold cfg_url, cfg_stream. rewrite lookup_insert_eq.
    split; [done |]. split; [by rewrite lookup_insert_ne |].
    intros k Hk. by rewrite lookup_insert_ne.
  - intros path v c H0 H1. rewrite settings_update_stream by done.
    rewrite !(proj1 (Hshown _)), !(proj2 (Hshown _)).
    unfold cfg_url, cfg_stream. rewrite lookup_insert_eq.
    split; [done |]. split; [by rewrite lookup_insert_ne |].
    intros k Hk. by rewrite lookup_insert_ne.
Qed.

(** The round trip at an edit of the stream of the default configuration,
    with a path of three components. *)
Lemma settings_edit_round_trip_witness :
  shown_value
    (settingsTree (settings_update ["general"; "stream"; "x"] "cam2"
                     DEFAULT_CONFIG))
    "general" "stream" = Some "cam2".
Proof.
  apply (proj1 (proj2 settings_edit_round_trip)
           ["general"; "stream"; "x"] "cam2" DEFAULT_CONFIG eq_refl eq_refl).
Defined.

(** An update that changes neither the url nor the stream (a path the
    handler does not know, or the value the field already has) keeps the
    session: the render that follows runs neither the cleanup nor the
    effect, so no connection is closed or created, no timer is cancelled,
    no run is started and no browser call is made. *)
Theorem settings_update_without_change (w : World) (path : list string)
    (v : string) (f : Faults) :
  mounted w = true →
  cfg_url (settings_update path v (config w)) = cfg_url (config w) →
  cfg_stream (settings_update path v (config w)) = cfg_stream (config w) →
  step (SettingsUpdate path v f) w
  = Some (set_config (settings_update path v (config w)) w)
  ∧ ∀ w', step (SettingsUpdate path v f) w = Some w' →
      pcs w' = pcs w ∧ pcRef w' = pcRef w ∧ timers w' = timers w
      ∧ reconnectTimeoutRef w' = reconnectTimeoutRef w
      ∧ tasks w' = tasks w ∧ calls w' = calls w ∧ status w' = status w.
Proof.
  intros Hm Hu Hs.
  assert (step (SettingsUpdate path v f) w
          = Some (set_config (settings_update path v (config w)) w)) as E.
  { simpl. rewrite Hm. unfold setConfig, rerender. rewrite Hm. simpl.
    rewrite Hm. rewrite decide_True; [done |].
    unfold deps. simpl. by rewrite Hu, Hs. }
  split; [exact E |]. intros w' H. rewrite E in H. by injection H as <-.
Qed.

Lemma settings_update_without_change_witness :
  step (SettingsUpdate ["general"; "stream"] "cam1" no_faults)
       (mount None no_faults)
  = Some (set_config (settings_update ["general"; "stream"] "cam1"
                        (config (mount None no_faults)))
            (mount None no_faults)).
Proof.
  apply (settings_update_without_change (mount None no_faults)
           ["general"; "stream"] "cam1" no_faults eq_refl).
  - by vm_compute.
  - by vm_compute.
Defined.

(** ** Restarting the session *)

Lemma entered_idle (w : World) :
  mounted w = true → pcRef w = None →
  entered w = set_error None (set_status "Connecting..." w).
Proof.
  intros Hm P. unfold entered, setError, setStatus. rewrite Hm. simpl.
  rewrite Hm. simpl. by rewrite P.
Qed.

(** The cleanup followed by the effect, when nothing throws before the first
    [await]. *)
Lemma restart_fields (w : World) :
  mounted w = true →
  JsString.truthy (cfg_url (config w)) = true →
  JsString.truthy (cfg_stream (config w)) = true →
  let w' := effect no_faults (cleanup w) in
  let pc := length (pcs w) in
  status w' = "Connecting..." ∧ error w' = None ∧ pcRef w' = Some pc
  ∧ pcs w' = pcs (cleanup w) ++ [receiving_pc]
  ∧ tasks w' = tasks w ++ [Some {| t_pc := pc; t_url := cfg_url (config w);
                                   t_stream := cfg_stream (config w);
                                   t_await := AwaitCreateOffer |}]
  ∧ calls w' = [CCreateOffer pc; CAddTransceiver pc "audio" "recvonly";
                CAddTransceiver pc "video" "recvonly"; CNewPeerConnection pc]
               ++ calls (cleanup w)
  ∧ timers w' = timers (cleanup w) ∧ reconnectTimeoutRef w' = None
  ∧ reconnectCount w' = reconnectCount w ∧ now w' = now w
  ∧ timer_seq w' = timer_seq w ∧ mounted w' = true ∧ config w' = config w
  ∧ videoRef w' = videoRef w.
Proof.
  intros Hm Hu Hs.
  destruct (cleanup_fields w) as (Cf & M & C & _ & N & _ & _ & T & L).
  destruct (cleanup_refs w) as (R & P).
  destruct (cleanup_effects w) as (_ & _ & _ & Sq & V).
  cbn zeta. rewrite effect_no_faults by by rewrite Cf.
  rewrite entered_idle by (by rewrite ?M). cbn zeta. simpl.
  rewrite L, T, Cf, R, C, N, Sq, M, V. done.
Qed.

Lemma step_settings_changed (w : World) (path : list string) (v : string)
    (f : Faults) :
  mounted w = true →
  (cfg_url (settings_update path v (config w)) ≠ cfg_url (config w)
   ∨ cfg_stream (settings_update path v (config w)) ≠ cfg_stream (config w)) →
  step (SettingsUpdate path v f) w
  = Some (effect f (cleanup (set_config (settings_update path v (config w)) w))).
Proof.
  intros Hm Hd. simpl. rewrite Hm. unfold setConfig. rewrite Hm.
  rewrite rerender_changed; [done | done |].
  unfold deps. simpl. intros [= Hu Hs]. destruct Hd; congruence.
Qed.

(** A change of the stream while a connection is held: the cleanup closes
    the held connection, once, before the new connection is created (the
    effect finds [pcRef] cleared and closes nothing again); the new attempt
    is for the new stream and shows ["Connecting..."]. *)
Theorem stream_change_closes_once (w : World) (pc : nat) (p : PeerConnection)
    (url v : string) :
  mounted w = true → pcRef w = Some pc → pcs w !! pc = Some p →
  cfg_url (config w) = Some url → url ≠ "" → v ≠ "" →
  cfg_stream (config w) ≠ Some v →
  ∃ w', step (SettingsUpdate ["general"; "stream"] v no_faults) w = Some w'
    ∧ status w' = "Connecting..."
    ∧ pcs w' !! pc = Some (with_closed p)
    ∧ pcRef w' = Some (length (pcs w))
    ∧ pcs w' !! length (pcs w) = Some receiving_pc
    ∧ tasks w' = tasks w ++ [Some {| t_pc := length (pcs w);
                                     t_url := Some url; t_stream := Some v;
                                     t_await := AwaitCreateOffer |}]
    ∧ calls w'
      = [CCreateOffer (length (pcs w));
         CAddTransceiver (length (pcs w)) "audio" "recvonly";
         CAddTransceiver (length (pcs w)) "video" "recvonly";
         CNewPeerConnection (length (pcs w));
         CClose pc]
        ++ match reconnectTimeoutRef w with
           | Some id => [CClearTimeout id]
           | None => []
           end
        ++ calls w
    ∧ reconnectTimeoutRef w' = None.
Proof.
  intros Hm P Hp Hu Hu0 Hv0 Hs.
  set (c' := settings_update ["general"; "stream"] v (config w)).
  assert (c' = <["stream" := v]> (config w)) as Hc
    by by apply settings_update_stream.
  assert (cfg_url c' = Some url ∧ cfg_stream c' = Some v) as (Hu' & Hs').
  { rewrite Hc. unfold cfg_url, cfg_stream.
    rewrite lookup_insert_ne, lookup_insert_eq by done. done. }
  exists (effect no_faults (cleanup (set_config c' w))).
  split.
  { apply step_settings_changed; [done |]. right. fold c'. by rewrite Hs'. }
  destruct (restart_fields (set_config c' w))
    as (S & _ & R & Ps & T & C & _ & Re & _); [done | | |].
  { simpl. rewrite Hu'. by apply truthy_Some. }
  { simpl. rewrite Hs'. by apply truthy_Some. }
  destruct (cleanup_effects (set_config c' w)) as (Cc & Pc & _).
  simpl in *. rewrite P in Cc, Pc.
  assert (pc < length (pcs w)) as Hlt by by eapply lookup_lt_Some.
  rewrite S, R, Ps, T, C, Re, Cc, Pc, Hu', Hs'.
  repeat split; try done.
  - rewrite lookup_app_l by by rewrite length_alter.
    by rewrite list_lookup_alter_eq, Hp.
  - replace (length (pcs w))
      with (length (alter with_closed pc (pcs w))) at 1
      by apply length_alter.
    apply lookup_snoc.
Qed.

Lemma stream_change_closes_once_witness :
  ∃ w', step (SettingsUpdate ["general"; "stream"] "cam2" no_faults)
             (mount None no_faults) = Some w'
        ∧ pcs w' !! 0 = Some (with_closed receiving_pc)
        ∧ pcRef w' = Some 1.
Proof.
  destruct (stream_change_closes_once (mount None no_faults) 0 receiving_pc
              "http://localhost:1984" "cam2" eq_refl eq_refl eq_refl eq_refl
              ltac:(discriminate) ltac:(discriminate)
              ltac:(vm_compute; discriminate))
    as (w' & Hs & _ & Hc & Hr & _).
  exists w'. split; [exact Hs |]. split; [exact Hc | exact Hr].
Defined.

Lemma step_click (w : World) (f : Faults) :
  mounted w = true →
  step (ClickReconnect f) w
  = Some (effect f (cleanup (set_reconnectCount (reconnectCount w + 1) w))).
Proof.
  intros Hm. simpl. rewrite Hm. unfold setReconnectCount. rewrite Hm.
  rewrite rerender_changed; [done | done |].
  unfold deps. simpl. intros [= H]. lia.
Qed.

(** The Reconnect button.  On a mounted panel a click always counts one
    more attempt and runs the cleanup and the effect again, whatever the
    configuration and the state are.  With an incomplete configuration the
    panel then waits for configuration and nothing is created.  With a
    complete configuration the click closes the held connection, cancels the
    pending retry timer (which can then never fire) and starts a new
    connection. *)
Theorem manual_reconnect (w : World) :
  mounted w = true →
  (∀ f, step (ClickReconnect f) w
        = Some (effect f (cleanup (set_reconnectCount (reconnectCount w + 1) w))))
  ∧ (∀ f, incomplete (config w) →
       ∃ w', step (ClickReconnect f) w = Some w'
         ∧ status w' = "Waiting for config"
         ∧ reconnectCount w' = reconnectCount w + 1
         ∧ pcRef w' = None ∧ reconnectTimeoutRef w' = None
         ∧ length (pcs w') = length (pcs w) ∧ tasks w' = tasks w)
  ∧ (reachable w →
     JsString.truthy (cfg_url (config w)) = true →
     JsString.truthy (cfg_stream (config w)) = true →
     ∃ w', step (ClickReconnect no_faults) w = Some w'
       ∧ status w' = "Connecting..."
       ∧ reconnectCount w' = reconnectCount w + 1
       ∧ timers w' = ∅ ∧ reconnectTimeoutRef w' = None
       ∧ pcRef w' = Some (length (pcs w))
       ∧ pcs w' !! length (pcs w) = Some receiving_pc
       ∧ (∀ pc p, pcRef w = Some pc → pcs w !! pc = Some p →
            pcs w' !! pc = Some (with_closed p))
       ∧ (∀ id due f evs w'', timers w !! id = Some due →
            run evs w' = Some w'' → step (TimerFires id f) w'' = None)).
Proof.
  intros Hm. split; [intros f; by apply step_click |].
  set (w1 := set_reconnectCount (reconnectCount w + 1) w).
  split.
  { intros f Hc. exists (effect f (cleanup w1)).
    split; [by apply step_click |].
    destruct (cleanup_fields w1) as (C & M & RC & _ & _ & _ & _ & T & L).
    destruct (cleanup_refs w1) as (R & P).
    rewrite effect_waiting by (by rewrite C).
    unfold setStatus. rewrite M. simpl. rewrite Hm. simpl.
    by rewrite RC, R, P, L, T. }
  intros Hw Hu Hs.
  exists (effect no_faults (cleanup w1)). split; [by apply step_click |].
  destruct (reachable_inv w Hw) as (I & _ & Hfresh).
  destruct (restart_fields w1 Hm Hu Hs)
    as (S & _ & R & Ps & _ & _ & Ti & Re & C & _ & Sq & _).
  destruct (cleanup_effects w1) as (_ & Pc & _).
  assert (timers (cleanup w1) = ∅) as Hempty
    by (apply cleanup_no_timer; exact I).
  simpl in *. rewrite S, R, Ps, Ti, Re, C, Hempty, Pc.
  repeat split; try done.
  - destruct (pcRef w); [| apply lookup_snoc].
    replace (length (pcs w)) with (length (alter with_closed n (pcs w)))
      by apply length_alter.
    apply lookup_snoc.
  - intros pc p P Hp. rewrite P.
    rewrite lookup_app_l
      by (rewrite length_alter; by eapply lookup_lt_Some).
    by rewrite list_lookup_alter_eq, Hp.
  - intros id due f evs w'' Hid Hrun. simpl.
    rewrite (timer_gone (effect no_faults (cleanup w1)) w'' id evs); try done.
    + by rewrite Ti, Hempty.
    + rewrite Sq. by eapply Hfresh.
Qed.

Lemma manual_reconnect_witness :
  match run [ConnectionStateChange 0 "failed"] (mount None no_faults) with
  | Some w => ∃ w', step (ClickReconnect no_faults) w = Some w'
                    ∧ timers w ≠ ∅ ∧ timers w' = ∅
                    ∧ reconnectCount w' = 1
  | None => False
  end.
Proof.
  destruct (run _ _) as [w|] eqn:E; [| vm_compute in E; discriminate].
  assert (reachable w) as Hw
    by (eapply reachable_run; [apply reachable_mount | exact E]).
  vm_compute in E. injection E as E. subst w.
  match type of Hw with
  | reachable ?w =>
      destruct (manual_reconnect w eq_refl) as (_ & _ & H);
      destruct (H Hw eq_refl eq_refl) as (w' & Hs & _ & C & T & _)
  end.
  exists w'. split; [exact Hs |]. split; [by vm_compute |].
  split; [exact T | exact C].
Defined.

(** ** Connection status labels *)

Lemma updateConnectionStatus_steady (pc : nat) (p : PeerConnection) (w : World) :
  pcs w !! pc = Some p →
  iceConnectionState p ≠ "failed" → connectionState p ≠ "failed" →
  updateConnectionStatus pc w
  = setStatus ("ICE: " +:+ iceConnectionState p +:+ " / CONN: "
               +:+ connectionState p) w.
Proof.
  intros Hp Hi Hc. unfold updateConnectionStatus. rewrite Hp. simpl.
  rewrite decide_False; [done |]. by intros [?|?].
Qed.

(** The state-change callbacks.  Both events run the same handler, which
    reads both states of the connection.  When neither state is ["failed"]
    after the change, it only sets the status to the two raw labels: nothing
    is scheduled or called.  When the ICE state or the connection state is
    ["failed"] after the change and no retry is pending, it arms the timer,
    and the status ends as ["Retrying in 2s..."], not as the labels; while a
    retry is pending it arms nothing and the status ends as the labels. *)
Theorem state_change_labels (w : World) (pc : nat) (p : PeerConnection) :
  mounted w = true → pcs w !! pc = Some p →
  (∀ st, st ≠ "failed" → connectionState p ≠ "failed" →
     ∃ w', step (IceConnectionStateChange pc st) w = Some w'
       ∧ status w' = "ICE: " +:+ st +:+ " / CONN: " +:+ connectionState p
       ∧ timers w' = timers w
       ∧ reconnectTimeoutRef w' = reconnectTimeoutRef w
       ∧ calls w' = calls w ∧ error w' = error w)
  ∧ (∀ st, st ≠ "failed" → iceConnectionState p ≠ "failed" →
       ∃ w', step (ConnectionStateChange pc st) w = Some w'
         ∧ status w' = "ICE: " +:+ iceConnectionState p +:+ " / CONN: " +:+ st
         ∧ timers w' = timers w
         ∧ reconnectTimeoutRef w' = reconnectTimeoutRef w
         ∧ calls w' = calls w ∧ error w' = error w)
  ∧ (∀ st, st = "failed" ∨ connectionState p = "failed" →
       reconnectTimeoutRef w = None →
       ∃ w', step (IceConnectionStateChange pc st) w = Some w'
         ∧ status w' = "Retrying in 2s..."
         ∧ reconnectTimeoutRef w' = Some (timer_seq w)
         ∧ timers w' !! timer_seq w = Some (now w + 2000)
         ∧ calls w' = CSetTimeout (timer_seq w) 2000 :: calls w)
  ∧ (∀ st, st = "failed" ∨ iceConnectionState p = "failed" →
       reconnectTimeoutRef w = None →
       ∃ w', step (ConnectionStateChange pc st) w = Some w'
         ∧ status w' = "Retrying in 2s..."
         ∧ reconnectTimeoutRef w' = Some (timer_seq w)
         ∧ timers w' !! timer_seq w = Some (now w + 2000)
         ∧ calls w' = CSetTimeout (timer_seq w) 2000 :: calls w)
  ∧ (∀ st, st = "failed" ∨ connectionState p = "failed" →
       is_Some (reconnectTimeoutRef w) →
       ∃ w', step (IceConnectionStateChange pc st) w = Some w'
         ∧ status w' = "ICE: " +:+ st +:+ " / CONN: " +:+ connectionState p
         ∧ timers w' = timers w
         ∧ reconnectTimeoutRef w' = reconnectTimeoutRef w
         ∧ calls w' = calls w)
  ∧ (∀ st, st = "failed" ∨ iceConnectionState p = "failed" →
       is_Some (reconnectTimeoutRef w) →
       ∃ w', step (ConnectionStateChange pc st) w = Some w'
         ∧ status w' = "ICE: " +:+ iceConnectionState p +:+ " / CONN: " +:+ st
         ∧ timers w' = timers w
         ∧ reconnectTimeoutRef w' = reconnectTimeoutRef w
         ∧ calls w' = calls w).
Proof.
  intros Hm Hp.
  assert (∀ f, pcs (set_pc pc f w) !! pc = Some (f p)) as Hl
    by (intros f; simpl; by rewrite list_lookup_alter_eq, Hp).
  split; [| split; [| split; [| split; [| split]]]].
  - intros st Hst Hc. eexists. simpl. rewrite Hp.
    split; [reflexivity |].
    rewrite (updateConnectionStatus_steady pc (with_iceConnectionState st p))
      by done.
    unfold setStatus. simpl. by rewrite Hm.
  - intros st Hst Hi. eexists. simpl. rewrite Hp.
    split; [reflexivity |].
    rewrite (updateConnectionStatus_steady pc (with_connectionState st p))
      by done.
    unfold setStatus. simpl. by rewrite Hm.
  - intros st Hf R. eexists. simpl. rewrite Hp. split; [reflexivity |].
    rewrite (updateConnectionStatus_failed pc (with_iceConnectionState st p))
      by done.
    unfold triggerReconnect, setStatus. simpl. rewrite Hm. simpl.
    rewrite R, Hm. simpl. by rewrite lookup_insert_eq.
  - intros st Hf R. eexists. simpl. rewrite Hp. split; [reflexivity |].
    rewrite (updateConnectionStatus_failed pc (with_connectionState st p))
      by (done || (destruct Hf; [by right | by left])).
    unfold triggerReconnect, setStatus. simpl. rewrite Hm. simpl.
    rewrite R, Hm. simpl. by rewrite lookup_insert_eq.
  - intros st Hf [id R]. eexists. simpl. rewrite Hp. split; [reflexivity |].
    rewrite (updateConnectionStatus_failed pc (with_iceConnectionState st p))
      by done.
    unfold triggerReconnect, setStatus. simpl. rewrite Hm. simpl.
    by rewrite R.
  - intros st Hf [id R]. eexists. simpl. rewrite Hp. split; [reflexivity |].
    rewrite (updateConnectionStatus_failed pc (with_connectionState st p))
      by (done || (destruct Hf; [by right | by left])).
    unfold triggerReconnect, setStatus. simpl. rewrite Hm. simpl.
    by rewrite R.
Qed.

Lemma state_change_labels_witness :
  (∃ w', step (IceConnectionStateChange 0 "checking") (mount None no_faults)
         = Some w'
         ∧ status w' = "ICE: checking / CONN: new")
  ∧ (∃ w', step (IceConnectionStateChange 0 "failed") (mount None no_faults)
           = Some w'
           ∧ status w' = "Retrying in 2s...").
Proof.
  destruct (state_change_labels (mount None no_faults) 0 receiving_pc
              eq_refl eq_refl) as (H & _ & Hf & _).
  split.
  - destruct (H "checking" ltac:(discriminate) ltac:(discriminate))
      as (w' & Hs & St & _).
    exists w'. split; [exact Hs | exact St].
  - destruct (Hf "failed" (or_introl eq_refl) eq_refl) as (w' & Hs & St & _).
    exists w'. split; [exact Hs | exact St].
Defined.

(** ** Open connections *)

Lemma pc_inv_frame (w w' : World) :
  pcs w' = pcs w → pcRef w' = pcRef w → pc_inv w → pc_inv w'.
Proof. intros P R I pc p. rewrite P, R. apply I. Qed.

Lemma pc_inv_alter (pc : nat) (f : PeerConnection → PeerConnection) (w : World) :
  (∀ p, closed (f p) = closed p) → pc_inv w → pc_inv (set_pc pc f w).
Proof.
  intros Hf I pc' p' H Hc. simpl in *.
  destruct (decide (pc = pc')) as [->|Hne].
  - rewrite list_lookup_alter_eq in H.
    destruct (pcs w !! pc') as [p|] eqn:E; simplify_eq/=.
    apply (I pc' p E). by rewrite <- Hf.
  - rewrite list_lookup_alter_ne in H by done. by apply (I pc' p').
Qed.

Lemma all_closed_pc_inv (w : World) : all_closed w → pc_inv w.
Proof. intros A pc p H Hc. rewrite (A pc p H) in Hc. done. Qed.

Lemma all_closed_frame (w w' : World) :
  pcs w' = pcs w → all_closed w → all_closed w'.
Proof. intros P A pc p. rewrite P. apply A. Qed.

(** Closing the held connection leaves none open. *)
Lemma close_held (w : World) :
  pc_inv w →
  all_closed (match pcRef w with
              | Some old => set_pcRef None (pc_close old w)
              | None => w
              end).
Proof.
  intros I. destruct (pcRef w) as [old|] eqn:P.
  - intros pc p H. simpl in H. destruct (decide (old = pc)) as [->|Hne].
    + rewrite list_lookup_alter_eq in H.
      destruct (pcs w !! pc); by simplify_eq/=.
    + rewrite list_lookup_alter_ne in H by done.
      destruct (closed p) eqn:Hc; [done |].
      specialize (I pc p H Hc). congruence.
  - intros pc p H. destruct (closed p) eqn:Hc; [done |].
    specialize (I pc p H Hc). congruence.
Qed.

Lemma cleanup_all_closed (w : World) : pc_inv w → all_closed (cleanup w).
Proof.
  intros I. unfold cleanup. apply close_held.
  destruct (reconnectTimeoutRef w); [| done]. by eapply pc_inv_frame.
Qed.

Lemma caught_pc_inv (e : Thrown) (w : World) : pc_inv w → pc_inv (caught e w).
Proof.
  destruct (caught_frame e w) as (P & L & _). by apply pc_inv_frame.
Qed.

Lemma effect_pc_inv (f : Faults) (w : World) : pc_inv w → pc_inv (effect f w).
Proof.
  intros I. unfold effect, spawn, setupWebRTC.
  destruct (negb (JsString.truthy (cfg_url (config w)))
            || negb (JsString.truthy (cfg_stream (config w)))).
  { unfold bind, exec, ret, setStatus. simpl.
    destruct (mounted w); [by eapply pc_inv_frame | done]. }
  unfold bind at 1 2 3. cbn [exec].
  assert (all_closed
            (match pcRef (setError None (setStatus "Connecting..." w)) with
             | Some old =>
                 set_pcRef None
                   (pc_close old (setError None (setStatus "Connecting..." w)))
             | None => setError None (setStatus "Connecting..." w)
             end)) as A.
  { apply close_held. eapply pc_inv_frame; [| | exact I];
      unfold setError, setStatus;
      destruct (mounted w) eqn:Hm; simpl; by rewrite ?Hm. }
  revert A. generalize (match pcRef (setError None (setStatus "Connecting..." w)) with
             | Some old =>
                 set_pcRef None
                   (pc_close old (setError None (setStatus "Connecting..." w)))
             | None => setError None (setStatus "Connecting..." w)
             end).
  intros w2 A.
  unfold try_catch, bind, new_RTCPeerConnection.
  destruct (new_fault f) as [e1|].
  { rewrite catch_block_caught. by apply caught_pc_inv, all_closed_pc_inv. }
  set (w3 := set_pcRef (Some (length (pcs w2)))
               (browser_call (CNewPeerConnection (length (pcs w2)))
                  (set_pcs (pcs w2 ++ [fresh_pc]) w2))).
  assert (pc_inv w3) as I3.
  { intros pc p H Hc. simpl in *.
    destruct (decide (pc < length (pcs w2))) as [Hlt|Hge].
    - rewrite lookup_app_l in H by done. rewrite (A pc p H) in Hc. done.
    - apply lookup_lt_Some in H as Hlen. rewrite List.length_app in Hlen.
      simpl in Hlen. f_equal. lia. }
  change (exec (set_pcRef (Some (length (pcs w2))))
            (browser_call (CNewPeerConnection (length (pcs w2)))
               (set_pcs (pcs w2 ++ [fresh_pc]) w2)))
    with (Normal tt, w3).
  clearbody w3. unfold exec, addTransceiver.
  destruct (video_fault f) as [e2|].
  { rewrite catch_block_caught. by apply caught_pc_inv. }
  destruct (audio_fault f) as [e3|].
  { rewrite catch_block_caught. apply caught_pc_inv.
    eapply pc_inv_frame; [| | by apply (pc_inv_alter (length (pcs w2))
       (with_transceiver "video" "recvonly") w3)]; done. }
  cbn. eapply pc_inv_frame;
    [| | apply (pc_inv_alter (length (pcs w2))
                  (with_transceiver "audio" "recvonly"));
         [done | eapply pc_inv_frame;
                   [| | by apply (pc_inv_alter (length (pcs w2))
                           (with_transceiver "video" "recvonly") w3)]]];
    done.
Qed.

Lemma triggerReconnect_frame (w : World) :
  pcs (triggerReconnect w) = pcs w ∧ pcRef (triggerReconnect w) = pcRef w
  ∧ tasks (triggerReconnect w) = tasks w
  ∧ mounted (triggerReconnect w) = mounted w
  ∧ config (triggerReconnect w) = config w
  ∧ reconnectCount (triggerReconnect w) = reconnectCount w
  ∧ error (triggerReconnect w) = error w.
Proof.
  unfold triggerReconnect, setStatus.
  destruct (reconnectTimeoutRef w), (mounted w) eqn:Hm; simpl;
    by rewrite ?Hm.
Qed.

Lemma updateConnectionStatus_frame (pc : nat) (w : World) :
  pcs (updateConnectionStatus pc w) = pcs w
  ∧ pcRef (updateConnectionStatus pc w) = pcRef w
  ∧ tasks (updateConnectionStatus pc w) = tasks w
  ∧ mounted (updateConnectionStatus pc w) = mounted w
  ∧ config (updateConnectionStatus pc w) = config w
  ∧ reconnectCount (updateConnectionStatus pc w) = reconnectCount w
  ∧ error (updateConnectionStatus pc w) = error w.
Proof.
  unfold updateConnectionStatus.
  set (s := "ICE: " +:+ _). clearbody s.
  destruct (decide _).
  - destruct (triggerReconnect_frame (setStatus s w))
      as (-> & -> & -> & -> & -> & -> & ->).
    unfold setStatus. destruct (mounted w) eqn:Hm; simpl; by rewrite ?Hm.
  - unfold setStatus. destruct (mounted w) eqn:Hm; simpl; by rewrite ?Hm.
Qed.

Lemma rerender_pc_inv (f : Faults) (old : option string * option string * nat)
    (w : World) :
  pc_inv w → pc_inv (rerender f old w).
Proof.
  intros I. unfold rerender. destruct (mounted w); [| done].
  destruct (decide _); [done |].
  by apply effect_pc_inv, all_closed_pc_inv, cleanup_all_closed.
Qed.

Lemma step_pc_inv (e : Event) (w w' : World) :
  step e w = Some w' → pc_inv w → pc_inv w'.
Proof.
  intros H I. destruct e; simpl in H.
  - destruct (mounted w) eqn:Hm; simplify_eq.
    apply rerender_pc_inv. unfold setConfig. rewrite Hm.
    by eapply pc_inv_frame.
  - destruct (mounted w) eqn:Hm; simplify_eq.
    apply rerender_pc_inv. unfold setReconnectCount. rewrite Hm.
    by eapply pc_inv_frame.
  - destruct (mounted w); simplify_eq.
    apply all_closed_pc_inv. eapply all_closed_frame; [done |].
    apply cleanup_all_closed. by eapply pc_inv_frame.
  - destruct (timers w !! id); [| done].
    destruct (_ <=? _); simplify_eq.
    apply rerender_pc_inv. unfold retry_callback, setReconnectCount. simpl.
    destruct (mounted w); by eapply pc_inv_frame.
  - simplify_eq. by eapply pc_inv_frame.
  - destruct (pcs w !! pc); simplify_eq. unfold ontrack.
    destruct (videoRef w); [by eapply pc_inv_frame | done].
  - destruct (pcs w !! pc); simplify_eq.
    destruct (updateConnectionStatus_frame pc
                (set_pc pc (with_iceConnectionState state) w)) as (P & R & _).
    eapply pc_inv_frame; [exact P | exact R |]. by apply pc_inv_alter.
  - destruct (pcs w !! pc); simplify_eq.
    destruct (updateConnectionStatus_frame pc
                (set_pc pc (with_connectionState state) w)) as (P & R & _).
    eapply pc_inv_frame; [exact P | exact R |]. by apply pc_inv_alter.
  - assert (step (Settle task r) w = Some w') as Hs by exact H.
    destruct (settle_frame w w' task r Hs) as (R & L & _ & C).
    intros pc p' Hp' Hc. rewrite R.
    assert (pc < length (pcs w)) as Hlt
      by (rewrite <- L; by eapply lookup_lt_Some).
    destruct (lookup_lt_is_Some_2 (pcs w) pc Hlt) as [p Hp].
    destruct (C pc p Hp) as (p'' & Hp'' & Hc'').
    simplify_eq. apply (I pc p Hp). congruence.
  - destruct (videoRef w); simplify_eq. by eapply pc_inv_frame.
  - destruct (interval w); [| done]. destruct (_ <=? _); simplify_eq.
    unfold latency_sample, setLatency. simpl.
    destruct (videoRef w) as [v|]; [| by eapply pc_inv_frame].
    destruct (paused v || _); [by eapply pc_inv_frame |].
    destruct (last (buffered v)) as [[s e]|]; [| by eapply pc_inv_frame].
    destruct (exceeds_half _), (mounted w); by eapply pc_inv_frame.
Qed.

Lemma run_pc_inv (evs : list Event) (w w' : World) :
  run evs w = Some w' → pc_inv w → pc_inv w'.
Proof.
  revert w. induction evs as [|e evs IH]; simpl; intros w H I.
  - by simplify_eq.
  - destruct (step e w) as [w1|] eqn:E; [| done].
    apply (IH w1 H). by eapply step_pc_inv.
Qed.

Lemma filter_at_most_one {A} (P : A → Prop) `{∀ x, Decision (P x)}
    (l : list A) :
  (∀ i j x y, l !! i = Some x → l !! j = Some y → P x → P y → i = j) →
  length (filter P l) ≤ 1.
Proof.
  induction l as [|x l IH]; intros Huniq; [simpl; lia |].
  rewrite filter_cons. destruct (decide (P x)) as [Hx|Hx].
  - assert (filter P l = []) as ->; [| simpl; lia].
    destruct (filter P l) as [|y l'] eqn:E; [done |].
    assert (y ∈ filter P l) as Hy by (rewrite E; left).
    apply list_elem_of_filter in Hy as [Py Hy].
    apply list_elem_of_lookup in Hy as [j Hj].
    specialize (Huniq 0 (S j) x y eq_refl Hj Hx Py). lia.
  - apply IH. intros i j a b Hi Hj Pa Pb.
    specialize (Huniq (S i) (S j) a b Hi Hj Pa Pb). lia.
Qed.

Lemma reachable_pc_inv (w : World) : reachable w → pc_inv w.
Proof.
  intros (init & f & evs & Hrun).
  apply (run_pc_inv evs _ w Hrun). unfold mount. apply effect_pc_inv.
  intros pc p H. by simpl in H.
Qed.

(** No connection leaks.  In every world the panel reaches, a connection
    that is not closed is the one [pcRef] holds, so at most one connection is
    open at any time; after the cleanup, and after [Unmount], every
    connection the panel ever created is closed. *)
Theorem no_connection_leak (w : World) :
  reachable w →
  (∀ pc p, pcs w !! pc = Some p → closed p = false → pcRef w = Some pc)
  ∧ length (open_pcs w) ≤ 1
  ∧ (∀ pc p, pcs (cleanup w) !! pc = Some p → closed p = true)
  ∧ (∀ w' pc p, step Unmount w = Some w' → pcs w' !! pc = Some p →
       closed p = true).
Proof.
  intros Hw. pose proof (reachable_pc_inv w Hw) as I.
  split; [exact I |]. split; [| split].
  - apply filter_at_most_one. intros i j x y Hi Hj Hx Hy.
    pose proof (I i x Hi Hx). pose proof (I j y Hj Hy). congruence.
  - by apply cleanup_all_closed.
  - intros w' pc p H. simpl in H. destruct (mounted w); simplify_eq.
    simpl. apply (cleanup_all_closed (set_interval None w)).
    by eapply pc_inv_frame.
Qed.

Lemma no_connection_leak_witness :
  match run [SettingsUpdate ["general"; "stream"] "cam2" no_faults;
             ClickReconnect no_faults] (mount None no_faults) with
  | Some w => length (pcs w) = 3 ∧ length (open_pcs w) ≤ 1
  | None => False
  end.
Proof.
  destruct (run _ _) as [w|] eqn:E; [| vm_compute in E; discriminate].
  split.
  - vm_compute in E. injection E as <-. reflexivity.
  - apply no_connection_leak.
    eapply reachable_run; [apply reachable_mount | exact E].
Defined.

(** ** After the panel is unmounted *)

Lemma caught_unmounted (e : Thrown) (w : World) :
  mounted w = false →
  status (caught e w) = status w ∧ error (caught e w) = error w
  ∧ mounted (caught e w) = false ∧ config (caught e w) = config w
  ∧ reconnectCount (caught e w) = reconnectCount w
  ∧ videoRef (caught e w) = videoRef w ∧ interval (caught e w) = interval w.
Proof.
  intros Hm. unfold caught.
  assert (setError (Some (err_text e)) (browser_call (CConsoleError e) w)
          = browser_call (CConsoleError e) w) as ->
    by (unfold setError; simpl; by rewrite Hm).
  assert (setStatus "Error" (browser_call (CConsoleError e) w)
          = browser_call (CConsoleError e) w) as ->
    by (unfold setStatus; simpl; by rewrite Hm).
  unfold triggerReconnect, setStatus. simpl. rewrite Hm.
  by destruct (reconnectTimeoutRef w).
Qed.

Lemma settle_unmounted (w w' : World) (tid : nat) (r : Settled) :
  mounted w = false → step (Settle tid r) w = Some w' →
  status w' = status w ∧ error w' = error w ∧ mounted w' = false
  ∧ config w' = config w ∧ reconnectCount w' = reconnectCount w
  ∧ videoRef w' = videoRef w ∧ interval w' = interval w.
Proof.
  intros Hm H.
  destruct (tasks w !! tid) as [[t|]|] eqn:Ht;
    [| by simpl in H; rewrite Ht in H ..].
  destruct r as [offer| |r|answer| |e].
  - destruct (t_await t) eqn:Ha;
      try (by simpl in H; rewrite Ht in H;
           unfold setupWebRTC_resume, segment in H; rewrite Ha in H).
    rewrite (settle_offer w tid t Ht offer Ha) in H. by injection H as <-.
  - destruct (t_await t) eqn:Ha;
      try (by simpl in H; rewrite Ht in H;
           unfold setupWebRTC_resume, segment in H; rewrite Ha in H).
    destruct (t_url t) as [url|] eqn:Hu.
    + rewrite (settle_local w tid t Ht _ url Ha Hu) in H. by injection H as <-.
    + simpl in H. rewrite Ht in H.
      unfold setupWebRTC_resume, segment, browser_commit in H.
      rewrite Ha, Hu in H. injection H as <-.
      change (continue _ _ _)
        with (finish tid (caught (ErrorObj "TypeError")
                (set_pc (t_pc t) (with_localDescription offer) w))).
      by destruct (caught_unmounted (ErrorObj "TypeError")
                     (set_pc (t_pc t) (with_localDescription offer) w) Hm)
        as (? & ? & ? & ? & ? & ? & ?).
  - destruct (t_await t) eqn:Ha;
      try (by simpl in H; rewrite Ht in H;
           unfold setupWebRTC_resume, segment in H; rewrite Ha in H).
    destruct (ok r) eqn:Hr.
    + rewrite (settle_fetch_ok w tid t Ht r Ha Hr) in H. by injection H as <-.
    + rewrite (settle_fetch_failed w tid t Ht r Ha Hr) in H.
      injection H as <-.
      by destruct (caught_unmounted (signaling_error r) w Hm)
        as (? & ? & ? & ? & ? & ? & ?).
  - destruct (t_await t) eqn:Ha;
      try (by simpl in H; rewrite Ht in H;
           unfold setupWebRTC_resume, segment in H; rewrite Ha in H).
    rewrite (settle_text w tid t Ht answer Ha) in H. by injection H as <-.
  - destruct (t_await t) eqn:Ha;
      try (by simpl in H; rewrite Ht in H;
           unfold setupWebRTC_resume, segment in H; rewrite Ha in H).
    rewrite (settle_remote w tid t Ht _ Ha) in H. injection H as <-.
    unfold setStatus. simpl. by rewrite Hm.
  - rewrite (settle_rejected w tid t Ht e) in H. injection H as <-.
    by destruct (caught_unmounted e w Hm) as (? & ? & ? & ? & ? & ? & ?).
Qed.

(** What an unmounted panel keeps through one event. *)
Lemma step_unmounted (e : Event) (w w' : World) :
  step e w = Some w' →
  mounted w = false → pcRef w = None → videoRef w = None →
  (mounted w' = false ∧ pcRef w' = None ∧ videoRef w' = None)
  ∧ length (pcs w') = length (pcs w)
  ∧ status w' = status w ∧ error w' = error w ∧ config w' = config w
  ∧ reconnectCount w' = reconnectCount w.
Proof.
  intros H Hm P V. destruct e; simpl in H; rewrite ?Hm, ?V in H; try done.
  - destruct (timers w !! id); [| done]. destruct (_ <=? _); simplify_eq.
    unfold rerender, retry_callback, setReconnectCount. simpl.
    rewrite Hm. simpl. by rewrite Hm.
  - by simplify_eq.
  - destruct (pcs w !! pc); simplify_eq. unfold ontrack. by rewrite V.
  - destruct (pcs w !! pc); simplify_eq.
    destruct (updateConnectionStatus_frame pc
                (set_pc pc (with_iceConnectionState state) w))
      as (-> & -> & _ & -> & -> & -> & ->).
    unfold updateConnectionStatus, triggerReconnect, setStatus. simpl.
    rewrite Hm. simpl. rewrite length_alter.
    destruct (decide _); [| done].
    destruct (reconnectTimeoutRef w); simpl; by rewrite ?Hm.
  - destruct (pcs w !! pc); simplify_eq.
    destruct (updateConnectionStatus_frame pc
                (set_pc pc (with_connectionState state) w))
      as (-> & -> & _ & -> & -> & -> & ->).
    unfold updateConnectionStatus, triggerReconnect, setStatus. simpl.
    rewrite Hm. simpl. rewrite length_alter.
    destruct (decide _); [| done].
    destruct (reconnectTimeoutRef w); simpl; by rewrite ?Hm.
  - assert (step (Settle task r) w = Some w') as Hs by exact H.
    destruct (settle_frame w w' task r Hs) as (R & L & _).
    destruct (settle_unmounted w w' task r Hm Hs)
      as (S & E & M & C & RC & Vr & _).
    rewrite R, L, S, E, M, C, RC, Vr. done.
  - destruct (interval w); [| done]. destruct (_ <=? _); simplify_eq.
    unfold latency_sample. simpl. by rewrite V.
Qed.

(** Once the panel is unmounted it stays torn down, whatever happens
    next (late results of runs, state changes, timers): [pcRef] stays
    cleared, no connection is created, every connection stays closed, the
    state cells keep their values, and no click or settings update is
    taken. *)
Theorem unmounted_stays_torn_down (w w1 w2 : World) (evs : list Event) :
  reachable w → step Unmount w = Some w1 → run evs w1 = Some w2 →
  mounted w2 = false ∧ pcRef w2 = None
  ∧ length (pcs w2) = length (pcs w)
  ∧ (∀ pc p, pcs w2 !! pc = Some p → closed p = true)
  ∧ status w2 = status w ∧ error w2 = error w ∧ config w2 = config w
  ∧ reconnectCount w2 = reconnectCount w
  ∧ (∀ f, step (ClickReconnect f) w2 = None)
  ∧ (∀ path v f, step (SettingsUpdate path v f) w2 = None).
Proof.
  intros Hw Hu Hrun.
  assert (reachable w2) as Hw2.
  { eapply reachable_run; [| exact Hrun].
    eapply (reachable_run [Unmount]); [exact Hw |].
    cbn [run]. by rewrite Hu. }
  pose proof (reachable_pc_inv w2 Hw2) as I2.
  simpl in Hu. destruct (mounted w) eqn:Hm; [| done]. injection Hu as <-.
  destruct (cleanup_refs (set_interval None w)) as (_ & P).
  destruct (cleanup_fields (set_interval None w))
    as (C & _ & RC & _ & _ & S & E & _ & L).
  set (w1 := set_mounted false _) in *.
  assert ((mounted w2 = false ∧ pcRef w2 = None ∧ videoRef w2 = None)
          ∧ length (pcs w2) = length (pcs w1)
          ∧ status w2 = status w1 ∧ error w2 = error w1
          ∧ config w2 = config w1 ∧ reconnectCount w2 = reconnectCount w1)
    as ((M2 & P2 & _) & L2 & S2 & E2 & C2 & RC2).
  { assert (mounted w1 = false ∧ pcRef w1 = None ∧ videoRef w1 = None) as U1
      by done.
    clearbody w1. clear -Hrun U1. revert w1 Hrun U1.
    induction evs as [|e evs IH]; simpl; intros w1 Hrun U1.
    - by simplify_eq.
    - destruct (step e w1) as [w'|] eqn:Hs; [| done]. simpl in Hrun.
      destruct U1 as (M & P & V).
      destruct (step_unmounted e w1 w' Hs M P V)
        as (U' & L' & S' & E' & C' & RC').
      destruct (IH w' Hrun U') as (U2 & L2 & S2 & E2 & C2 & RC2).
      rewrite L2, S2, E2, C2, RC2. done. }
  rewrite L2, S2, E2, C2, RC2.
  repeat split; try done.
  - intros pc p Hp. destruct (closed p) eqn:Hc; [done |].
    specialize (I2 pc p Hp Hc). congruence.
  - intros f. simpl. by rewrite M2.
  - intros path v f. simpl. by rewrite M2.
Qed.

Lemma unmounted_stays_torn_down_witness :
  ∃ w1 w2, step Unmount (mount None no_faults) = Some w1
    ∧ run [Settle 0 (Rejected (ErrorObj "late")); Elapse 2000;
           TimerFires 1 no_faults] w1 = Some w2
    ∧ pcRef w2 = None ∧ length (pcs w2) = 1 ∧ status w2 = "Connecting...".
Proof.
  destruct (step Unmount (mount None no_faults)) as [w1|] eqn:E1;
    [| vm_compute in E1; discriminate].
  assert (∃ w2, run [Settle 0 (Rejected (ErrorObj "late")); Elapse 2000;
                     TimerFires 1 no_faults] w1 = Some w2) as [w2 E2].
  { vm_compute in E1. injection E1 as <-. eexists. by vm_compute. }
  destruct (unmounted_stays_torn_down (mount None no_faults) w1 w2 _
              (reachable_mount None no_faults) E1 E2)
    as (_ & P & L & _ & S & _).
  exists w1, w2. split; [reflexivity |]. split; [exact E2 |].
  split; [exact P |]. split; [exact L | exact S].
Defined.

(** ** What a run remembers *)

Lemma with_await_same (t : Task) : with_await (t_await t) t = t.
Proof. by destruct t. Qed.

Lemma runs_kept_refl (w : World) : runs_kept w w.
Proof.
  intros tid. destruct (tasks w !! tid) as [[t|]|]; try done.
  right. exists (t_await t). by rewrite with_await_same.
Qed.

Lemma runs_kept_trans (w1 w2 w3 : World) :
  runs_kept w1 w2 → runs_kept w2 w3 → runs_kept w1 w3.
Proof.
  intros H12 H23 tid. specialize (H12 tid). specialize (H23 tid).
  destruct (tasks w1 !! tid) as [[t|]|]; try done.
  - destruct H12 as [E|[a E]]; rewrite E in H23; [by left |].
    destruct H23 as [E'|[a' E']]; [by left |]. right. by exists a'.
  - by rewrite H12 in H23.
Qed.

Lemma runs_kept_app (w w' : World) (l : list (option Task)) :
  tasks w' = tasks w ++ l → runs_kept w w'.
Proof.
  intros E tid. rewrite E.
  destruct (tasks w !! tid) as [[t|]|] eqn:H; try done.
  - rewrite (lookup_app_l_Some _ _ _ _ H). right. exists (t_await t).
    by rewrite with_await_same.
  - by rewrite (lookup_app_l_Some _ _ _ _ H).
Qed.

Lemma runs_kept_same (w w' : World) : tasks w' = tasks w → runs_kept w w'.
Proof. intros E. apply (runs_kept_app w w' []). by rewrite app_nil_r. Qed.

Lemma entered_tasks (w : World) : tasks (entered w) = tasks w.
Proof.
  unfold entered, setError, setStatus.
  destruct (mounted w) eqn:Hm; simpl; rewrite ?Hm; simpl;
    by destruct (pcRef w).
Qed.

Lemma effect_tasks (f : Faults) (w : World) :
  ∃ l, tasks (effect f w) = tasks w ++ l.
Proof.
  destruct (JsString.truthy (cfg_url (config w))) eqn:Hu;
    [destruct (JsString.truthy (cfg_stream (config w))) eqn:Hs |].
  - destruct (first_fault f) as [e|] eqn:Hf.
    + destruct (effect_fault f e w Hu Hs Hf) as (w1 & -> & _ & _ & T).
      exists []. destruct (caught_frame e w1) as (_ & _ & ->).
      by rewrite T, app_nil_r.
    + assert (f = no_faults) as ->.
      { destruct f as [a b c]. unfold first_fault in Hf. simpl in Hf.
        destruct a, b, c; simplify_eq. done. }
      rewrite effect_no_faults by done. cbn zeta. simpl.
      rewrite entered_tasks. by eexists.
  - exists []. rewrite effect_waiting by by right.
    unfold setStatus. destruct (mounted w); by rewrite app_nil_r.
  - exists []. rewrite effect_waiting by by left.
    unfold setStatus. destruct (mounted w); by rewrite app_nil_r.
Qed.

Lemma rerender_runs_kept (f : Faults)
    (old : option string * option string * nat) (w : World) :
  runs_kept w (rerender f old w).
Proof.
  unfold rerender. destruct (mounted w); [| apply runs_kept_refl].
  destruct (decide _); [apply runs_kept_refl |].
  destruct (effect_tasks f (cleanup w)) as [l E].
  apply (runs_kept_app _ _ l). rewrite E.
  by rewrite (proj1 (proj2 (proj2 (proj2 (proj2 (proj2 (proj2 (proj2
                (cleanup_fields w))))))))).
Qed.

(** The continuation of run [tid] changes the slot of that run only. *)
Lemma settle_tasks (w w' : World) (tid : nat) (r : Settled) :
  step (Settle tid r) w = Some w' →
  ∃ t, tasks w !! tid = Some (Some t)
       ∧ (tasks w' = <[tid := None]> (tasks w)
          ∨ ∃ a, tasks w' = <[tid := Some (with_await a t)]> (tasks w)).
Proof.
  intros H.
  destruct (tasks w !! tid) as [[t|]|] eqn:Ht;
    [| by simpl in H; rewrite Ht in H ..].
  exists t. split; [done |].
  assert (∀ e w0, tasks w0 = tasks w → w' = finish tid (caught e w0) →
            tasks w' = <[tid := None]> (tasks w)) as Hcaught.
  { intros e w0 T ->. simpl.
    by rewrite (proj2 (proj2 (caught_frame e w0))), T. }
  destruct r as [offer| |r|answer| |e].
  - destruct (t_await t) eqn:Ha;
      try (by simpl in H; rewrite Ht in H;
           unfold setupWebRTC_resume, segment in H; rewrite Ha in H).
    rewrite (settle_offer w tid t Ht offer Ha) in H. injection H as <-.
    right. by eexists.
  - destruct (t_await t) eqn:Ha;
      try (by simpl in H; rewrite Ht in H;
           unfold setupWebRTC_resume, segment in H; rewrite Ha in H).
    destruct (t_url t) as [url|] eqn:Hu.
    + rewrite (settle_local w tid t Ht _ url Ha Hu) in H. injection H as <-.
      right. by eexists.
    + simpl in H. rewrite Ht in H.
      unfold setupWebRTC_resume, segment, browser_commit in H.
      rewrite Ha, Hu in H. injection H as H. left.
      eapply (Hcaught (ErrorObj "TypeError")
                (set_pc (t_pc t) (with_localDescription offer) w));
        [done | by rewrite <- H].
  - destruct (t_await t) eqn:Ha;
      try (by simpl in H; rewrite Ht in H;
           unfold setupWebRTC_resume, segment in H; rewrite Ha in H).
    destruct (ok r) eqn:Hr.
    + rewrite (settle_fetch_ok w tid t Ht r Ha Hr) in H. injection H as <-.
      right. by eexists.
    + rewrite (settle_fetch_failed w tid t Ht r Ha Hr) in H.
      injection H as <-. left. by eapply Hcaught.
  - destruct (t_await t) eqn:Ha;
      try (by simpl in H; rewrite Ht in H;
           unfold setupWebRTC_resume, segment in H; rewrite Ha in H).
    rewrite (settle_text w tid t Ht answer Ha) in H. injection H as <-.
    right. by eexists.
  - destruct (t_await t) eqn:Ha;
      try (by simpl in H; rewrite Ht in H;
           unfold setupWebRTC_resume, segment in H; rewrite Ha in H).
    rewrite (settle_remote w tid t Ht _ Ha) in H. injection H as <-.
    left. unfold setStatus. simpl. by destruct (mounted w).
  - rewrite (settle_rejected w tid t Ht e) in H. injection H as <-.
    left. by eapply Hcaught.
Qed.

Lemma step_runs_kept (e : Event) (w w' : World) :
  step e w = Some w' → runs_kept w w'.
Proof.
  intros H. destruct e; simpl in H.
  - destruct (mounted w) eqn:Hm; simplify_eq.
    eapply runs_kept_trans; [| apply rerender_runs_kept].
    apply runs_kept_same. unfold setConfig. by rewrite Hm.
  - destruct (mounted w) eqn:Hm; simplify_eq.
    eapply runs_kept_trans; [| apply rerender_runs_kept].
    apply runs_kept_same. unfold setReconnectCount. by rewrite Hm.
  - destruct (mounted w); simplify_eq. apply runs_kept_same. simpl.
    by rewrite (proj1 (proj2 (proj2 (proj2 (proj2 (proj2 (proj2 (proj2
                  (cleanup_fields _))))))))).
  - destruct (timers w !! id); [| done]. destruct (_ <=? _); simplify_eq.
    eapply runs_kept_trans; [| apply rerender_runs_kept].
    apply runs_kept_same. unfold retry_callback, setReconnectCount. simpl.
    by destruct (mounted w).
  - simplify_eq. by apply runs_kept_same.
  - destruct (pcs w !! pc); simplify_eq. apply runs_kept_same.
    unfold ontrack. by destruct (videoRef w).
  - destruct (pcs w !! pc); simplify_eq. apply runs_kept_same.
    by rewrite (proj1 (proj2 (proj2 (updateConnectionStatus_frame _ _)))).
  - destruct (pcs w !! pc); simplify_eq. apply runs_kept_same.
    by rewrite (proj1 (proj2 (proj2 (updateConnectionStatus_frame _ _)))).
  - assert (step (Settle task r) w = Some w') as Hs by exact H.
    destruct (settle_tasks w w' task r Hs) as (t & Ht & Hw').
    intros tid. destruct (decide (task = tid)) as [<-|Hne].
    + rewrite Ht. apply lookup_lt_Some in Ht as Hlt.
      destruct Hw' as [-> | [a ->]]; rewrite list_lookup_insert_eq by done;
        [by left | right; by exists a].
    + assert (tasks w' !! tid = tasks w !! tid) as ->
        by (destruct Hw' as [-> | [a ->]]; by rewrite list_lookup_insert_ne).
      apply runs_kept_refl.
  - destruct (videoRef w); simplify_eq. by apply runs_kept_same.
  - destruct (interval w); [| done]. destruct (_ <=? _); simplify_eq.
    apply runs_kept_same. unfold latency_sample, setLatency. simpl.
    destruct (videoRef w) as [v|]; [| done].
    destruct (paused v || _); [done |].
    destruct (last (buffered v)) as [[s e]|]; [| done].
    by destruct (exceeds_half _), (mounted w).
Qed.

Lemma run_runs_kept (evs : list Event) (w w' : World) :
  run evs w = Some w' → runs_kept w w'.
Proof.
  revert w. induction evs as [|e evs IH]; simpl; intros w H.
  - simplify_eq. apply runs_kept_refl.
  - destruct (step e w) as [w1|] eqn:E; [| done].
    eapply runs_kept_trans; [by eapply step_runs_kept | by apply IH].
Qed.

(** A run signals for the configuration it was started with.  The url and
    the stream of the request are those of the render that called
    [setupWebRTC], whatever happened since (settings updates, reconnects,
    teardown): the run is not cancelled and does not read the current
    configuration. *)
Theorem request_uses_captured_config (w w1 w2 : World) (url stream : string)
    (evs : list Event) :
  mounted w = true →
  cfg_url (config w) = Some url → cfg_stream (config w) = Some stream →
  url ≠ "" → stream ≠ "" →
  run evs (effect no_faults w) = Some w1 →
  step (Settle (length (tasks w)) LocalDescriptionSet) w1 = Some w2 →
  ∃ body,
    calls w2
    = CFetch (endpoint_of url +:+ "/api/webrtc?src=" +:+ stream) "POST" body
      :: calls w1.
Proof.
  intros Hm Hu Hs Hu0 Hs0 Hrun Hstep.
  destruct (effect_connecting w Hm) as (_ & _ & T & _);
    [rewrite Hu; by apply truthy_Some | rewrite Hs; by apply truthy_Some |].
  pose proof (run_runs_kept evs _ w1 Hrun (length (tasks w))) as K.
  rewrite T, lookup_snoc in K.
  destruct (settle_tasks w1 w2 _ _ Hstep) as (t1 & Ht1 & _).
  destruct K as [K|[a K]]; [congruence |].
  rewrite K in Ht1. injection Ht1 as <-.
  destruct a as [|offer| | |];
    try (by simpl in Hstep; rewrite K in Hstep).
  erewrite settle_local in Hstep; [| exact K | reflexivity | exact Hu].
  cbn zeta in Hstep. injection Hstep as <-. simpl. rewrite Hs. by eexists.
Qed.

Lemma request_uses_captured_config_witness :
  ∃ w1 w2,
    run [Settle 0 (OfferCreated "offer");
         SettingsUpdate ["general"; "stream"] "cam2" no_faults]
        (effect no_faults (latency_effect (first_render None))) = Some w1
    ∧ cfg_stream (config w1) = Some "cam2"
    ∧ step (Settle 0 LocalDescriptionSet) w1 = Some w2
    ∧ ∃ body, calls w2
              = CFetch "http://localhost:1984/api/webrtc?src=cam1" "POST" body
                :: calls w1.
Proof.
  destruct (run [Settle 0 (OfferCreated "offer");
                 SettingsUpdate ["general"; "stream"] "cam2" no_faults]
                (effect no_faults (latency_effect (first_render None))))
    as [w1|] eqn:E1; [| vm_compute in E1; discriminate].
  assert (cfg_stream (config w1) = Some "cam2"
          ∧ ∃ w2, step (Settle 0 LocalDescriptionSet) w1 = Some w2)
    as (Hc & w2 & E2).
  { vm_compute in E1. injection E1 as <-. split; [done |].
    eexists. by vm_compute. }
  exists w1, w2. split; [reflexivity |]. split; [exact Hc |].
  split; [exact E2 |].
  apply (request_uses_captured_config (latency_effect (first_render None))
           w1 w2 "http://localhost:1984" "cam1" _
           eq_refl eq_refl eq_refl ltac:(discriminate) ltac:(discriminate)
           E1 E2).
Defined.

(** ** Retrying without a cap *)

Lemma attempt_fields (w : World) :
  mounted w = true →
  JsString.truthy (cfg_url (config w)) = true →
  JsString.truthy (cfg_stream (config w)) = true →
  let w0 := effect no_faults w in
  mounted w0 = true ∧ config w0 = config w
  ∧ length (pcs w0) = S (length (pcs w))
  ∧ length (tasks w0) = S (length (tasks w))
  ∧ (∃ t, tasks w0 !! length (tasks w) = Some (Some t))
  ∧ timer_seq w0 = timer_seq w ∧ timers w0 = timers w
  ∧ reconnectTimeoutRef w0 = reconnectTimeoutRef w
  ∧ reconnectCount w0 = reconnectCount w ∧ now w0 = now w
  ∧ status w0 = "Connecting...".
Proof.
  intros Hm Hu Hs. cbn zeta.
  destruct (effect_connecting w Hm Hu Hs) as (S & _ & T & N & C & R & Ti).
  rewrite S, T, N, C, R, Ti. rewrite List.length_app, lookup_snoc. simpl.
  rewrite effect_no_faults by done. cbn zeta. simpl.
  destruct (entered_fields w Hm) as (_ & _ & _ & L & _ & _ & M & _ & _ & _ & Cf).
  rewrite List.length_app, L, M, Cf. simpl.
  repeat split; try done; try lia; [by eexists |].
  unfold entered, setError, setStatus. rewrite Hm. simpl. rewrite Hm. simpl.
  by destruct (pcRef w).
Qed.

Lemma caught_idle_fields (e : Thrown) (w : World) :
  mounted w = true → reconnectTimeoutRef w = None →
  mounted (caught e w) = true ∧ config (caught e w) = config w
  ∧ reconnectTimeoutRef (caught e w) = Some (timer_seq w)
  ∧ timers (caught e w) = <[timer_seq w := now w + RETRY_DELAY]> (timers w)
  ∧ timer_seq (caught e w) = S (timer_seq w) ∧ now (caught e w) = now w
  ∧ reconnectCount (caught e w) = reconnectCount w
  ∧ pcs (caught e w) = pcs w ∧ tasks (caught e w) = tasks w.
Proof.
  intros Hm R. unfold caught, triggerReconnect, setStatus, setError. simpl.
  rewrite Hm. simpl. rewrite Hm. simpl. rewrite R, Hm. done.
Qed.

(** One failed attempt and its retry. *)
Lemma failing_cycle (w : World) (e : Thrown) :
  mounted w = true →
  JsString.truthy (cfg_url (config w)) = true →
  JsString.truthy (cfg_stream (config w)) = true →
  reconnectTimeoutRef w = None →
  ∃ w_next,
    run [Settle (length (tasks w)) (Rejected e); Elapse RETRY_DELAY;
         TimerFires (timer_seq w) no_faults] (effect no_faults w)
    = Some (effect no_faults w_next)
    ∧ mounted w_next = true ∧ config w_next = config w
    ∧ reconnectTimeoutRef w_next = None
    ∧ length (tasks w_next) = S (length (tasks w))
    ∧ timer_seq w_next = S (timer_seq w)
    ∧ reconnectCount w_next = reconnectCount w + 1
    ∧ length (pcs w_next) = S (length (pcs w))
    ∧ now w_next = now w + RETRY_DELAY.
Proof.
  intros Hm Hu Hs R.
  destruct (attempt_fields w Hm Hu Hs)
    as (M0 & C0 & P0 & T0 & (t0 & L0) & Sq0 & Ti0 & R0 & RC0 & N0 & _).
  set (w0 := effect no_faults w) in *. clearbody w0.
  rewrite R in R0.
  destruct (caught_idle_fields e w0 M0 R0)
    as (M1 & C1 & R1 & Ti1 & Sq1 & N1 & RC1 & P1 & T1).
  set (w1 := finish (length (tasks w)) (caught e w0)).
  assert (step (Settle (length (tasks w)) (Rejected e)) w0 = Some w1) as S1
    by by eapply settle_rejected.
  assert (mounted w1 = true ∧ config w1 = config w
          ∧ timers w1 !! timer_seq w = Some (now w + RETRY_DELAY)
          ∧ timer_seq w1 = S (timer_seq w) ∧ now w1 = now w
          ∧ reconnectCount w1 = reconnectCount w
          ∧ length (pcs w1) = S (length (pcs w))
          ∧ length (tasks w1) = S (length (tasks w)))
    as (M1' & C1' & Hid1 & Sq1' & N1' & RC1' & P1' & T1').
  { subst w1. simpl.
    rewrite length_insert, M1, C1, Ti1, Sq1, N1, RC1, P1, T1, C0, Sq0, N0,
      RC0, P0, T0.
    by rewrite lookup_insert_eq. }
  clearbody w1.
  set (w2 := set_now (now w1 + RETRY_DELAY) w1).
  assert (step (Elapse RETRY_DELAY) w1 = Some w2) as S2 by done.
  assert (mounted w2 = true ∧ config w2 = config w1
          ∧ timers w2 = timers w1 ∧ timer_seq w2 = timer_seq w1
          ∧ now w2 = now w1 + RETRY_DELAY
          ∧ reconnectCount w2 = reconnectCount w1
          ∧ pcs w2 = pcs w1 ∧ tasks w2 = tasks w1)
    as (M2 & C2 & Ti2 & Sq2 & N2 & RC2 & P2 & T2) by done.
  clearbody w2.
  destruct (retry_callback_fields w2 (timer_seq w) M2)
    as (R3 & RC3 & _ & _ & C3 & M3 & N3 & Sq3 & D3).
  assert (tasks (retry_callback
                   (set_timers (delete (timer_seq w) (timers w2)) w2))
          = tasks w2
          ∧ pcs (retry_callback
                   (set_timers (delete (timer_seq w) (timers w2)) w2))
            = pcs w2) as (T3 & P3).
  { unfold retry_callback, setReconnectCount. simpl. by rewrite M2. }
  set (w3 := retry_callback _) in *.
  assert (step (TimerFires (timer_seq w) no_faults) w2
          = Some (effect no_faults (cleanup w3))) as S3.
  { assert (timers w2 !! timer_seq w = Some (now w + RETRY_DELAY)) as Hid2
      by by rewrite Ti2.
    unfold step. rewrite Hid2.
    replace (now w + RETRY_DELAY <=? now w2) with true
      by (symmetry; apply Nat.leb_le; lia).
    fold w3. by rewrite rerender_changed. }
  clearbody w3.
  destruct (cleanup_fields w3) as (C4 & M4 & RC4 & _ & N4 & _ & _ & T4 & P4).
  destruct (cleanup_refs w3) as (R4 & _).
  destruct (cleanup_effects w3) as (_ & _ & _ & Sq4 & _).
  exists (cleanup w3). split.
  - cbn [run]. rewrite S1. cbn [mbind option_bind].
    rewrite S2. cbn [mbind option_bind]. by rewrite S3.
  - rewrite M4, C4, R4, T4, Sq4, RC4, P4, N4, M3, C3, RC3, N3, Sq3, T3, P3,
      T2, P2, C2, RC2, N2, Sq2, C1', Sq1', N1', RC1', P1', T1'.
    repeat split; done.
Qed.

(** The retry has no cap: [n] attempts that fail one after the other are
    each followed, two seconds later, by a new attempt.  After the [n]
    failures the panel has counted [n] reconnects, has created [n + 1]
    connections, and is connecting again. *)
Theorem retries_have_no_cap (n : nat) (e : Thrown) (w : World) :
  mounted w = true →
  JsString.truthy (cfg_url (config w)) = true →
  JsString.truthy (cfg_stream (config w)) = true →
  reconnectTimeoutRef w = None →
  ∃ w', run (failing_attempts n (length (tasks w)) (timer_seq w) e)
            (effect no_faults w) = Some w'
    ∧ status w' = "Connecting..."
    ∧ reconnectCount w' = reconnectCount w + n
    ∧ length (pcs w') = length (pcs w) + S n
    ∧ now w' = now w + n * RETRY_DELAY.
Proof.
  revert w. induction n as [|n IH]; intros w Hm Hu Hs R.
  - exists (effect no_faults w). split; [done |].
    destruct (attempt_fields w Hm Hu Hs)
      as (_ & _ & P & _ & _ & _ & _ & _ & RC & N & S).
    rewrite S, RC, N, P. repeat split; lia.
  - destruct (failing_cycle w e Hm Hu Hs R)
      as (w1 & Hcycle & M1 & C1 & R1 & T1 & Sq1 & RC1 & P1 & N1).
    destruct (IH w1) as (w' & Hrun & S & RC & P & N); try done;
      [by rewrite C1 | by rewrite C1 |].
    exists w'. split.
    + cbn [failing_attempts]. rewrite run_app, Hcycle.
      cbn [mbind option_bind]. by rewrite <- T1, <- Sq1.
    + rewrite S, RC, P, N, RC1, P1, N1. repeat split; lia.
Qed.

Lemma retries_have_no_cap_witness :
  ∃ w', run (failing_attempts 3 0 1 (ErrorObj "down"))
            (effect no_faults (latency_effect (first_render None))) = Some w'
        ∧ reconnectCount w' = 3 ∧ length (pcs w') = 4
        ∧ now w' = 3 * RETRY_DELAY.
Proof.
  destruct (retries_have_no_cap 3 (ErrorObj "down")
              (latency_effect (first_render None))
              eq_refl eq_refl eq_refl eq_refl)
    as (w' & Hrun & _ & RC & P & N).
  exists w'. split; [exact Hrun |]. split; [exact RC |]. split; [exact P |].
  exact N.
Defined.

(** ** The sample after a correction *)

(** A sample that corrects shows the drift it found, in amber; the next
    sample of the same buffer (whose end is finite) finds the playback
    position at the end of the buffer: it does not seek again, it shows a
    delay of 0 and the label turns green.  The threshold is strict, on the
    rounded difference: a drift of exactly 0.5 is shown in green and is not
    corrected. *)
Theorem sample_after_correction (w : World) (v : Video) (s e : spec_float) :
  mounted w = true → videoRef w = Some v →
  paused v = false → 3 ≤ readyState v → last (buffered v) = Some (s, e) →
  (JsNumber.gt (JsNumber.sub e (currentTime v)) JsNumber.half = true →
   JsNumber.is_finite e = true →
   let w1 := latency_sample w in
   let w2 := latency_sample w1 in
   o_delay (render w1) = JsNumber.sub e (currentTime v)
   ∧ o_delay_color (render w1) = "#ffaa00"
   ∧ videoRef w1 = Some (with_currentTime e v)
   ∧ videoRef w2 = videoRef w1
   ∧ o_delay (render w2) = JsNumber.zero
   ∧ o_delay_color (render w2) = "#aaffaa")
  ∧ (JsNumber.sub e (currentTime v) = JsNumber.half →
     o_delay (render (latency_sample w)) = JsNumber.half
     ∧ o_delay_color (render (latency_sample w)) = "#aaffaa"
     ∧ videoRef (latency_sample w) = Some v).
Proof.
  intros Hm Hv Hp Hr Hl. split.
  - intros Hb Hf. cbn zeta.
    assert (exceeds_half (JsNumber.sub e (currentTime v)) = true) as Hx
      by exact Hb.
    rewrite (latency_sample_measures w v s e) by done. rewrite Hx.
    set (w1 := set_videoRef _ _).
    assert (mounted w1 = true) as Hm1 by done.
    assert (videoRef w1 = Some (with_currentTime e v)) as Hv1 by done.
    assert (latency w1 = JsNumber.sub e (currentTime v)) as Hl1 by done.
    rewrite (latency_sample_measures w1 (with_currentTime e v) s e) by done.
    cbn [currentTime with_currentTime].
    rewrite (number_sub_diag e Hf), exceeds_half_zero.
    unfold render. cbn [o_delay o_delay_color]. rewrite Hl1, Hx.
    cbn [id set_latency latency videoRef]. rewrite exceeds_half_zero.
    by repeat split.
  - intros Hh. rewrite (latency_sample_measures w v s e) by done.
    rewrite Hh. by replace (exceeds_half JsNumber.half) with false.
Qed.

Lemma sample_after_correction_witness :
  let v := {| paused := false; readyState := HAVE_ENOUGH_DATA;
              buffered := [(JsNumber.zero, JsNumber.of_Z 3)];
              currentTime := JsNumber.of_Z 1; srcObject := Some 1 |} in
  let w := set_videoRef (Some v) (first_render None) in
  o_delay_color (render (latency_sample w)) = "#ffaa00"
  ∧ o_delay_color (render (latency_sample (latency_sample w))) = "#aaffaa".
Proof.
  intros v w.
  destruct (sample_after_correction w v JsNumber.zero (JsNumber.of_Z 3)
              eq_refl eq_refl eq_refl ltac:(cbv; lia) eq_refl)
    as [H _].
  destruct (H eq_refl eq_refl) as (_ & A & _ & _ & _ & G).
  split; [exact A | exact G].
Defined.

(** ** The overlay *)

Lemma truthy_false (v : option string) :
  JsString.truthy v = false ↔ v = None ∨ v = Some "".
Proof.
  destruct v as [s|]; simpl; [| by split; [left |]].
  rewrite negb_false_iff, String.eqb_eq.
  split; [intros ->; by right | by intros [?| [= ->]]].
Qed.

(** The hint to configure the panel depends on the url only: it is shown
    exactly when the url is missing or empty.  With a url and an empty
    stream the panel waits for configuration, without the hint. *)
Theorem configure_hint_follows_url :
  (∀ w, o_configure_hint (render w) = true
        ↔ cfg_url (config w) = None ∨ cfg_url (config w) = Some "")
  ∧ (∀ w f url, mounted w = true →
       cfg_url (config w) = Some url → url ≠ "" →
       cfg_stream (config w) = Some "" →
       o_status (render (effect f w)) = "Waiting for config"
       ∧ o_configure_hint (render (effect f w)) = false).
Proof.
  split.
  - intros w. unfold render. cbn [o_configure_hint].
    rewrite negb_true_iff. apply truthy_false.
  - intros w f url Hm Hu Hu0 Hs.
    rewrite effect_waiting by (right; by rewrite Hs).
    unfold render, setStatus. rewrite Hm. simpl.
    rewrite Hu. simpl. split; [done |].
    apply negb_false_iff, negb_true_iff. by apply String.eqb_neq.
Qed.

Lemma configure_hint_follows_url_witness :
  let w := set_config (<["stream" := ""]> DEFAULT_CONFIG) (first_render None) in
  o_status (render (effect no_faults w)) = "Waiting for config"
  ∧ o_configure_hint (render (effect no_faults w)) = false.
Proof.
  intros w.
  apply (proj2 configure_hint_follows_url w no_faults "http://localhost:1984"
           eq_refl);
    [by vm_compute | discriminate | by vm_compute].
Defined.

(** The error line is rendered for a non-empty message only.  A failure
    whose thrown value has an empty message is caught and recorded like any
    other, and a retry is scheduled, but the overlay shows no error line. *)
Theorem empty_message_shows_no_line :
  (∀ w, o_error (render w) = None ↔ error w = None ∨ error w = Some "")
  ∧ (∀ w msg, error w = Some msg → msg ≠ "" →
       o_error (render w) = Some ("Error: " +:+ msg))
  ∧ (∀ e w, mounted w = true → err_text e = "" →
       error (caught e w) = Some ""
       ∧ o_error (render (caught e w)) = None
       ∧ is_Some (reconnectTimeoutRef (caught e w))).
Proof.
  split; [| split].
  - intros w. unfold render. cbn [o_error].
    rewrite <- truthy_false. by destruct (JsString.truthy (error w)).
  - intros w msg He Hm. unfold render. cbn [o_error]. rewrite He.
    by rewrite truthy_Some.
  - intros e w Hm He. destruct (caught_fields e w Hm) as (E & R & _).
    rewrite He in E. split; [done |]. split; [| done].
    unfold render. cbn [o_error]. by rewrite E.
Qed.

Lemma empty_message_shows_no_line_witness :
  o_error (render (caught (ErrorObj "") (mount None no_faults))) = None.
Proof.
  apply (proj2 (proj2 empty_message_shows_no_line) (ErrorObj "")
           (mount None no_faults) eq_refl eq_refl).
Defined.

(** ** The previous version *)

Lemma caught_is_legacy_then_retry (e : Thrown) (w : World) :
  caught e w = triggerReconnect (Legacy.caught e w).
Proof. reflexivity. Qed.

Lemma legacy_caught_frame (e : Thrown) (w : World) :
  timers (Legacy.caught e w) = timers w
  ∧ reconnectTimeoutRef (Legacy.caught e w) = reconnectTimeoutRef w
  ∧ timer_seq (Legacy.caught e w) = timer_seq w
  ∧ filter is_setTimeout (calls (Legacy.caught e w))
    = filter is_setTimeout (calls w).
Proof.
  unfold Legacy.caught, setStatus, setError. simpl.
  destruct (mounted w) eqn:Hm; simpl; rewrite ?Hm; done.
Qed.

Lemma effect_versions (f : Faults) (w : World) :
  effect f w
  = (if threw_at_once f (cfg_url (config w)) (cfg_stream (config w))
     then triggerReconnect (Legacy.effect f w)
     else Legacy.effect f w)
  ∧ timers (Legacy.effect f w) = timers w
  ∧ reconnectTimeoutRef (Legacy.effect f w) = reconnectTimeoutRef w
  ∧ filter is_setTimeout (calls (Legacy.effect f w))
    = filter is_setTimeout (calls w).
Proof.
  unfold effect, Legacy.effect, spawn, setupWebRTC, Legacy.setupWebRTC,
    threw_at_once.
  destruct (JsString.truthy (cfg_url (config w))),
           (JsString.truthy (cfg_stream (config w))); cbn [negb orb andb];
    try (unfold bind, exec, ret, setStatus; simpl;
         by destruct (mounted w)).
  repeat (match goal with
          | |- context [bind (exec ?a) ?k ?w0] =>
              change (bind (exec a) k w0) with (k tt (a w0))
          end; cbv beta).
  fold (entered w).
  assert (timers (entered w) = timers w
          ∧ reconnectTimeoutRef (entered w) = reconnectTimeoutRef w
          ∧ filter is_setTimeout (calls (entered w))
            = filter is_setTimeout (calls w)) as (Ti & Re & Ca).
  { unfold entered, setError, setStatus.
    destruct (mounted w) eqn:Hm; simpl; rewrite ?Hm; simpl;
      by destruct (pcRef w). }
  rewrite <- Ti, <- Re, <- Ca. generalize (entered w). intros w2.
  unfold try_catch, bind, new_RTCPeerConnection, first_fault.
  assert (∀ e W, timers W = timers w2 →
            reconnectTimeoutRef W = reconnectTimeoutRef w2 →
            filter is_setTimeout (calls W) = filter is_setTimeout (calls w2) →
            (let (c, w') := catch_block e W in
             match c with
             | Normal Return => w'
             | Normal (Suspend t) => set_tasks (tasks w' ++ [Some t]) w'
             | Throw e0 => set_unhandled (e0 :: unhandled w') w'
             end)
            = triggerReconnect
                (let (c, w') := Legacy.catch_block e W in
                 match c with
                 | Normal Return => w'
                 | Normal (Suspend t) => set_tasks (tasks w' ++ [Some t]) w'
                 | Throw e0 => set_unhandled (e0 :: unhandled w') w'
                 end)
            ∧ timers (let (c, w') := Legacy.catch_block e W in
                      match c with
                      | Normal Return => w'
                      | Normal (Suspend t) =>
                          set_tasks (tasks w' ++ [Some t]) w'
                      | Throw e0 => set_unhandled (e0 :: unhandled w') w'
                      end) = timers w2
            ∧ reconnectTimeoutRef
                (let (c, w') := Legacy.catch_block e W in
                 match c with
                 | Normal Return => w'
                 | Normal (Suspend t) => set_tasks (tasks w' ++ [Some t]) w'
                 | Throw e0 => set_unhandled (e0 :: unhandled w') w'
                 end) = reconnectTimeoutRef w2
            ∧ filter is_setTimeout
                (calls (let (c, w') := Legacy.catch_block e W in
                        match c with
                        | Normal Return => w'
                        | Normal (Suspend t) =>
                            set_tasks (tasks w' ++ [Some t]) w'
                        | Throw e0 => set_unhandled (e0 :: unhandled w') w'
                        end))
              = filter is_setTimeout (calls w2)) as Hcatch.
  { intros e W T R C. destruct (legacy_caught_frame e W) as (A & B & _ & D).
    change (Legacy.catch_block e W) with (Normal Return, Legacy.caught e W).
    rewrite catch_block_caught. cbv beta iota.
    by rewrite A, B, D, T, R, C. }
  destruct (new_fault f) as [e1|]; [by apply Hcatch |].
  unfold exec, addTransceiver.
  destruct (video_fault f) as [e2|]; [by apply Hcatch |].
  destruct (audio_fault f) as [e3|]; [by apply Hcatch |].
  by cbn.
Qed.

Lemma segment_no_timer (t : Task) (r : Settled) (body : Js Next) (w : World) :
  segment t r = Some body →
  timers (body w).2 = timers w
  ∧ reconnectTimeoutRef (body w).2 = reconnectTimeoutRef w
  ∧ filter is_setTimeout (calls (body w).2) = filter is_setTimeout (calls w).
Proof.
  unfold segment. intros H.
  destruct r, (t_await t); simplify_eq; try done.
  - by destruct (t_url t).
  - by destruct (ok r).
  - unfold bind, exec, setStatus. simpl. by destruct (mounted w).
Qed.

Lemma triggerReconnect_finish (tid : nat) (w : World) :
  finish tid (triggerReconnect w) = triggerReconnect (finish tid w).
Proof.
  unfold triggerReconnect, finish, setStatus. simpl.
  by destruct (reconnectTimeoutRef w), (mounted w).
Qed.

Lemma continue_versions (tid : nat) (body : Js Next) (w : World) :
  continue tid (try_catch body catch_block) w
  = (if threw (body w).1
     then triggerReconnect (continue tid (try_catch body Legacy.catch_block) w)
     else continue tid (try_catch body Legacy.catch_block) w)
  ∧ timers (continue tid (try_catch body Legacy.catch_block) w)
    = timers (body w).2
  ∧ reconnectTimeoutRef (continue tid (try_catch body Legacy.catch_block) w)
    = reconnectTimeoutRef (body w).2
  ∧ filter is_setTimeout
      (calls (continue tid (try_catch body Legacy.catch_block) w))
    = filter is_setTimeout (calls (body w).2).
Proof.
  unfold continue, try_catch. destruct (body w) as [[n|e] w1] eqn:E.
  - by destruct n.
  - cbn [threw fst]. rewrite catch_block_caught.
    change (Legacy.catch_block e w1) with (Normal Return, Legacy.caught e w1).
    cbv beta iota. fold (finish tid (caught e w1)).
    fold (finish tid (Legacy.caught e w1)).
    rewrite caught_is_legacy_then_retry, triggerReconnect_finish.
    split; [done |]. simpl.
    by destruct (legacy_caught_frame e w1) as (-> & -> & _ & ->).
Qed.

Lemma no_timer_change_refl (w : World) : no_timer_change w w.
Proof. done. Qed.

Lemma no_timer_change_trans (w1 w2 w3 : World) :
  no_timer_change w1 w2 → no_timer_change w2 w3 → no_timer_change w1 w3.
Proof. intros (A & B & C) (A' & B' & C'). split_and!; congruence. Qed.

Lemma legacy_cleanup_no_timer (w : World) :
  no_timer_change w (Legacy.cleanup w).
Proof. unfold Legacy.cleanup. by destruct (pcRef w). Qed.

Lemma legacy_rerender_no_timer (f : Faults)
    (old : option string * option string) (w : World) :
  no_timer_change w (Legacy.rerender f old w).
Proof.
  unfold Legacy.rerender. destruct (mounted w); [| done].
  destruct (decide _); [done |].
  eapply no_timer_change_trans; [apply legacy_cleanup_no_timer |].
  apply effect_versions.
Qed.

Lemma legacy_settle (tid : nat) (r : Settled) (w : World) :
  match tasks w !! tid with
  | Some (Some t) =>
      match segment t r with
      | Some body =>
          step (Settle tid r) w
          = Some (continue tid (try_catch body catch_block)
                    (browser_commit t r w))
          ∧ Legacy.step (Settle tid r) w
            = Some (continue tid (try_catch body Legacy.catch_block)
                      (browser_commit t r w))
      | None => step (Settle tid r) w = None
                ∧ Legacy.step (Settle tid r) w = None
      end
  | _ => step (Settle tid r) w = None ∧ Legacy.step (Settle tid r) w = None
  end.
Proof.
  simpl. destruct (tasks w !! tid) as [[t|]|]; try done.
  unfold setupWebRTC_resume, Legacy.setupWebRTC_resume.
  by destruct (segment t r).
Qed.

(** No event of the previous version arms or cancels a timer. *)
Lemma legacy_step_no_timer (e : Event) (w w' : World) :
  Legacy.step e w = Some w' → no_timer_change w w'.
Proof.
  destruct e; simpl; intros H; try done.
  - destruct (mounted w) eqn:Hm; simplify_eq.
    eapply no_timer_change_trans; [| apply legacy_rerender_no_timer].
    unfold setConfig. by rewrite Hm.
  - destruct (mounted w); simplify_eq.
    by destruct (legacy_cleanup_no_timer w) as (A & B & C).
  - by simplify_eq.
  - destruct (pcs w !! pc); simplify_eq. unfold ontrack.
    by destruct (videoRef w).
  - destruct (pcs w !! pc); simplify_eq.
    unfold Legacy.oniceconnectionstatechange, setStatus. simpl.
    by destruct (mounted w).
  - by destruct (pcs w !! pc); simplify_eq.
  - destruct (tasks w !! task) as [[t|]|]; try done.
    unfold Legacy.setupWebRTC_resume in H.
    destruct (segment t r) as [body|] eqn:E; simplify_eq/=.
    destruct (continue_versions task body (browser_commit t r w))
      as (_ & A & B & C).
    destruct (segment_no_timer t r body (browser_commit t r w) E)
      as (A' & B' & C').
    unfold no_timer_change. rewrite A, B, C, A', B', C'.
    unfold browser_commit. by destruct r, (t_await t).
  - by destruct (videoRef w); simplify_eq.
Qed.

Lemma legacy_run_no_timer (evs : list Event) (w w' : World) :
  Legacy.run evs w = Some w' → no_timer_change w w'.
Proof.
  revert w. induction evs as [|e evs IH]; simpl; intros w H;
    [by simplify_eq |].
  destruct (Legacy.step e w) as [w1|] eqn:E; [| done]. simpl in H.
  eapply no_timer_change_trans; [by eapply legacy_step_no_timer | by apply IH].
Qed.

(** The versions compared, as machines over the same events.  On the
    state they share (cells, refs, connections, timers, runs, browser
    calls), up to the first [await] and at every result of a run, the panel
    does what its previous version did and then calls [triggerReconnect]
    exactly when the [try] block threw.  The state handlers the two
    versions install differ: the previous version handles ICE changes only,
    shows ["ICE: <state>"] and retries nothing, and nothing listens to
    connection-state changes; the current version arms the retry on a failed
    ICE state.  The previous version has no Reconnect button, and none of
    its events arms or cancels a timer, so that no retry is ever pending
    there.  The two cleanups agree when no retry is pending. *)
Theorem previous_version_compared :
  (∀ f w,
     effect f w
     = if threw_at_once f (cfg_url (config w)) (cfg_stream (config w))
       then triggerReconnect (Legacy.effect f w)
       else Legacy.effect f w)
  ∧ (∀ tid r w,
       match step (Settle tid r) w, Legacy.step (Settle tid r) w with
       | Some wc, Some wl => wc = wl ∨ wc = triggerReconnect wl
       | None, None => True
       | _, _ => False
       end)
  ∧ (∀ t r body tid w, segment t r = Some body →
       tasks w !! tid = Some (Some t) →
       ∃ wl, Legacy.step (Settle tid r) w = Some wl
             ∧ step (Settle tid r) w
               = Some (if threw (body (browser_commit t r w)).1
                       then triggerReconnect wl else wl))
  ∧ (∀ pc p st w, mounted w = true → pcs w !! pc = Some p →
       Legacy.step (IceConnectionStateChange pc st) w
       = Some (set_status ("ICE: " +:+ st)
                 (set_pc pc (with_iceConnectionState st) w))
       ∧ Legacy.step (ConnectionStateChange pc st) w
         = Some (set_pc pc (with_connectionState st) w)
       ∧ (reconnectTimeoutRef w = None →
          ∃ wc, step (IceConnectionStateChange pc "failed") w = Some wc
                ∧ status wc = "Retrying in 2s..."
                ∧ reconnectTimeoutRef wc = Some (timer_seq w)))
  ∧ (∀ f w, Legacy.step (ClickReconnect f) w = None)
  ∧ (∀ evs w w', Legacy.run evs w = Some w' →
       timers w' = timers w
       ∧ reconnectTimeoutRef w' = reconnectTimeoutRef w
       ∧ filter is_setTimeout (calls w') = filter is_setTimeout (calls w))
  ∧ (∀ init f evs w, Legacy.run evs (Legacy.mount init f) = Some w →
       interval (Legacy.mount init f) = None
       ∧ timers w = ∅ ∧ reconnectTimeoutRef w = None
       ∧ ∀ id f', Legacy.step (TimerFires id f') w = None)
  ∧ (∀ w, reconnectTimeoutRef w = None → cleanup w = Legacy.cleanup w).
Proof.
  split; [intros f w; apply effect_versions |].
  split; [| split; [| split; [| split; [done | split; [| split]]]]].
  - intros tid r w. pose proof (legacy_settle tid r w) as H.
    destruct (tasks w !! tid) as [[t|]|]; try (by destruct H as [-> ->]).
    destruct (segment t r) as [body|]; [| by destruct H as [-> ->]].
    destruct H as [-> ->].
    destruct (continue_versions tid body (browser_commit t r w)) as (-> & _).
    destruct (threw _); [by right | by left].
  - intros t r body tid w Hb Ht. pose proof (legacy_settle tid r w) as H.
    rewrite Ht, Hb in H. destruct H as [-> ->]. eexists. split; [done |].
    by destruct (continue_versions tid body (browser_commit t r w))
      as (-> & _).
  - intros pc p st w Hm Hp. simpl. rewrite Hp.
    split; [| split; [done |]].
    + unfold Legacy.oniceconnectionstatechange, setStatus. simpl.
      by rewrite Hm, list_lookup_alter_eq, Hp.
    + intros R. eexists. split; [reflexivity |].
      rewrite (updateConnectionStatus_failed pc
                 (with_iceConnectionState "failed" p))
        by ((simpl; by rewrite list_lookup_alter_eq, Hp) || by left).
      unfold triggerReconnect, setStatus. simpl. rewrite Hm. simpl.
      by rewrite R, Hm.
  - apply legacy_run_no_timer.
  - intros init f evs w H.
    destruct (legacy_run_no_timer evs _ w H) as (T & R & _).
    destruct (effect_versions f (first_render init)) as (E0 & T0 & R0 & _).
    assert (timers w = ∅) as Tw
      by (by rewrite T; unfold Legacy.mount; rewrite T0).
    split.
    { pose proof (apart_effect f (first_render init)) as [_ _ _ I _ _].
      rewrite E0 in I. unfold Legacy.mount.
      destruct (threw_at_once _ _ _); [| exact I].
      by destruct (apart_triggerReconnect (Legacy.effect f (first_render init)))
        as [_ _ _ <- _ _]. }
    split; [exact Tw |].
    split; [by rewrite R; unfold Legacy.mount; rewrite R0 | done].
  - intros w R. unfold cleanup, Legacy.cleanup. by rewrite R.
Qed.

(** The same failed offer in both versions: the previous version stops at
    ["Error"], the current one schedules the retry. *)
Lemma previous_version_compared_witness :
  ∃ wl, Legacy.step (Settle 0 (Rejected (ErrorObj "no offer")))
          (mount None no_faults) = Some wl
        ∧ status wl = "Error"
        ∧ step (Settle 0 (Rejected (ErrorObj "no offer")))
            (mount None no_faults) = Some (triggerReconnect wl).
Proof.
  destruct previous_version_compared as (_ & _ & H & _).
  destruct (H {| t_pc := 0; t_url := Some "http://localhost:1984";
                 t_stream := Some "cam1"; t_await := AwaitCreateOffer |}
              (Rejected (ErrorObj "no offer")) _ 0 (mount None no_faults)
              eq_refl eq_refl) as (wl & Hl & Hc).
  exists wl. split; [exact Hl |]. split; [| exact Hc].
  vm_compute in Hl. by injection Hl as <-.
Defined.

(** ** Clearing the url *)

(** Clearing the url tears the session down and starts nothing: the held
    connection is closed, the pending retry is cancelled, no connection or
    run is created, the status is ["Waiting for config"] and the hint to
    configure the panel is shown. *)
Theorem clearing_url_tears_down (w : World) (f : Faults) :
  reachable w → mounted w = true → cfg_url (config w) ≠ Some "" →
  ∃ w', step (SettingsUpdate ["general"; "url"] "" f) w = Some w'
    ∧ status w' = "Waiting for config"
    ∧ pcRef w' = None ∧ reconnectTimeoutRef w' = None ∧ timers w' = ∅
    ∧ length (pcs w') = length (pcs w)
    ∧ (∀ pc p, pcs w' !! pc = Some p → closed p = true)
    ∧ tasks w' = tasks w
    ∧ o_configure_hint (render w') = true.
Proof.
  intros Hw Hm Hu.
  set (c' := settings_update ["general"; "url"] "" (config w)).
  assert (cfg_url c' = Some "") as Hu'.
  { subst c'. rewrite settings_update_url by done.
    unfold cfg_url. by rewrite lookup_insert_eq. }
  set (w1 := set_config c' w).
  exists (effect f (cleanup w1)). split.
  { apply step_settings_changed; [done |]. left. fold c'. by rewrite Hu'. }
  destruct (cleanup_fields w1) as (C & M & _ & _ & _ & _ & _ & T & L).
  destruct (cleanup_refs w1) as (R & P).
  destruct (reachable_inv w Hw) as (I & _).
  pose proof (reachable_pc_inv w Hw) as Ip.
  assert (timers (cleanup w1) = ∅) as Ti by (apply cleanup_no_timer; exact I).
  assert (all_closed (cleanup w1)) as A
    by (apply cleanup_all_closed; by eapply pc_inv_frame).
  rewrite effect_waiting by (left; rewrite C; simpl; by rewrite Hu').
  unfold render, setStatus. rewrite M. simpl. rewrite Hm. simpl.
  rewrite R, P, Ti, L, T, C. simpl. rewrite Hu'.
  repeat split; try done.
Qed.

Lemma clearing_url_tears_down_witness :
  ∃ w', step (SettingsUpdate ["general"; "url"] "" no_faults)
             (mount None no_faults) = Some w'
        ∧ status w' = "Waiting for config" ∧ pcRef w' = None.
Proof.
  destruct (clearing_url_tears_down (mount None no_faults) no_faults
              (reachable_mount None no_faults) eq_refl
              ltac:(vm_compute; discriminate))
    as (w' & Hs & St & P & _).
  exists w'. split; [exact Hs |]. split; [exact St | exact P].
Defined.

(** A late failure on a panel without a complete configuration.  The run
    of an earlier attempt is not cancelled when the url or the stream is
    cleared; when it fails, its [catch] block replaces the status
    ["Waiting for config"] by the retry text and arms the timer.  When the
    timer fires two seconds later the effect runs again, counts a
    reconnect, creates nothing and shows ["Waiting for config"] again. *)
Theorem late_failure_while_unconfigured (w : World) (tid : nat) (t : Task)
    (e : Thrown) :
  mounted w = true → tasks w !! tid = Some (Some t) →
  (JsString.truthy (cfg_url (config w)) = false
   ∨ JsString.truthy (cfg_stream (config w)) = false) →
  reconnectTimeoutRef w = None →
  ∃ w1 w2,
    step (Settle tid (Rejected e)) w = Some w1
    ∧ status w1 = "Retrying in 2s..."
    ∧ error w1 = Some (err_text e)
    ∧ reconnectTimeoutRef w1 = Some (timer_seq w)
    ∧ run [Elapse RETRY_DELAY; TimerFires (timer_seq w) no_faults] w1
      = Some w2
    ∧ status w2 = "Waiting for config"
    ∧ reconnectCount w2 = reconnectCount w + 1
    ∧ length (pcs w2) = length (pcs w)
    ∧ reconnectTimeoutRef w2 = None.
Proof.
  intros Hm Ht Hc R.
  destruct (caught_idle_fields e w Hm R)
    as (M1 & C1 & R1 & Ti1 & Sq1 & N1 & RC1 & P1 & T1).
  destruct (caught_fields e w Hm) as (E1 & _ & S1 & _).
  rewrite R in S1.
  set (w1 := finish tid (caught e w)).
  assert (mounted w1 = true ∧ config w1 = config w
          ∧ timers w1 !! timer_seq w = Some (now w + RETRY_DELAY)
          ∧ now w1 = now w ∧ reconnectCount w1 = reconnectCount w
          ∧ pcs w1 = pcs w ∧ status w1 = "Retrying in 2s..."
          ∧ error w1 = Some (err_text e)
          ∧ reconnectTimeoutRef w1 = Some (timer_seq w))
    as (M1' & C1' & Hid & N1' & RC1' & P1' & S1' & E1' & R1').
  { subst w1. simpl. rewrite M1, C1, Ti1, N1, RC1, P1, S1, E1, R1.
    by rewrite lookup_insert_eq. }
  assert (step (Settle tid (Rejected e)) w = Some w1) as Hs1
    by by eapply settle_rejected.
  clearbody w1.
  set (w2 := set_now (now w1 + RETRY_DELAY) w1).
  assert (mounted w2 = true) as M2 by exact M1'.
  destruct (retry_callback_fields w2 (timer_seq w) M2)
    as (R3 & RC3 & _ & _ & C3 & M3 & _ & _ & D3).
  assert (pcs (retry_callback
                 (set_timers (delete (timer_seq w) (timers w2)) w2))
          = pcs w1) as P3.
  { unfold retry_callback, setReconnectCount. simpl. by rewrite M1'. }
  set (w3 := retry_callback _) in *.
  assert (step (TimerFires (timer_seq w) no_faults) w2
          = Some (effect no_faults (cleanup w3))) as Hs3.
  { assert (timers w2 !! timer_seq w = Some (now w + RETRY_DELAY)) as Hid2
      by exact Hid.
    unfold step. rewrite Hid2.
    replace (now w + RETRY_DELAY <=? now w2) with true
      by (symmetry; apply Nat.leb_le; simpl; lia).
    fold w3. by rewrite rerender_changed. }
  clearbody w3.
  destruct (cleanup_fields w3) as (C4 & M4 & RC4 & _ & _ & _ & _ & _ & P4).
  destruct (cleanup_refs w3) as (R4 & _).
  exists w1, (effect no_faults (cleanup w3)).
  split; [exact Hs1 |]. split; [exact S1' |]. split; [exact E1' |].
  split; [exact R1' |]. split.
  - cbn [run]. change (step (Elapse RETRY_DELAY) w1) with (Some w2).
    cbn [mbind option_bind]. by rewrite Hs3.
  - rewrite effect_waiting
      by (rewrite C4, C3; change (config w2) with (config w1);
          by rewrite C1').
    unfold setStatus. rewrite M4, M3. simpl.
    rewrite RC4, RC3, P4, P3, R4, P1'.
    change (reconnectCount w2) with (reconnectCount w1). by rewrite RC1'.
Qed.

Lemma late_failure_while_unconfigured_witness :
  ∃ w, run [SettingsUpdate ["general"; "url"] "" no_faults]
           (mount None no_faults) = Some w
    ∧ status w = "Waiting for config"
    ∧ ∃ w1, step (Settle 0 (Rejected (ErrorObj "late"))) w = Some w1
            ∧ status w1 = "Retrying in 2s...".
Proof.
  destruct (run [SettingsUpdate ["general"; "url"] "" no_faults]
                (mount None no_faults)) as [w|] eqn:E;
    [| vm_compute in E; discriminate].
  exists w. split; [reflexivity |].
  vm_compute in E. injection E as <-. split; [reflexivity |].
  match goal with
  | |- ∃ w1, step _ ?w = _ ∧ _ =>
      destruct (late_failure_while_unconfigured w 0 _ (ErrorObj "late")
                  eq_refl eq_refl ltac:(left; reflexivity) eq_refl)
        as (w1 & _ & Hs & St & _)
  end.
  exists w1. split; [exact Hs | exact St].
Defined.

(** ** Waiting for configuration *)

(** While the configuration is incomplete no event creates a connection
    or starts a run. *)
Lemma step_incomplete (e : Event) (w w' : World) :
  step e w = Some w' → incomplete (config w') →
  length (pcs w') = length (pcs w) ∧ length (tasks w') = length (tasks w).
Proof.
  intros H Hc. destruct e; simpl in H.
  - destruct (mounted w) eqn:Hm; simplify_eq.
    set (w1 := setConfig (settings_update path value) w) in *.
    assert (config (rerender f (deps w) w1) = config w1) as C1
      by apply apart_rerender.
    rewrite C1 in Hc.
    destruct (rerender_incomplete f (deps w) w1 Hc) as (-> & -> & _).
    subst w1. unfold setConfig. by rewrite Hm.
  - destruct (mounted w) eqn:Hm; simplify_eq.
    set (w1 := setReconnectCount (λ c, c + 1) w) in *.
    assert (config (rerender f (deps w) w1) = config w1) as C1
      by apply apart_rerender.
    rewrite C1 in Hc.
    destruct (rerender_incomplete f (deps w) w1 Hc) as (-> & -> & _).
    subst w1. unfold setReconnectCount. by rewrite Hm.
  - destruct (mounted w); simplify_eq. simpl.
    by destruct (cleanup_fields (set_interval None w))
      as (_ & _ & _ & _ & _ & _ & _ & -> & ->).
  - destruct (timers w !! id) as [due|]; [| done].
    destruct (due <=? now w); simplify_eq.
    set (w1 := retry_callback _) in *.
    assert (config (rerender f (deps w) w1) = config w1) as C1
      by apply apart_rerender.
    rewrite C1 in Hc.
    destruct (rerender_incomplete f (deps w) w1 Hc) as (-> & -> & _).
    subst w1. unfold retry_callback, setReconnectCount. simpl.
    by destruct (mounted w).
  - by simplify_eq.
  - destruct (pcs w !! pc); simplify_eq. unfold ontrack.
    by destruct (videoRef w).
  - destruct (pcs w !! pc); simplify_eq.
    destruct (updateConnectionStatus_frame pc
                (set_pc pc (with_iceConnectionState state) w))
      as (-> & _ & -> & _).
    simpl. by rewrite length_alter.
  - destruct (pcs w !! pc); simplify_eq.
    destruct (updateConnectionStatus_frame pc
                (set_pc pc (with_connectionState state) w))
      as (-> & _ & -> & _).
    simpl. by rewrite length_alter.
  - assert (step (Settle task r) w = Some w') as Hs by exact H.
    by destruct (settle_frame w w' task r Hs) as (_ & -> & -> & _).
  - by destruct (videoRef w); simplify_eq.
  - destruct (interval w) as [due|]; [| done].
    destruct (due <=? now w); simplify_eq.
    by destruct (latency_sample_frame
                   (set_interval (Some (now w + LATENCY_PERIOD)) w))
      as (_ & _ & _ & _ & -> & -> & _).
Qed.

Lemma run_incomplete (evs : list Event) (w w' : World) :
  run evs w = Some w' → incomplete (config w) →
  forallb (λ e, negb (is_settings_update e)) evs = true →
  config w' = config w
  ∧ length (pcs w') = length (pcs w) ∧ length (tasks w') = length (tasks w).
Proof.
  revert w. induction evs as [|e evs IH]; simpl; intros w H Hc Hn;
    [by simplify_eq |].
  destruct (step e w) as [w1|] eqn:E; [| done]. simpl in H.
  apply andb_true_iff in Hn as [He Hn].
  assert (config w1 = config w) as C1.
  { eapply step_config; [exact E |]. intros ??? ->. done. }
  destruct (step_incomplete e w w1 E) as (L1 & T1); [by rewrite C1 |].
  destruct (IH w1 H) as (C2 & L2 & T2); [by rewrite C1 | done |].
  by rewrite C2, L2, T2.
Qed.

(** The claim C2 as it is stated fails for the status: a run that was
    started while the configuration was complete is not cancelled when the
    url is cleared, and when its request fails its [catch] block replaces
    ["Waiting for config"] by the retry text. *)
Lemma waiting_status_is_overwritten :
  ¬ waits_while_unconfigured
  ∧ match run late_failure (mount None no_faults) with
    | Some w =>
        cfg_url (config w) = Some "" ∧ status w = "Retrying in 2s..."
        ∧ error w = Some "Failed to fetch"
        ∧ is_Some (reconnectTimeoutRef w)
    | None => False
    end.
Proof.
  destruct (run late_failure (mount None no_faults)) as [w|] eqn:E;
    [| vm_compute in E; discriminate].
  assert (reachable w) as Hw
    by (eapply reachable_run; [apply reachable_mount | exact E]).
  vm_compute in E. injection E as E.
  assert (cfg_url (config w) = Some "") as Hu by (by subst w).
  split.
  - intros H. specialize (H w Hw (or_introl Hu)). subst w.
    vm_compute in H. discriminate.
  - subst w. split; [reflexivity |]. split; [reflexivity |].
    split; [reflexivity | by eexists].
Qed.

(** C2 (amended).  When the url or the stream of the configuration is the
    empty string, the effect of a mounted panel only sets the status to
    ["Waiting for config"]: no peer connection is created or held, no run of
    [setupWebRTC] is left waiting, and no browser call (offer, signaling
    request or any other) is made.  A panel mounted with such a persisted
    configuration starts in that state with nothing created.  A render
    whose dependencies changed runs the cleanup and then this effect: the
    status is ["Waiting for config"], no connection is held and no retry is
    pending.  While the configuration stays incomplete, no event creates a
    connection or starts a run. *)
Theorem no_attempt_without_config :
  (∀ (w : World) (f : Faults),
     mounted w = true →
     cfg_url (config w) = Some "" ∨ cfg_stream (config w) = Some "" →
     effect f w = set_status "Waiting for config" w
     ∧ status (effect f w) = "Waiting for config"
     ∧ pcs (effect f w) = pcs w ∧ pcRef (effect f w) = pcRef w
     ∧ tasks (effect f w) = tasks w ∧ calls (effect f w) = calls w)
  ∧ (∀ (persisted : gmap string string) (f : Faults),
       persisted !! "url" = Some "" ∨ persisted !! "stream" = Some "" →
       status (mount (Some persisted) f) = "Waiting for config"
       ∧ pcs (mount (Some persisted) f) = []
       ∧ pcRef (mount (Some persisted) f) = None
       ∧ tasks (mount (Some persisted) f) = []
       ∧ calls (mount (Some persisted) f) = [])
  ∧ (∀ w f old, mounted w = true → incomplete (config w) → deps w ≠ old →
       rerender f old w = set_status "Waiting for config" (cleanup w)
       ∧ status (rerender f old w) = "Waiting for config"
       ∧ pcRef (rerender f old w) = None
       ∧ reconnectTimeoutRef (rerender f old w) = None
       ∧ length (pcs (rerender f old w)) = length (pcs w)
       ∧ tasks (rerender f old w) = tasks w)
  ∧ (∀ e w w', step e w = Some w' → incomplete (config w') →
       length (pcs w') = length (pcs w)
       ∧ length (tasks w') = length (tasks w))
  ∧ (∀ evs w w', run evs w = Some w' → incomplete (config w) →
       forallb (λ e, negb (is_settings_update e)) evs = true →
       incomplete (config w')
       ∧ length (pcs w') = length (pcs w)
       ∧ length (tasks w') = length (tasks w)).
Proof.
  assert (∀ w f, mounted w = true →
            cfg_url (config w) = Some "" ∨ cfg_stream (config w) = Some "" →
            effect f w = set_status "Waiting for config" w) as Heff.
  { intros w f Hm H. rewrite effect_waiting.
    - unfold setStatus. by rewrite Hm.
    - by apply incomplete_empty. }
  split; [| split; [| split; [| split]]].
  - intros w f Hm H. by rewrite (Heff w f Hm H).
  - intros persisted f H. unfold mount. rewrite Heff; [done | done |].
    unfold cfg_url, cfg_stream. simpl.
    rewrite !initial_config_lookup. destruct H as [-> | ->]; [by left | by right].
  - intros w f old Hm Hc Hd.
    destruct (rerender_incomplete f old w Hc) as (L & T & H).
    destruct (H Hm Hd) as (E & S & P & R). done.
  - apply step_incomplete.
  - intros evs w w' H Hc Hn.
    destruct (run_incomplete evs w w' H Hc Hn) as (C & L & T).
    by rewrite C.
Qed.

(** C2 for a panel whose url is cleared while the first attempt waits for
    the signaling response: the render that follows waits for
    configuration, and the response that arrives later creates nothing. *)
Lemma no_attempt_without_config_witness :
  match run fetch_in_flight_url_cleared (mount None no_faults) with
  | Some w =>
      status w = "Waiting for config"
      ∧ ∀ w', step (Settle 0 (Fetched ok_response)) w = Some w' →
          length (pcs w') = length (pcs w)
          ∧ length (tasks w') = length (tasks w)
  | None => False
  end.
Proof.
  destruct (run _ _) as [w|] eqn:E; vm_compute in E; [| discriminate].
  injection E as <-. split; [reflexivity |].
  intros w' H.
  destruct no_attempt_without_config as (_ & _ & _ & Hs & _).
  apply (Hs _ _ _ H).
  apply incomplete_empty. left.
  assert (step (Settle 0 (Fetched ok_response)) _ = Some w') as H' by exact H.
  apply step_config in H'; [| done]. rewrite H'. reflexivity.
Defined.
